(** * SplitGenie: the balance ledger queries of [convex/contacts.js]

    A shallow embedding of the Convex query handlers [getAllContacts],
    [getUserBalances], [getTotalSpent], [getMonthlySpending] and
    [getUserGroups] and of the mutation [createGroup], together with
    [getCurrentUser], [store] and [searchUsers] of [convex/users.js], and
    the properties of the ledger engine proved about them.

    Conventions of the embedding.
    - Document ids and names are [string]s; a table is the list of its
      documents in creation order, which is the order [collect()] yields.
    - Amounts are JavaScript numbers, that is IEEE 754 doubles. The four
      handlers that compute with them are embedded twice: in the module
      [Double], operation by operation on the primitive floats, and at top
      level with the amounts as integers of [Z] (minor currency units),
      which is their reading in exact arithmetic. On record sets of whole
      amounts whose absolute values add up to at most 2^53 - 1 the two
      return the same results ([getUserBalances_exact],
      [getTotalSpent_exact], [getMonthlySpending_exact],
      [getUserGroups_exact]); what is proved of sums and differences of
      amounts is stated on [Double]. Timestamps are whole numbers of
      milliseconds and are written over [Z].
    - A JavaScript object used as a map ([balanceByUser], [monthlyTotals]) is
      an association list in insertion order, the order [Object.entries]
      walks for keys that are not array indices; a [Set] is a duplicate-free
      list in insertion order.
    - [Array.prototype.sort] is the sort of the V8 engine that runs Convex
      functions: a run is counted at the front of the array and the rest is
      added by binary insertion.
    - A mutation takes the database and returns the new one; the id that
      [ctx.db.insert] gives a new document and the time [Date.now()] are
      arguments of the handler. The collation of [localeCompare], the
      function [trim], the length of a string in UTF-16 code units and the
      search indexes of the users table are parameters. *)

From Equations Require Import Equations.
From Stdlib Require Import ZArith String List Bool Lia Permutation Sorted Arith.
From Stdlib Require Import Floats.
Import ListNotations.

Local Open Scope string_scope.
Local Open Scope list_scope.
Local Open Scope Z_scope.

Set Implicit Arguments.
Set Warnings "-inexact-float".

(** ** Results of fallible handlers *)

Inductive result (A : Type) : Type :=
| Ok (a : A)
| Throw (message : string).
Arguments Ok {A} a.
Arguments Throw {A} message.

Definition bind {A B} (r : result A) (k : A -> result B) : result B :=
  match r with
  | Ok a => k a
  | Throw m => Throw m
  end.

Notation "x <- r ;; k" := (bind r (fun x => k))
  (at level 61, r at next level, right associativity).

(** ** Array.prototype.sort *)

Definition inspect {A} (a : A) : {b : A | a = b} := exist _ a eq_refl.

Module JsArray.
Section Sort.
Context {A : Type}.
Variable comparefn : A -> A -> Z.

(** The search loop of V8's [BinaryInsertionSort], with [lo] and [hi] for
    its [left] and [right]:
    [while (left < right) { mid = left + ((right - left) >> 1);
       order = comparefn(pivot, work[mid]);
       if (order < 0) right = mid; else left = mid + 1; }] *)
Equations? binarySearch (pivot : A) (work : list A) (lo hi : nat) : nat
  by wf (hi - lo)%nat lt :=
  binarySearch pivot work lo hi with inspect (lo <? hi)%nat => {
    | exist _ false _ => lo;
    | exist _ true more
        with Z.ltb (comparefn pivot (nth (lo + (hi - lo) / 2) work pivot)) 0 => {
        | true => binarySearch pivot work lo (lo + (hi - lo) / 2);
        | false => binarySearch pivot work (S (lo + (hi - lo) / 2)) hi } }.
Proof.
  all: apply Nat.ltb_lt in more;
       change (fst (Nat.divmod (hi - lo) 1 0 1)) with ((hi - lo) / 2)%nat;
       pose proof (Nat.Div0.div_lt_upper_bound (hi - lo) 2 (hi - lo)); lia.
Qed.

(** Shifting [work[lo .. start)] one place up and storing the pivot at
    [lo]. *)
Definition insertAt (lo : nat) (pivot : A) (work : list A) : list A :=
  firstn lo work ++ pivot :: skipn lo work.

Definition binaryInsert (sorted : list A) (pivot : A) : list A :=
  insertAt (binarySearch pivot sorted 0 (length sorted)) pivot sorted.

(** The loop [for (; start < high; ++start)] of [BinaryInsertionSort], over
    the elements that follow the run. *)
Definition binaryInsertionSort (run rest : list A) : list A :=
  fold_left binaryInsert rest run.

(** [CountAndMakeRun]: the elements after [previous] that continue the run,
    and what is left of the array. A descending run is strict. *)
Fixpoint extendRun (descending : bool) (previous : A) (l : list A)
  : list A * list A :=
  match l with
  | [] => ([], [])
  | current :: tl =>
      let order := comparefn current previous in
      if (if descending then order <? 0 else 0 <=? order)
      then let (run, rest) := extendRun descending current tl in
           (current :: run, rest)
      else ([], l)
  end.

Definition countAndMakeRun (l : list A) : list A * list A :=
  match l with
  | low :: next :: tl =>
      let isDescending := comparefn next low <? 0 in
      let (run, rest) := extendRun isDescending next tl in
      let whole := low :: next :: run in
      (if isDescending then rev whole else whole, rest)
  | _ => (l, [])
  end.

(** [arr.sort(comparefn)], where [comparefn] stands for the function given
    with its result read as a number, [NaN] (from [undefined]) as 0. Arrays
    shorter than 64 elements are a single run for V8 (the minimal run length
    is the array length); longer ones are cut into such runs and merged,
    which gives the same array whenever [comparefn] is a consistent
    comparator, the sort being stable. *)
Definition sort (l : list A) : list A :=
  let (run, rest) := countAndMakeRun l in
  binaryInsertionSort run rest.
End Sort.
End JsArray.

(** ** Documents and tables *)

(** A Convex document id. *)
Definition Id := string.

Module User.
Record t := mk {
  _id : Id;
  name : string;
  tokenIdentifier : string;
  email : option string;
  imageUrl : option string }.
End User.

Module Split.
Record t := mk { userId : Id; amount : Z; paid : bool }.
End Split.

Module Expense.
Record t := mk {
  description : string;
  amount : Z;
  date : Z;
  paidByUserId : Id;
  splits : list Split.t;
  groupId : option Id }.
End Expense.

Module Settlement.
Record t := mk {
  amount : Z;
  date : Z;
  paidByUserId : Id;
  receivedByUserId : Id;
  groupId : option Id }.
End Settlement.

Module Member.
Inductive Role := admin | member.
Record t := mk { userId : Id; role : Role; joinedAt : Z }.
End Member.

Module Group.
Record t := mk {
  _id : Id;
  name : string;
  description : string;
  createdBy : Id;
  members : list Member.t }.
End Group.

(** [ctx.db]: the four tables the queries read. *)
Module Db.
Record t := mk {
  users : list User.t;
  expenses : list Expense.t;
  settlements : list Settlement.t;
  groups : list Group.t }.

(** [ctx.db.get(id)] on a user id: the document, or [null]. *)
Definition get (db : t) (id : Id) : option User.t :=
  find (fun u => User._id u =? id)%string (users db).
End Db.

(** [ctx]: the database and [ctx.auth.getUserIdentity()], which is [null]
    for a caller who is not signed in, and else carries a token identifier. *)
Module Ctx.
Record t := mk { db : Db.t; identity : option string }.
End Ctx.

(** [users.js], [getCurrentUser]. *)
Definition getCurrentUser (ctx : Ctx.t) : result User.t :=
  match Ctx.identity ctx with
  | None => Throw "Not authenticated"
  | Some tokenIdentifier =>
      match find (fun u => User.tokenIdentifier u =? tokenIdentifier)%string
                 (Db.users (Ctx.db ctx)) with
      | None => Throw "User not found"
      | Some user => Ok user
      end
  end.

(** A query whose handler starts with
    [const user = await ctx.runQuery(internal.users.getCurrentUser)] and then
    only reads [ctx.db]. *)
Definition query {A} (handler : Db.t -> User.t -> A) (ctx : Ctx.t) : result A :=
  user <- getCurrentUser ctx ;;
  Ok (handler (Ctx.db ctx) user).

(** [!doc.groupId]: the record is a 1-to-1 record. The field is falsy when
    it is [undefined], and when it is the empty string, which no id is. *)
Definition noGroup (groupId : option Id) : bool :=
  match groupId with
  | None => true
  | Some g => (g =? "")%string
  end.

(** [q.eq("groupId", undefined)]: the field is not set. *)
Definition isUndefined (groupId : option Id) : bool :=
  match groupId with
  | None => true
  | Some _ => false
  end.

(** [groupId === id], for a field that may be [undefined]. *)
Definition inGroup (groupId : option Id) (id : Id) : bool :=
  match groupId with
  | None => false
  | Some g => (g =? id)%string
  end.

(** [e.splits.some((s) => s.userId === id)] *)
Definition hasSplit (id : Id) (e : Expense.t) : bool :=
  existsb (fun s => Split.userId s =? id)%string (Expense.splits e).

(** [e.splits.find((s) => s.userId === id)] *)
Definition findSplit (id : Id) (e : Expense.t) : option Split.t :=
  find (fun s => Split.userId s =? id)%string (Expense.splits e).

(** ** getUserBalances

    The handler in exact arithmetic; [Double.getUserBalances] is the same
    code on doubles. *)

Module Tally.
Record t := mk { owed : Z; owing : Z }.
Definition zero : t := mk 0 0.
Definition addOwed (a : Z) (x : t) : t := mk (owed x + a) (owing x).
Definition addOwing (a : Z) (x : t) : t := mk (owed x) (owing x + a).
Definition net (x : t) : Z := owed x - owing x.
End Tally.

(** The object [balanceByUser], its keys in insertion order. *)
Definition BalanceMap := list (Id * Tally.t).

Fixpoint lookup (uid : Id) (m : BalanceMap) : option Tally.t :=
  match m with
  | [] => None
  | (k, x) :: m' => if (k =? uid)%string then Some x else lookup uid m'
  end.

(** [(balanceByUser[uid] ??= { owed: 0, owing: 0 })] followed by an update
    [f] of the tally: an absent key is added at the end. *)
Fixpoint upsert (uid : Id) (f : Tally.t -> Tally.t) (m : BalanceMap) : BalanceMap :=
  match m with
  | [] => [(uid, f Tally.zero)]
  | (k, x) :: m' =>
      if (k =? uid)%string then (k, f x) :: m' else (k, x) :: upsert uid f m'
  end.

(** The three variables the loops of the handler update. *)
Module Ledger.
Record t := mk { youOwe : Z; youAreOwed : Z; balanceByUser : BalanceMap }.
Definition init : t := mk 0 0 [].
End Ledger.

Module OweEntry.
Record t := mk {
  userId : Id;
  name : string;
  imageUrl : option string;
  amount : Z }.
End OweEntry.

Module OweDetails.
Record t := mk { youOwe : list OweEntry.t; youAreOwedBy : list OweEntry.t }.
End OweDetails.

Module Balances.
Record t := mk {
  youOwe : Z;
  youAreOwed : Z;
  totalBalance : Z;
  oweDetails : OweDetails.t }.
End Balances.

Section GetUserBalances.
Variable db : Db.t.
Variable user : User.t.

(** The 1-to-1 expenses the user paid or has a split in. *)
Definition involvedExpenses : list Expense.t :=
  filter (fun e => noGroup (Expense.groupId e)
                   && ((Expense.paidByUserId e =? User._id user)%string
                       || hasSplit (User._id user) e))
         (Db.expenses db).

(** The body of [for (const s of e.splits)] when the user is the payer, in
    exact arithmetic; [Double.creditSplit] is the body on doubles, and the
    two agree on whole amounts ([creditSplit_exact]). *)
Definition creditSplit (st : Ledger.t) (s : Split.t) : Ledger.t :=
  if (Split.userId s =? User._id user)%string || Split.paid s then st
  else Ledger.mk (Ledger.youOwe st)
                 (Ledger.youAreOwed st + Split.amount s)
                 (upsert (Split.userId s) (Tally.addOwed (Split.amount s))
                         (Ledger.balanceByUser st)).

(** The body of [for (const e of expenses)], in exact arithmetic;
    [Double.expenseStep] is the body on doubles ([expenseStep_exact]). *)
Definition expenseStep (st : Ledger.t) (e : Expense.t) : Ledger.t :=
  let isPayer := (Expense.paidByUserId e =? User._id user)%string in
  let mySplit := findSplit (User._id user) e in
  if isPayer then fold_left creditSplit (Expense.splits e) st
  else match mySplit with
       | Some mine =>
           if negb (Split.paid mine)
           then Ledger.mk (Ledger.youOwe st + Split.amount mine)
                          (Ledger.youAreOwed st)
                          (upsert (Expense.paidByUserId e)
                                  (Tally.addOwing (Split.amount mine))
                                  (Ledger.balanceByUser st))
           else st
       | None => st
       end.

(** The 1-to-1 settlements the user paid or received. *)
Definition involvedSettlements : list Settlement.t :=
  filter (fun s => noGroup (Settlement.groupId s)
                   && ((Settlement.paidByUserId s =? User._id user)%string
                       || (Settlement.receivedByUserId s =? User._id user)%string))
         (Db.settlements db).

(** The body of [for (const s of settlements)], in exact arithmetic;
    [Double.settlementStep] is the body on doubles
    ([settlementStep_exact]). *)
Definition settlementStep (st : Ledger.t) (s : Settlement.t) : Ledger.t :=
  if (Settlement.paidByUserId s =? User._id user)%string
  then Ledger.mk (Ledger.youOwe st - Settlement.amount s)
                 (Ledger.youAreOwed st)
                 (upsert (Settlement.receivedByUserId s)
                         (Tally.addOwing (- Settlement.amount s))
                         (Ledger.balanceByUser st))
  else Ledger.mk (Ledger.youOwe st)
                 (Ledger.youAreOwed st - Settlement.amount s)
                 (upsert (Settlement.paidByUserId s)
                         (Tally.addOwed (- Settlement.amount s))
                         (Ledger.balanceByUser st)).

(** The ledger after the loop over the expenses. *)
Definition expenseLedger : Ledger.t :=
  fold_left expenseStep involvedExpenses Ledger.init.

(** The ledger after both loops. *)
Definition ledger : Ledger.t :=
  fold_left settlementStep involvedSettlements expenseLedger.

(** The object [base] built for a counterpart of non-zero net. *)
Definition oweEntry (uid : Id) (net : Z) : OweEntry.t :=
  let counterpart := Db.get db uid in
  OweEntry.mk uid
              (match counterpart with
               | Some c => User.name c
               | None => "Unknown"
               end)
              (match counterpart with
               | Some c => User.imageUrl c
               | None => None
               end)
              (Z.abs net).

(** The body of [for (const [uid, { owed, owing }] of
    Object.entries(balanceByUser))], on the pair of lists
    [(youOweList, youAreOwedByList)]. *)
Definition listStep (lists : list OweEntry.t * list OweEntry.t)
           (entry : Id * Tally.t) : list OweEntry.t * list OweEntry.t :=
  let (uid, tally) := entry in
  let net := Tally.owed tally - Tally.owing tally in
  if net =? 0 then lists
  else let base := oweEntry uid net in
       if 0 <? net then (fst lists, snd lists ++ [base])
       else (fst lists ++ [base], snd lists).

(** [(a, b) => b.amount - a.amount] *)
Definition byAmountDescending (a b : OweEntry.t) : Z :=
  OweEntry.amount b - OweEntry.amount a.

Definition getUserBalances : Balances.t :=
  let st := ledger in
  let lists := fold_left listStep (Ledger.balanceByUser st) ([], []) in
  let youOweList := JsArray.sort byAmountDescending (fst lists) in
  let youAreOwedByList := JsArray.sort byAmountDescending (snd lists) in
  Balances.mk (Ledger.youOwe st)
              (Ledger.youAreOwed st)
              (Ledger.youAreOwed st - Ledger.youOwe st)
              (OweDetails.mk youOweList youAreOwedByList).
End GetUserBalances.

(** ** Dates *)

(** [Date] in the time zone of the Convex runtime, UTC: time values are
    milliseconds since the epoch, taken within the range a [Date] holds, and
    the calendar is the proleptic Gregorian one, computed per era of 400
    years (146097 days) counted from March. *)
Module JsDate.
Definition msPerDay : Z := 86400000.

(** Days from the epoch to the given day; [m] runs from 1 to 12. *)
Definition daysFromCivil (y m d : Z) : Z :=
  let y' := if m <=? 2 then y - 1 else y in
  let era := y' / 400 in
  let yoe := y' - era * 400 in
  let mp := if 2 <? m then m - 3 else m + 9 in
  let doy := (153 * mp + 2) / 5 + d - 1 in
  let doe := yoe * 365 + yoe / 4 - yoe / 100 + doy in
  era * 146097 + doe - 719468.

(** The year and the month (1 to 12) a day number falls in. *)
Definition civilFromDays (z : Z) : Z * Z :=
  let z' := z + 719468 in
  let era := z' / 146097 in
  let doe := z' - era * 146097 in
  let yoe := (doe - doe / 1460 + doe / 36524 - doe / 146096) / 365 in
  let doy := doe - (365 * yoe + yoe / 4 - yoe / 100) in
  let mp := (5 * doy + 2) / 153 in
  let m := if mp <? 10 then mp + 3 else mp - 9 in
  (if m <=? 2 then yoe + era * 400 + 1 else yoe + era * 400, m).

(** [new Date(t).getFullYear()] *)
Definition getFullYear (t : Z) : Z := fst (civilFromDays (t / msPerDay)).

(** [new Date(t).getMonth()], from 0 to 11. *)
Definition getMonth (t : Z) : Z := snd (civilFromDays (t / msPerDay)) - 1.

(** [new Date(year, monthIndex, 1).getTime()]: a year from 0 to 99 stands
    for 1900 + year, and a month index outside 0..11 carries into the year. *)
Definition firstOfMonth (year monthIndex : Z) : Z :=
  let yr := if (0 <=? year) && (year <=? 99) then 1900 + year else year in
  daysFromCivil (yr + monthIndex / 12) (monthIndex mod 12 + 1) 1 * msPerDay.

(** [new Date(year, 0, 1).getTime()] with [year = new Date().getFullYear()] *)
Definition startOfYear (now : Z) : Z := firstOfMonth (getFullYear now) 0.

(** [new Date(d.getFullYear(), d.getMonth(), 1).getTime()] for
    [d = new Date(t)] *)
Definition monthStart (t : Z) : Z := firstOfMonth (getFullYear t) (getMonth t).
End JsDate.

(** ** getTotalSpent and getMonthlySpending

    The handlers in exact arithmetic; [Double.getTotalSpent] and
    [Double.getMonthlySpending] are the same code on doubles. *)

(** The index [by_date] lists expenses by date and, for equal dates, by
    creation time. *)
Fixpoint insertByDate (e : Expense.t) (index : list Expense.t) : list Expense.t :=
  match index with
  | [] => [e]
  | x :: tl =>
      if Expense.date e <? Expense.date x then e :: index
      else x :: insertByDate e tl
  end.

Definition byDate (table : list Expense.t) : list Expense.t :=
  fold_left (fun index e => insertByDate e index) table [].

(** The object [monthlyTotals], its keys in insertion order. The handler
    sorts the entries by key before it returns them, and a key occurs once,
    so the order in which [Object.entries] yields them does not show in the
    result. *)
Definition MonthlyTotals := list (Z * Z).

Fixpoint getTotal (month : Z) (m : MonthlyTotals) : option Z :=
  match m with
  | [] => None
  | (k, v) :: m' => if k =? month then Some v else getTotal month m'
  end.

(** [monthlyTotals[month] = total] *)
Fixpoint setTotal (month total : Z) (m : MonthlyTotals) : MonthlyTotals :=
  match m with
  | [] => [(month, total)]
  | (k, v) :: m' =>
      if k =? month then (k, total) :: m' else (k, v) :: setTotal month total m'
  end.

Module MonthEntry.
Record t := mk { month : Z; total : Z }.
End MonthEntry.

Section Spending.
Variable db : Db.t.
Variable user : User.t.
(** The time value of [new Date()]. *)
Variable now : Z.

(** [ctx.db.query("expenses").withIndex("by_date",
      (q) => q.gte("date", startOfYear)).collect()], then the filter on
    the user being the payer or having a split. *)
Definition userExpenses : list Expense.t :=
  filter (fun expense => (Expense.paidByUserId expense =? User._id user)%string
                         || hasSplit (User._id user) expense)
         (filter (fun expense => JsDate.startOfYear now <=? Expense.date expense)
                 (byDate (Db.expenses db))).

(** [totalSpent += userSplit.amount] over [userExpenses], in exact
    arithmetic; [Double.getTotalSpent] is the handler on doubles
    ([getTotalSpent_exact]). *)
Definition getTotalSpent : Z :=
  fold_left (fun totalSpent expense =>
               match findSplit (User._id user) expense with
               | Some userSplit => totalSpent + Split.amount userSplit
               | None => totalSpent
               end)
            userExpenses 0.

(** [for (let i = 0; i < 12; i++)
      monthlyTotals[new Date(currentYear, i, 1).getTime()] = 0] *)
Definition initialTotals : MonthlyTotals :=
  fold_left (fun monthlyTotals i =>
               setTotal (JsDate.firstOfMonth (JsDate.getFullYear now) i) 0
                        monthlyTotals)
            (map Z.of_nat (seq 0 12)) [].

(** The body of [userExpenses.forEach], in exact arithmetic; [x || 0] is 0
    for an absent key. [Double.addToMonth] is the body on doubles
    ([addToMonth_exact]). *)
Definition addToMonth (monthlyTotals : MonthlyTotals) (expense : Expense.t)
  : MonthlyTotals :=
  let monthStart := JsDate.monthStart (Expense.date expense) in
  match findSplit (User._id user) expense with
  | Some userSplit =>
      setTotal monthStart
               (match getTotal monthStart monthlyTotals with
                | Some total => total
                | None => 0
                end + Split.amount userSplit)
               monthlyTotals
  | None => monthlyTotals
  end.

(** [(a, b) => a.month - b.month] *)
Definition byMonth (a b : MonthEntry.t) : Z :=
  MonthEntry.month a - MonthEntry.month b.

Definition getMonthlySpending : list MonthEntry.t :=
  let monthlyTotals := fold_left addToMonth userExpenses initialTotals in
  let result := map (fun entry => MonthEntry.mk (fst entry) (snd entry))
                    monthlyTotals in
  JsArray.sort byMonth result.
End Spending.

(** ** getUserGroups

    The handler in exact arithmetic; [Double.getUserGroups] is the same code
    on doubles. *)

Module EnhancedGroup.
(** [{ ...group, id: group._id, balance }] *)
Record t := mk { group : Group.t; id : Id; balance : Z }.
End EnhancedGroup.

(** [group.members.some((member) => member.userId === id)] *)
Definition isMember (id : Id) (group : Group.t) : bool :=
  existsb (fun member => Member.userId member =? id)%string (Group.members group).

Section GetUserGroups.
Variable db : Db.t.
Variable user : User.t.

(** The body of [expenses.forEach], on [balance], in exact arithmetic;
    [Double.groupExpenseStep] is the body on doubles
    ([groupExpenseStep_exact]). *)
Definition groupExpenseStep (balance : Z) (expense : Expense.t) : Z :=
  if (Expense.paidByUserId expense =? User._id user)%string
  then fold_left (fun balance split =>
                    if negb (Split.userId split =? User._id user)%string
                       && negb (Split.paid split)
                    then balance + Split.amount split
                    else balance)
                 (Expense.splits expense) balance
  else match findSplit (User._id user) expense with
       | Some userSplit =>
           if negb (Split.paid userSplit)
           then balance - Split.amount userSplit
           else balance
       | None => balance
       end.

(** The body of [settlements.forEach], on [balance], in exact arithmetic;
    [Double.groupSettlementStep] is the body on doubles
    ([groupSettlementStep_exact]). *)
Definition groupSettlementStep (balance : Z) (settlement : Settlement.t) : Z :=
  if (Settlement.paidByUserId settlement =? User._id user)%string
  then balance + Settlement.amount settlement
  else balance - Settlement.amount settlement.

Definition groupBalance (group : Group.t) : Z :=
  let expenses :=
    filter (fun e => inGroup (Expense.groupId e) (Group._id group))
           (Db.expenses db) in
  let balance := fold_left groupExpenseStep expenses 0 in
  let settlements :=
    filter (fun s => inGroup (Settlement.groupId s) (Group._id group)
                     && ((Settlement.paidByUserId s =? User._id user)%string
                         || (Settlement.receivedByUserId s =? User._id user)%string))
           (Db.settlements db) in
  fold_left groupSettlementStep settlements balance.

Definition getUserGroups : list EnhancedGroup.t :=
  map (fun group => EnhancedGroup.mk group (Group._id group) (groupBalance group))
      (filter (isMember (User._id user)) (Db.groups db)).
End GetUserGroups.

(** ** getAllContacts *)

Module ContactUser.
Record t := mk {
  id : Id;
  name : string;
  email : option string;
  imageUrl : option string;
  type : string }.
End ContactUser.

Module ContactGroup.
Record t := mk {
  id : Id;
  name : string;
  description : string;
  memberCount : nat;
  type : string }.
End ContactGroup.

Module Contacts.
Record t := mk { users : list ContactUser.t; groups : list ContactGroup.t }.
End Contacts.

(** [contactIds.add(id)] on a [Set] kept in insertion order. *)
Definition setAdd (id : Id) (ids : list Id) : list Id :=
  if existsb (String.eqb id) ids then ids else ids ++ [id].

Section GetAllContacts.
(** [a.localeCompare(b)], the collation of the runtime. *)
Variable localeCompare : string -> string -> Z.
Variable db : Db.t.
Variable currentUser : User.t.

Definition expensesYouPaid : list Expense.t :=
  filter (fun e => (Expense.paidByUserId e =? User._id currentUser)%string
                   && isUndefined (Expense.groupId e))
         (Db.expenses db).

Definition expensesNotPaidByYou : list Expense.t :=
  filter (fun e => negb (Expense.paidByUserId e =? User._id currentUser)%string
                   && hasSplit (User._id currentUser) e)
         (filter (fun e => isUndefined (Expense.groupId e)) (Db.expenses db)).

Definition personalExpenses : list Expense.t :=
  expensesYouPaid ++ expensesNotPaidByYou.

(** The body of [personalExpenses.forEach], on the set [contactIds]. *)
Definition collectIds (contactIds : list Id) (exp : Expense.t) : list Id :=
  let withPayer :=
    if negb (Expense.paidByUserId exp =? User._id currentUser)%string
    then setAdd (Expense.paidByUserId exp) contactIds
    else contactIds in
  fold_left (fun ids s =>
               if negb (Split.userId s =? User._id currentUser)%string
               then setAdd (Split.userId s) ids
               else ids)
            (Expense.splits exp) withPayer.

Definition contactIds : list Id := fold_left collectIds personalExpenses [].

(** One element of [contactUsers]: the projected document, or [null]. *)
Definition fetchContact (id : Id) : option ContactUser.t :=
  match Db.get db id with
  | Some u => Some (ContactUser.mk (User._id u) (User.name u) (User.email u)
                                   (User.imageUrl u) "user")
  | None => None
  end.

Definition userGroups : list ContactGroup.t :=
  map (fun g => ContactGroup.mk (Group._id g) (Group.name g) (Group.description g)
                                (length (Group.members g)) "group")
      (filter (isMember (User._id currentUser)) (Db.groups db)).

(** [(a, b) => a?.name.localeCompare(b?.name)]: for [a] null the optional
    chain yields [undefined], which the sort reads as 0; for [b] null the
    argument [undefined] is compared as the string "undefined". *)
Definition compareContacts (a b : option ContactUser.t) : Z :=
  match a with
  | None => 0
  | Some a' =>
      localeCompare (ContactUser.name a')
                    (match b with
                     | Some b' => ContactUser.name b'
                     | None => "undefined"
                     end)
  end.

(** [(a, b) => a.name.localeCompare(b.name)] *)
Definition compareGroups (a b : ContactGroup.t) : Z :=
  localeCompare (ContactGroup.name a) (ContactGroup.name b).

(** [contactUsers.filter(Boolean)] *)
Fixpoint filterBoolean (l : list (option ContactUser.t)) : list ContactUser.t :=
  match l with
  | [] => []
  | Some c :: tl => c :: filterBoolean tl
  | None :: tl => filterBoolean tl
  end.

Definition getAllContacts : Contacts.t :=
  let contactUsers := JsArray.sort compareContacts (map fetchContact contactIds) in
  let sortedGroups := JsArray.sort compareGroups userGroups in
  Contacts.mk (filterBoolean contactUsers) sortedGroups.
End GetAllContacts.

(** The exported queries: each handler runs after [getCurrentUser]. *)
Module Query.
Definition getAllContacts (localeCompare : string -> string -> Z) :=
  query (getAllContacts localeCompare).
Definition getUserBalances := query getUserBalances.
Definition getTotalSpent (now : Z) := query (fun db user => getTotalSpent db user now).
Definition getMonthlySpending (now : Z) :=
  query (fun db user => getMonthlySpending db user now).
Definition getUserGroups := query getUserGroups.
End Query.

(** ** Mutations *)

(** A mutation returns a value and leaves the database in a new state, or
    throws and leaves it as it was. *)
Definition mutation {A} (handler : Db.t -> User.t -> result (A * Db.t)) (ctx : Ctx.t)
  : result (A * Db.t) :=
  user <- getCurrentUser ctx ;;
  handler (Ctx.db ctx) user.

(** ** users.js: store *)

(** What [ctx.auth.getUserIdentity()] yields for a signed-in caller. *)
Module Identity.
Record t := mk {
  tokenIdentifier : string;
  name : option string;
  email : option string;
  pictureUrl : option string }.
End Identity.

(** [.unique()]: the only document of the range, [null] when there is none;
    it throws when there are several. *)
Definition unique (range : list User.t) : result (option User.t) :=
  match range with
  | [] => Ok None
  | [user] => Ok (Some user)
  | _ => Throw "unique() query returned more than one result"
  end.

(** [user.name !== identity.name] *)
Definition nameChanged (user : User.t) (identity : Identity.t) : bool :=
  match Identity.name identity with
  | Some name => negb (User.name user =? name)%string
  | None => true
  end.

(** Modelled from the spec: the validator of the users table, whose schema is
    not among the files. A user record has a display name, so a patch that
    would unset the field is refused. *)
Definition validName (name : option string) : result string :=
  match name with
  | Some name => Ok name
  | None => Throw "Object is missing the required field name"
  end.

(** [ctx.db.patch(id, { name })]: the document of that id gets the name. *)
Fixpoint patchName (id : Id) (name : string) (users : list User.t) : list User.t :=
  match users with
  | [] => []
  | u :: tl =>
      if (User._id u =? id)%string
      then User.mk (User._id u) name (User.tokenIdentifier u) (User.email u)
                   (User.imageUrl u) :: tl
      else u :: patchName id name tl
  end.

Definition withUsers (db : Db.t) (users : list User.t) : Db.t :=
  Db.mk users (Db.expenses db) (Db.settlements db) (Db.groups db).

(** The handler of [store]; [newId] is the id [ctx.db.insert] gives the new
    document. *)
Definition store (db : Db.t) (identity : option Identity.t) (newId : Id)
  : result (Id * Db.t) :=
  match identity with
  | None => Throw "Called storeUser without authentication present"
  | Some identity =>
      user <- unique (filter (fun u => User.tokenIdentifier u
                                       =? Identity.tokenIdentifier identity)%string
                             (Db.users db)) ;;
      match user with
      | Some user =>
          if nameChanged user identity
          then name <- validName (Identity.name identity) ;;
               Ok (User._id user,
                   withUsers db (patchName (User._id user) name (Db.users db)))
          else Ok (User._id user, db)
      | None =>
          Ok (newId,
              withUsers db
                (Db.users db
                 ++ [User.mk newId
                             (match Identity.name identity with
                              | Some name => name
                              | None => "Anonymous"
                              end)
                             (Identity.tokenIdentifier identity)
                             (Identity.email identity)
                             (Identity.pictureUrl identity)]))
      end
  end.

(** ** users.js: searchUsers *)

Module SearchHit.
Record t := mk {
  id : Id;
  name : string;
  email : option string;
  imageUrl : option string }.
End SearchHit.

Section SearchUsers.
(** The search indexes [search_name] and [search_email]: the documents of the
    users table that [q.search("name", text)] and [q.search("email", text)]
    select, in the order of relevance the database gives them. *)
Variable searchName : Db.t -> string -> list User.t.
Variable searchEmail : Db.t -> string -> list User.t.
(** [s.length]: the number of UTF-16 code units of the string. *)
Variable codeUnits : string -> nat.
Variable db : Db.t.
Variable currentUser : User.t.

Definition searchUsers (text : string) : list SearchHit.t :=
  if (codeUnits text <? 2)%nat then []
  else
    let nameResults := searchName db text in
    let emailResults := searchEmail db text in
    let users :=
      nameResults
      ++ filter (fun email =>
                   negb (existsb (fun name => User._id name =? User._id email)%string
                                 nameResults))
                emailResults in
    map (fun user => SearchHit.mk (User._id user) (User.name user) (User.email user)
                                  (User.imageUrl user))
        (filter (fun user => negb (User._id user =? User._id currentUser)%string) users).
End SearchUsers.

(** ** contacts.js: createGroup *)

Module GroupArgs.
Record t := mk {
  name : string;
  description : option string;
  members : list Id }.
End GroupArgs.

Section CreateGroup.
(** [String.prototype.trim] *)
Variable trim : string -> string.
Variable db : Db.t.
Variable currentUser : User.t.

(** [new Set(args.members)] with the creator added. *)
Definition uniqueMembers (args : GroupArgs.t) : list Id :=
  setAdd (User._id currentUser)
         (fold_left (fun set id => setAdd id set) (GroupArgs.members args) []).

(** The loop [for (const id of uniqueMembers)]: the first id that resolves
    to no user stops it. *)
Fixpoint validateMembers (ids : list Id) : result unit :=
  match ids with
  | [] => Ok tt
  | id :: tl =>
      match Db.get db id with
      | Some _ => validateMembers tl
      | None => Throw ("User with ID " ++ id ++ " not found")
      end
  end.

(** The document inserted; [now] is [Date.now()], which Convex holds fixed
    for the run of a mutation. *)
Definition newGroup (args : GroupArgs.t) (now : Z) (newId : Id) : Group.t :=
  Group.mk newId
           (trim (GroupArgs.name args))
           (match GroupArgs.description args with
            | Some description => trim description
            | None => ""
            end)
           (User._id currentUser)
           (map (fun id => Member.mk id
                                     (if (id =? User._id currentUser)%string
                                      then Member.admin else Member.member)
                                     now)
                (uniqueMembers args)).

(** The handler of [createGroup], after [getCurrentUser]; [newId] is the id
    [ctx.db.insert] gives the new document. *)
Definition createGroup (args : GroupArgs.t) (now : Z) (newId : Id)
  : result (Id * Db.t) :=
  if (trim (GroupArgs.name args) =? "")%string
  then Throw "Group name cannot be empty"
  else
    _ <- validateMembers (uniqueMembers args) ;;
    Ok (newId,
        Db.mk (Db.users db) (Db.expenses db) (Db.settlements db)
              (Db.groups db ++ [newGroup args now newId])).
End CreateGroup.

(** The exported mutations. *)
Module Mutation.
Definition createGroup (trim : string -> string) (args : GroupArgs.t) (now : Z)
           (newId : Id) (ctx : Ctx.t) : result (Id * Db.t) :=
  mutation (fun db user => createGroup trim db user args now newId) ctx.
End Mutation.

(** ** Vocabulary of the properties *)

Definition sumOwed (m : BalanceMap) : Z :=
  fold_right (fun entry acc => Tally.owed (snd entry) + acc) 0 m.

Definition sumOwing (m : BalanceMap) : Z :=
  fold_right (fun entry acc => Tally.owing (snd entry) + acc) 0 m.

(** The tally [balanceByUser[uid]] stands for, an absent key counting as the
    fresh tally. *)
Definition tallyOf (uid : Id) (m : BalanceMap) : Tally.t :=
  match lookup uid m with
  | Some x => x
  | None => Tally.zero
  end.

(** What the two loops of [getUserBalances] maintain: the totals are the sums
    of the tallies, and each key is held once. *)
Record ledgerInv (st : Ledger.t) : Prop := {
  inv_owed : Ledger.youAreOwed st = sumOwed (Ledger.balanceByUser st);
  inv_owing : Ledger.youOwe st = sumOwing (Ledger.balanceByUser st);
  inv_keys : NoDup (map fst (Ledger.balanceByUser st)) }.

(** The entries of [balanceByUser] that go to each output list, and the
    object pushed for one. *)
Definition owesUser (entry : Id * Tally.t) : bool := 0 <? Tally.net (snd entry).
Definition userOwes (entry : Id * Tally.t) : bool := Tally.net (snd entry) <? 0.
Definition entryOf (db : Db.t) (entry : Id * Tally.t) : OweEntry.t :=
  oweEntry db (fst entry) (Tally.net (snd entry)).

Definition sumAmounts (l : list OweEntry.t) : Z :=
  fold_right (fun entry acc => OweEntry.amount entry + acc) 0 l.

(** [sumOf f l]: the sum of [f] over the list. *)
Definition sumOf {X} (f : X -> Z) (l : list X) : Z :=
  fold_right (fun x acc => f x + acc) 0 l.

(** What the settlements the user paid sum to. *)
Definition paidByUser (user : User.t) (s : Settlement.t) : Z :=
  if (Settlement.paidByUserId s =? User._id user)%string
  then Settlement.amount s else 0.

(** The record set with one more settlement, the newest of its table. *)
Definition addSettlement (db : Db.t) (s : Settlement.t) : Db.t :=
  Db.mk (Db.users db) (Db.expenses db) (Db.settlements db ++ [s]) (Db.groups db).

(** What the records say between the user and the counterparty [uid], each
    amount taken in the order the handler reads the records. [owedBy]: the
    unpaid splits of [uid] in the 1-to-1 expenses the user paid, less the
    1-to-1 settlements [uid] paid the user. [owingTo]: the user's own unpaid
    split in the 1-to-1 expenses [uid] paid, less the 1-to-1 settlements the
    user paid [uid]. *)
Definition owedBy (db : Db.t) (user : User.t) (uid : Id) : Z :=
  let credits :=
    filter (fun s => (Split.userId s =? uid)%string && negb (Split.paid s))
           (flat_map Expense.splits
                     (filter (fun e => noGroup (Expense.groupId e)
                                       && (Expense.paidByUserId e =? User._id user)%string)
                             (Db.expenses db))) in
  let repaid :=
    filter (fun s => noGroup (Settlement.groupId s)
                     && (Settlement.paidByUserId s =? uid)%string
                     && (Settlement.receivedByUserId s =? User._id user)%string)
           (Db.settlements db) in
  fold_left (fun owed s => owed - Settlement.amount s) repaid
            (fold_left (fun owed s => owed + Split.amount s) credits 0).

Definition owingTo (db : Db.t) (user : User.t) (uid : Id) : Z :=
  let debts :=
    filter (fun e => noGroup (Expense.groupId e)
                     && (Expense.paidByUserId e =? uid)%string)
           (Db.expenses db) in
  let repaid :=
    filter (fun s => noGroup (Settlement.groupId s)
                     && (Settlement.paidByUserId s =? User._id user)%string
                     && (Settlement.receivedByUserId s =? uid)%string)
           (Db.settlements db) in
  fold_left (fun owing s => owing - Settlement.amount s) repaid
            (fold_left (fun owing e =>
                          match findSplit (User._id user) e with
                          | Some mine =>
                              if Split.paid mine then owing
                              else owing + Split.amount mine
                          | None => owing
                          end)
                       debts 0).






(** No two entries of [ids] are the same id. *)
Fixpoint distinctIds (ids : list Id) : bool :=
  match ids with
  | [] => true
  | id :: tl => negb (existsb (String.eqb id) tl) && distinctIds tl
  end.



(** A consistent comparator in the sense of ECMAScript: a total preorder
    told by the sign of the number returned. *)
Definition consistent {X} (comparefn : X -> X -> Z) : Prop :=
  (forall a b, comparefn a b < 0 <-> 0 < comparefn b a)
  /\ (forall a b c, comparefn a b <= 0 -> comparefn b c <= 0 -> comparefn a c <= 0).

(** The array is in the order of the comparator: no element is to come
    after a later one. *)
Definition ascending {X} (comparefn : X -> X -> Z) (l : list X) : Prop :=
  StronglySorted (fun a b => comparefn a b <= 0) l.


(** *** The group balance in the words of the specification *)

(** The expenses and the settlements of a group. *)
Definition groupExpenses (db : Db.t) (group : Group.t) : list Expense.t :=
  filter (fun e => inGroup (Expense.groupId e) (Group._id group)) (Db.expenses db).

Definition groupSettlements (db : Db.t) (group : Group.t) : list Settlement.t :=
  filter (fun s => inGroup (Settlement.groupId s) (Group._id group)) (Db.settlements db).

(** The unpaid split amounts of the other members. *)
Definition otherUnpaid (user : User.t) (e : Expense.t) : Z :=
  sumOf Split.amount
        (filter (fun s => negb (Split.userId s =? User._id user)%string
                          && negb (Split.paid s))
                (Expense.splits e)).

(** The subject's own split amount, when it is unpaid. *)
Definition ownUnpaid (user : User.t) (e : Expense.t) : Z :=
  match findSplit (User._id user) e with
  | Some own => if Split.paid own then 0 else Split.amount own
  | None => 0
  end.

Definition groupShare (user : User.t) (e : Expense.t) : Z :=
  if (Expense.paidByUserId e =? User._id user)%string
  then otherUnpaid user e
  else - ownUnpaid user e.

(** Shares, plus the settlements the subject paid, minus the settlements the
    subject received. *)
Definition statedGroupBalance (db : Db.t) (user : User.t) (group : Group.t) : Z :=
  sumOf (groupShare user) (groupExpenses db group)
  + sumOf Settlement.amount
          (filter (fun s => (Settlement.paidByUserId s =? User._id user)%string)
                  (groupSettlements db group))
  - sumOf Settlement.amount
          (filter (fun s => (Settlement.receivedByUserId s =? User._id user)%string)
                  (groupSettlements db group)).


(** The subject's personal share of an expense: the amount of the split
    found for the subject. *)
Definition personalShare (user : User.t) (e : Expense.t) : Z :=
  match findSplit (User._id user) e with
  | Some userSplit => Split.amount userSplit
  | None => 0
  end.

(** A collation to run the samples with: strings compared by character
    code, which is how the runtime orders names written in lower-case
    letters of the basic Latin alphabet. *)
Definition codeUnitCompare (a b : string) : Z :=
  match String.compare a b with
  | Lt => -1
  | Eq => 0
  | Gt => 1
  end.

(** The first-of-month timestamps of the current year, January first. *)
Definition monthsOfYear (now : Z) : list Z :=
  map (JsDate.firstOfMonth (JsDate.getFullYear now)) (map Z.of_nat (seq 0 12)).



(** The object [monthlyTotals] when the handler turns it into an array. *)
Definition finalTotals (db : Db.t) (user : User.t) (now : Z) : MonthlyTotals :=
  fold_left (addToMonth user) (userExpenses db user now) (initialTotals now).

(** [(a, b) => a.name.localeCompare(b.name)] on contacts that are not null. *)
Definition compareUsers (localeCompare : string -> string -> Z)
           (a b : ContactUser.t) : Z :=
  localeCompare (ContactUser.name a) (ContactUser.name b).

(** The record set with one more expense, the newest of its table. *)
Definition addExpense (db : Db.t) (e : Expense.t) : Db.t :=
  Db.mk (Db.users db) (Db.expenses db ++ [e]) (Db.settlements db) (Db.groups db).

(** The user ids an expense names: its payer and the participants of its
    splits. *)
Definition participants (e : Expense.t) : list Id :=
  Expense.paidByUserId e :: map Split.userId (Expense.splits e).

(** The user document under another name. *)
Definition withName (user : User.t) (name : string) : User.t :=
  User.mk (User._id user) name (User.tokenIdentifier user) (User.email user)
          (User.imageUrl user).

(** The user document [store] makes of an identity. *)
Definition newUser (identity : Identity.t) (id : Id) : User.t :=
  User.mk id
          (match Identity.name identity with
           | Some name => name
           | None => "Anonymous"
           end)
          (Identity.tokenIdentifier identity)
          (Identity.email identity)
          (Identity.pictureUrl identity).

(** The user documents that carry the token identifier. *)
Definition withToken (token : string) (users : list User.t) : list User.t :=
  filter (fun u => User.tokenIdentifier u =? token)%string users.

(** The document of the user id exists. *)
Definition resolves (db : Db.t) (id : Id) : bool :=
  match Db.get db id with
  | Some _ => true
  | None => false
  end.

(** One id put in the set of contacts, unless it is the user's own. *)
Definition addOther (user : User.t) (ids : list Id) (id : Id) : list Id :=
  if negb (id =? User._id user)%string then setAdd id ids else ids.

(** The 1-to-1 expenses of the table that involve the user. *)
Definition personalExpense (user : User.t) (e : Expense.t) : bool :=
  isUndefined (Expense.groupId e)
  && ((Expense.paidByUserId e =? User._id user)%string || hasSplit (User._id user) e).


(** No record of the database refers to the group id. *)
Definition freshGroupId (db : Db.t) (id : Id) : bool :=
  forallb (fun e => negb (inGroup (Expense.groupId e) id)) (Db.expenses db)
  && forallb (fun s => negb (inGroup (Settlement.groupId s) id)) (Db.settlements db).

(** White space of the basic Latin alphabet: tab, line feed, vertical tab,
    form feed, carriage return and space. *)
Definition isSpace (c : Ascii.ascii) : bool :=
  let n := Ascii.nat_of_ascii c in
  ((9 <=? n) && (n <=? 13))%nat || (n =? 32)%nat.

Fixpoint dropSpaces (l : list Ascii.ascii) : list Ascii.ascii :=
  match l with
  | [] => []
  | c :: tl => if isSpace c then dropSpaces tl else l
  end.

(** A [trim] to run the samples with: it is [String.prototype.trim] on
    strings written in the basic Latin alphabet. *)
Definition asciiTrim (s : string) : string :=
  string_of_list_ascii
    (rev (dropSpaces (rev (dropSpaces (list_ascii_of_string s))))).

(** The length to run the samples with: a string written in the basic
    Latin alphabet has one UTF-16 code unit for each of its characters. *)
Definition latinLength (s : string) : nat := String.length s.

(** * The handlers on doubles

    The amounts of the records are JavaScript numbers, that is IEEE 754
    binary64 values, and the handlers add and subtract them as such. The
    module [Double] is the embedding of the four handlers that compute with
    amounts, operation by operation, on the primitive floats; dates remain
    whole numbers of milliseconds. The definitions above are its reading in
    exact arithmetic; the two agree on record sets of whole amounts whose
    absolute values add up to a safe integer. *)

Module Double.

(** What a condition makes of a number: [0], [-0] and [NaN] are falsy. *)
Definition truthy (x : float) : bool := negb (x =? 0)%float && (x =? x)%float.

(** [x || 0] *)
Definition orZero (x : float) : float := if truthy x then x else 0%float.

(** What the sort reads in the number a comparator returns: its sign, [NaN]
    being read as 0. *)
Definition order (x : float) : Z :=
  if (x <? 0)%float then -1 else if (0 <? x)%float then 1 else 0.

(** [list.reduce((sum, x) => sum + x, 0)] *)
Definition sum (l : list float) : float :=
  fold_left (fun sum x => (sum + x)%float) l 0%float.

Module Split.
Record t := mk { userId : Id; amount : float; paid : bool }.
End Split.

Module Expense.
Record t := mk {
  description : string;
  amount : float;
  date : Z;
  paidByUserId : Id;
  splits : list Split.t;
  groupId : option Id }.
End Expense.

Module Settlement.
Record t := mk {
  amount : float;
  date : Z;
  paidByUserId : Id;
  receivedByUserId : Id;
  groupId : option Id }.
End Settlement.

Module Db.
Record t := mk {
  users : list User.t;
  expenses : list Expense.t;
  settlements : list Settlement.t;
  groups : list Group.t }.

Definition get (db : t) (id : Id) : option User.t :=
  find (fun u => User._id u =? id)%string (users db).
End Db.

Definition hasSplit (id : Id) (e : Expense.t) : bool :=
  existsb (fun s => Split.userId s =? id)%string (Expense.splits e).

Definition findSplit (id : Id) (e : Expense.t) : option Split.t :=
  find (fun s => Split.userId s =? id)%string (Expense.splits e).

(** ** getUserBalances *)

Module Tally.
Record t := mk { owed : float; owing : float }.
Definition zero : t := mk 0 0.
End Tally.

Definition BalanceMap := list (Id * Tally.t).

(** [(balanceByUser[uid] ??= { owed: 0, owing: 0 })] followed by an update
    [f] of the tally. *)
Fixpoint upsert (uid : Id) (f : Tally.t -> Tally.t) (m : BalanceMap) : BalanceMap :=
  match m with
  | [] => [(uid, f Tally.zero)]
  | (k, x) :: m' =>
      if (k =? uid)%string then (k, f x) :: m' else (k, x) :: upsert uid f m'
  end.

Module Ledger.
Record t := mk { youOwe : float; youAreOwed : float; balanceByUser : BalanceMap }.
Definition init : t := mk 0 0 [].
End Ledger.

Module OweEntry.
Record t := mk {
  userId : Id;
  name : string;
  imageUrl : option string;
  amount : float }.
End OweEntry.

Module OweDetails.
Record t := mk { youOwe : list OweEntry.t; youAreOwedBy : list OweEntry.t }.
End OweDetails.

Module Balances.
Record t := mk {
  youOwe : float;
  youAreOwed : float;
  totalBalance : float;
  oweDetails : OweDetails.t }.
End Balances.

Section GetUserBalances.
Variable db : Db.t.
Variable user : User.t.

Definition involvedExpenses : list Expense.t :=
  filter (fun e => noGroup (Expense.groupId e)
                   && ((Expense.paidByUserId e =? User._id user)%string
                       || hasSplit (User._id user) e))
         (Db.expenses db).

(** [youAreOwed += s.amount; (balanceByUser[s.userId] ??= ...).owed +=
    s.amount], unless the split is the user's own or is paid. *)
Definition creditSplit (st : Ledger.t) (s : Split.t) : Ledger.t :=
  if (Split.userId s =? User._id user)%string || Split.paid s then st
  else Ledger.mk (Ledger.youOwe st)
                 (Ledger.youAreOwed st + Split.amount s)%float
                 (upsert (Split.userId s)
                         (fun x => Tally.mk (Tally.owed x + Split.amount s)%float
                                            (Tally.owing x))
                         (Ledger.balanceByUser st)).

Definition expenseStep (st : Ledger.t) (e : Expense.t) : Ledger.t :=
  let isPayer := (Expense.paidByUserId e =? User._id user)%string in
  let mySplit := findSplit (User._id user) e in
  if isPayer then fold_left creditSplit (Expense.splits e) st
  else match mySplit with
       | Some mine =>
           if negb (Split.paid mine)
           then Ledger.mk (Ledger.youOwe st + Split.amount mine)%float
                          (Ledger.youAreOwed st)
                          (upsert (Expense.paidByUserId e)
                                  (fun x => Tally.mk (Tally.owed x)
                                                     (Tally.owing x + Split.amount mine)%float)
                                  (Ledger.balanceByUser st))
           else st
       | None => st
       end.

Definition involvedSettlements : list Settlement.t :=
  filter (fun s => noGroup (Settlement.groupId s)
                   && ((Settlement.paidByUserId s =? User._id user)%string
                       || (Settlement.receivedByUserId s =? User._id user)%string))
         (Db.settlements db).

(** [youOwe -= s.amount; (...).owing -= s.amount] when the user paid, else
    [youAreOwed -= s.amount; (...).owed -= s.amount]. *)
Definition settlementStep (st : Ledger.t) (s : Settlement.t) : Ledger.t :=
  if (Settlement.paidByUserId s =? User._id user)%string
  then Ledger.mk (Ledger.youOwe st - Settlement.amount s)%float
                 (Ledger.youAreOwed st)
                 (upsert (Settlement.receivedByUserId s)
                         (fun x => Tally.mk (Tally.owed x)
                                            (Tally.owing x - Settlement.amount s)%float)
                         (Ledger.balanceByUser st))
  else Ledger.mk (Ledger.youOwe st)
                 (Ledger.youAreOwed st - Settlement.amount s)%float
                 (upsert (Settlement.paidByUserId s)
                         (fun x => Tally.mk (Tally.owed x - Settlement.amount s)%float
                                            (Tally.owing x))
                         (Ledger.balanceByUser st)).

Definition expenseLedger : Ledger.t :=
  fold_left expenseStep involvedExpenses Ledger.init.

Definition ledger : Ledger.t :=
  fold_left settlementStep involvedSettlements expenseLedger.

Definition oweEntry (uid : Id) (net : float) : OweEntry.t :=
  let counterpart := Db.get db uid in
  OweEntry.mk uid
              (match counterpart with
               | Some c => User.name c
               | None => "Unknown"
               end)
              (match counterpart with
               | Some c => User.imageUrl c
               | None => None
               end)
              (abs net).

(** [const net = owed - owing; if (net === 0) continue; ...;
    net > 0 ? youAreOwedByList.push(base) : youOweList.push(base)] *)
Definition listStep (lists : list OweEntry.t * list OweEntry.t)
           (entry : Id * Tally.t) : list OweEntry.t * list OweEntry.t :=
  let (uid, tally) := entry in
  let net := (Tally.owed tally - Tally.owing tally)%float in
  if (net =? 0)%float then lists
  else let base := oweEntry uid net in
       if (0 <? net)%float then (fst lists, snd lists ++ [base])
       else (fst lists ++ [base], snd lists).

(** [(a, b) => b.amount - a.amount] *)
Definition byAmountDescending (a b : OweEntry.t) : Z :=
  order (OweEntry.amount b - OweEntry.amount a)%float.

Definition getUserBalances : Balances.t :=
  let st := ledger in
  let lists := fold_left listStep (Ledger.balanceByUser st) ([], []) in
  let youOweList := JsArray.sort byAmountDescending (fst lists) in
  let youAreOwedByList := JsArray.sort byAmountDescending (snd lists) in
  Balances.mk (Ledger.youOwe st)
              (Ledger.youAreOwed st)
              (Ledger.youAreOwed st - Ledger.youOwe st)%float
              (OweDetails.mk youOweList youAreOwedByList).
End GetUserBalances.

(** ** getTotalSpent and getMonthlySpending *)

Fixpoint insertByDate (e : Expense.t) (index : list Expense.t) : list Expense.t :=
  match index with
  | [] => [e]
  | x :: tl =>
      if Expense.date e <? Expense.date x then e :: index
      else x :: insertByDate e tl
  end.

Definition byDate (table : list Expense.t) : list Expense.t :=
  fold_left (fun index e => insertByDate e index) table [].

Definition MonthlyTotals := list (Z * float).

Fixpoint getTotal (month : Z) (m : MonthlyTotals) : option float :=
  match m with
  | [] => None
  | (k, v) :: m' => if k =? month then Some v else getTotal month m'
  end.

Fixpoint setTotal (month : Z) (total : float) (m : MonthlyTotals) : MonthlyTotals :=
  match m with
  | [] => [(month, total)]
  | (k, v) :: m' =>
      if k =? month then (k, total) :: m' else (k, v) :: setTotal month total m'
  end.

Module MonthEntry.
Record t := mk { month : Z; total : float }.
End MonthEntry.

Section Spending.
Variable db : Db.t.
Variable user : User.t.
Variable now : Z.

Definition userExpenses : list Expense.t :=
  filter (fun expense => (Expense.paidByUserId expense =? User._id user)%string
                         || hasSplit (User._id user) expense)
         (filter (fun expense => JsDate.startOfYear now <=? Expense.date expense)
                 (byDate (Db.expenses db))).

(** [totalSpent += userSplit.amount] *)
Definition getTotalSpent : float :=
  fold_left (fun totalSpent expense =>
               match findSplit (User._id user) expense with
               | Some userSplit => (totalSpent + Split.amount userSplit)%float
               | None => totalSpent
               end)
            userExpenses 0%float.

Definition initialTotals : MonthlyTotals :=
  fold_left (fun monthlyTotals i =>
               setTotal (JsDate.firstOfMonth (JsDate.getFullYear now) i) 0%float
                        monthlyTotals)
            (map Z.of_nat (seq 0 12)) [].

(** [monthlyTotals[monthStart] = (monthlyTotals[monthStart] || 0) +
    userSplit.amount] *)
Definition addToMonth (monthlyTotals : MonthlyTotals) (expense : Expense.t)
  : MonthlyTotals :=
  let monthStart := JsDate.monthStart (Expense.date expense) in
  match findSplit (User._id user) expense with
  | Some userSplit =>
      setTotal monthStart
               (match getTotal monthStart monthlyTotals with
                | Some total => orZero total
                | None => 0
                end + Split.amount userSplit)%float
               monthlyTotals
  | None => monthlyTotals
  end.

Definition byMonth (a b : MonthEntry.t) : Z :=
  MonthEntry.month a - MonthEntry.month b.

Definition getMonthlySpending : list MonthEntry.t :=
  let monthlyTotals := fold_left addToMonth userExpenses initialTotals in
  let result := map (fun entry => MonthEntry.mk (fst entry) (snd entry))
                    monthlyTotals in
  JsArray.sort byMonth result.
End Spending.

(** ** getUserGroups *)

Module EnhancedGroup.
Record t := mk { group : Group.t; id : Id; balance : float }.
End EnhancedGroup.

Section GetUserGroups.
Variable db : Db.t.
Variable user : User.t.

Definition groupExpenseStep (balance : float) (expense : Expense.t) : float :=
  if (Expense.paidByUserId expense =? User._id user)%string
  then fold_left (fun balance split =>
                    if negb (Split.userId split =? User._id user)%string
                       && negb (Split.paid split)
                    then (balance + Split.amount split)%float
                    else balance)
                 (Expense.splits expense) balance
  else match findSplit (User._id user) expense with
       | Some userSplit =>
           if negb (Split.paid userSplit)
           then (balance - Split.amount userSplit)%float
           else balance
       | None => balance
       end.

Definition groupSettlementStep (balance : float) (settlement : Settlement.t) : float :=
  if (Settlement.paidByUserId settlement =? User._id user)%string
  then (balance + Settlement.amount settlement)%float
  else (balance - Settlement.amount settlement)%float.

Definition groupBalance (group : Group.t) : float :=
  let expenses :=
    filter (fun e => inGroup (Expense.groupId e) (Group._id group))
           (Db.expenses db) in
  let balance := fold_left groupExpenseStep expenses 0%float in
  let settlements :=
    filter (fun s => inGroup (Settlement.groupId s) (Group._id group)
                     && ((Settlement.paidByUserId s =? User._id user)%string
                         || (Settlement.receivedByUserId s =? User._id user)%string))
           (Db.settlements db) in
  fold_left groupSettlementStep settlements balance.

Definition getUserGroups : list EnhancedGroup.t :=
  map (fun group => EnhancedGroup.mk group (Group._id group) (groupBalance group))
      (filter (isMember (User._id user)) (Db.groups db)).
End GetUserGroups.

(** ** Vocabulary of the properties *)

Fixpoint lookup (uid : Id) (m : BalanceMap) : option Tally.t :=
  match m with
  | [] => None
  | (k, x) :: m' => if (k =? uid)%string then Some x else lookup uid m'
  end.

(** The tally [balanceByUser[uid]] stands for, an absent key counting as the
    fresh tally. *)
Definition tallyOf (uid : Id) (m : BalanceMap) : Tally.t :=
  match lookup uid m with
  | Some x => x
  | None => Tally.zero
  end.

(** [owed - owing], as the list loop computes it. *)
Definition net (x : Tally.t) : float := (Tally.owed x - Tally.owing x)%float.

(** What the records say between the user and the counterparty [uid], each
    amount added or taken off in the order the handler reads the records.
    [owedBy]: the unpaid splits of [uid] in the 1-to-1 expenses the user
    paid, less the 1-to-1 settlements [uid] paid the user. [owingTo]: the
    user's own unpaid split in the 1-to-1 expenses [uid] paid, less the
    1-to-1 settlements the user paid [uid]. *)
Definition owedBy (db : Db.t) (user : User.t) (uid : Id) : float :=
  let credits :=
    filter (fun s => (Split.userId s =? uid)%string && negb (Split.paid s))
           (flat_map Expense.splits
                     (filter (fun e => noGroup (Expense.groupId e)
                                       && (Expense.paidByUserId e =? User._id user)%string)
                             (Db.expenses db))) in
  let repaid :=
    filter (fun s => noGroup (Settlement.groupId s)
                     && (Settlement.paidByUserId s =? uid)%string
                     && (Settlement.receivedByUserId s =? User._id user)%string)
           (Db.settlements db) in
  fold_left (fun owed s => (owed - Settlement.amount s)%float) repaid
            (fold_left (fun owed s => (owed + Split.amount s)%float) credits 0%float).

Definition owingTo (db : Db.t) (user : User.t) (uid : Id) : float :=
  let debts :=
    filter (fun e => noGroup (Expense.groupId e)
                     && (Expense.paidByUserId e =? uid)%string)
           (Db.expenses db) in
  let repaid :=
    filter (fun s => noGroup (Settlement.groupId s)
                     && (Settlement.paidByUserId s =? User._id user)%string
                     && (Settlement.receivedByUserId s =? uid)%string)
           (Db.settlements db) in
  fold_left (fun owing s => (owing - Settlement.amount s)%float) repaid
            (fold_left (fun owing e =>
                          match findSplit (User._id user) e with
                          | Some mine =>
                              if Split.paid mine then owing
                              else (owing + Split.amount mine)%float
                          | None => owing
                          end)
                       debts 0%float).

Definition sumOwed (m : BalanceMap) : float :=
  sum (map (fun entry => Tally.owed (snd entry)) m).

Definition sumOwing (m : BalanceMap) : float :=
  sum (map (fun entry => Tally.owing (snd entry)) m).

Definition sumAmounts (l : list OweEntry.t) : float := sum (map OweEntry.amount l).

Definition sumTotals (l : list MonthEntry.t) : float := sum (map MonthEntry.total l).

(** The record set with one more settlement, the newest of its table. *)
Definition addSettlement (db : Db.t) (s : Settlement.t) : Db.t :=
  Db.mk (Db.users db) (Db.expenses db) (Db.settlements db ++ [s]) (Db.groups db).

(** The amount of the split found for the subject. *)
Definition personalShare (user : User.t) (e : Expense.t) : float :=
  match findSplit (User._id user) e with
  | Some userSplit => Split.amount userSplit
  | None => 0
  end.

(** *** The group balance in the words of the specification *)

Definition groupExpenses (db : Db.t) (group : Group.t) : list Expense.t :=
  filter (fun e => inGroup (Expense.groupId e) (Group._id group)) (Db.expenses db).

Definition groupSettlements (db : Db.t) (group : Group.t) : list Settlement.t :=
  filter (fun s => inGroup (Settlement.groupId s) (Group._id group)) (Db.settlements db).

Definition otherUnpaid (user : User.t) (e : Expense.t) : float :=
  sum (map Split.amount
           (filter (fun s => negb (Split.userId s =? User._id user)%string
                             && negb (Split.paid s))
                   (Expense.splits e))).

Definition ownUnpaid (user : User.t) (e : Expense.t) : float :=
  match findSplit (User._id user) e with
  | Some own => if Split.paid own then 0 else Split.amount own
  | None => 0
  end.

(** The sum over the expenses: the unpaid split amounts of the other members
    are added when the subject is the payer, the subject's own unpaid split
    amount is taken off when someone else is. *)
Definition sumShares (user : User.t) (es : list Expense.t) : float :=
  fold_left (fun total e =>
               if (Expense.paidByUserId e =? User._id user)%string
               then (total + otherUnpaid user e)%float
               else (total - ownUnpaid user e)%float)
            es 0%float.

(** Shares, plus the settlements the subject paid, minus the settlements the
    subject received. *)
Definition statedGroupBalance (db : Db.t) (user : User.t) (group : Group.t) : float :=
  (sumShares user (groupExpenses db group)
   + sum (map Settlement.amount
              (filter (fun s => (Settlement.paidByUserId s =? User._id user)%string)
                      (groupSettlements db group)))
   - sum (map Settlement.amount
              (filter (fun s => (Settlement.receivedByUserId s =? User._id user)%string)
                      (groupSettlements db group))))%float.
End Double.

(** ** Whole amounts

    A record set of the exact reading, taken as one of doubles: each amount
    [n] is the double [ofZ n] of that value. *)

(** [Number.MAX_SAFE_INTEGER], 2^53 - 1. *)
Definition maxSafe : Z := 9007199254740991.

(** The double nearest to the whole number [n]; it is [n] when [n] is safe. *)
Definition canon (n : Z) : spec_float := binary_normalize prec emax n 0 false.
Definition ofZ (n : Z) : float := SF2Prim (canon n).

Definition ofSplit (s : Split.t) : Double.Split.t :=
  Double.Split.mk (Split.userId s) (ofZ (Split.amount s)) (Split.paid s).

Definition ofExpense (e : Expense.t) : Double.Expense.t :=
  Double.Expense.mk (Expense.description e) (ofZ (Expense.amount e)) (Expense.date e)
                    (Expense.paidByUserId e) (map ofSplit (Expense.splits e))
                    (Expense.groupId e).

Definition ofSettlement (s : Settlement.t) : Double.Settlement.t :=
  Double.Settlement.mk (ofZ (Settlement.amount s)) (Settlement.date s)
                       (Settlement.paidByUserId s) (Settlement.receivedByUserId s)
                       (Settlement.groupId s).

Definition ofDb (db : Db.t) : Double.Db.t :=
  Double.Db.mk (Db.users db) (map ofExpense (Db.expenses db))
               (map ofSettlement (Db.settlements db)) (Db.groups db).

Definition ofTally (x : Tally.t) : Double.Tally.t :=
  Double.Tally.mk (ofZ (Tally.owed x)) (ofZ (Tally.owing x)).

Definition ofBalanceMap (m : BalanceMap) : Double.BalanceMap :=
  map (fun entry => (fst entry, ofTally (snd entry))) m.

Definition ofLedger (st : Ledger.t) : Double.Ledger.t :=
  Double.Ledger.mk (ofZ (Ledger.youOwe st)) (ofZ (Ledger.youAreOwed st))
                   (ofBalanceMap (Ledger.balanceByUser st)).

Definition ofOweEntry (entry : OweEntry.t) : Double.OweEntry.t :=
  Double.OweEntry.mk (OweEntry.userId entry) (OweEntry.name entry)
                     (OweEntry.imageUrl entry) (ofZ (OweEntry.amount entry)).

Definition ofLists (lists : list OweEntry.t * list OweEntry.t)
  : list Double.OweEntry.t * list Double.OweEntry.t :=
  (map ofOweEntry (fst lists), map ofOweEntry (snd lists)).

Definition ofBalances (balances : Balances.t) : Double.Balances.t :=
  Double.Balances.mk
    (ofZ (Balances.youOwe balances))
    (ofZ (Balances.youAreOwed balances))
    (ofZ (Balances.totalBalance balances))
    (Double.OweDetails.mk
       (map ofOweEntry (OweDetails.youOwe (Balances.oweDetails balances)))
       (map ofOweEntry (OweDetails.youAreOwedBy (Balances.oweDetails balances)))).

Definition ofTotals (m : MonthlyTotals) : Double.MonthlyTotals :=
  map (fun entry => (fst entry, ofZ (snd entry))) m.

Definition ofMonthEntry (entry : MonthEntry.t) : Double.MonthEntry.t :=
  Double.MonthEntry.mk (MonthEntry.month entry) (ofZ (MonthEntry.total entry)).

Definition ofEnhancedGroup (g : EnhancedGroup.t) : Double.EnhancedGroup.t :=
  Double.EnhancedGroup.mk (EnhancedGroup.group g) (EnhancedGroup.id g)
                          (ofZ (EnhancedGroup.balance g)).

(** The absolute values of the amounts the handlers read: those of the
    splits and of the settlements. *)
Definition splitWeight (e : Expense.t) : Z :=
  sumOf (fun s => Z.abs (Split.amount s)) (Expense.splits e).

Definition weight (db : Db.t) : Z :=
  sumOf splitWeight (Db.expenses db)
  + sumOf (fun s => Z.abs (Settlement.amount s)) (Db.settlements db).

(** The amounts are whole, and all of them together stay a safe integer. *)
Definition safe (db : Db.t) : Prop := weight db <= maxSafe.

(** [shl p k] is [p] with [k] binary zeros appended; [mant] and [expo] are
    the mantissa and the exponent of the double of a whole number. *)
Definition shl (p : positive) (k : nat) : positive := Nat.iter k xO p.
Definition mant (p : positive) : positive := shl p (Z.to_nat (53 - Zpos (Pos.size p))).
Definition expo (p : positive) : Z := Zpos (Pos.size p) - 53.

(** What the two loops of [getUserBalances] keep below the weight read so
    far. *)
Definition within (bound : Z) (st : Ledger.t) : Prop :=
  Z.abs (Ledger.youOwe st) + Z.abs (Ledger.youAreOwed st) <= bound
  /\ Forall (fun entry => Z.abs (Tally.owed (snd entry))
                          + Z.abs (Tally.owing (snd entry)) <= bound)
            (Ledger.balanceByUser st).

(** A step of a loop on doubles is the step in exact arithmetic, as long as
    what it adds leaves the amounts read so far a safe integer. *)
Definition exactStep {X Y} (toY : X -> Y) (cost : X -> Z)
           (stepZ : Ledger.t -> X -> Ledger.t)
           (stepF : Double.Ledger.t -> Y -> Double.Ledger.t) : Prop :=
  forall bound st x,
    0 <= bound -> within bound st -> bound + cost x <= maxSafe ->
    stepF (ofLedger st) (toY x) = ofLedger (stepZ st x)
    /\ within (bound + cost x) (stepZ st x).

(** The absolute values a tally holds. *)
Definition tallyWeight (entry : Id * Tally.t) : Z :=
  Z.abs (Tally.owed (snd entry)) + Z.abs (Tally.owing (snd entry)).

(** The tallies of the ledger hold no more than [bound]. *)
Definition light (bound : Z) (st : Ledger.t) : Prop :=
  sumOf tallyWeight (Ledger.balanceByUser st) <= bound.

(** An amount the sort of the output lists can take the difference of. *)
Definition fineAmount (entry : OweEntry.t) : Prop :=
  0 <= OweEntry.amount entry <= maxSafe.

(** ** Sample record sets *)

Module Sample.
Definition alice : User.t := User.mk "alice" "alice" "tok|alice" None None.
Definition bob : User.t := User.mk "bob" "bob" "tok|bob" None None.

(** Alice pays 100, split [alice: 0 paid, bob: 100 unpaid], no group. *)
Definition dinner : Expense.t :=
  Expense.mk "dinner" 100 1767225600000 "alice"
             [Split.mk "alice" 0 true; Split.mk "bob" 100 false] None.

Definition oneExpense : Db.t := Db.mk [alice; bob] [dinner] [] [].




(** A group of Alice and Bob. *)
Definition trip : Group.t :=
  Group.mk "trip" "trip" "" "alice"
           [Member.mk "alice" Member.admin 0; Member.mk "bob" Member.member 0].

(** [oneExpense], and Bob has paid back all 100. *)
Definition settled : Db.t :=
  addSettlement oneExpense (Settlement.mk 100 1767312000000 "bob" "alice" None).

(** A group of Alice and Bob; Alice pays 60, split [alice: 0, bob: 60
    unpaid], in the group. *)
Definition flat : Group.t :=
  Group.mk "flat" "flat" "" "alice"
           [Member.mk "alice" Member.admin 0; Member.mk "bob" Member.member 0].
Definition rent : Expense.t :=
  Expense.mk "rent" 60 1767225600000 "alice"
             [Split.mk "alice" 0 true; Split.mk "bob" 60 false] (Some "flat").
Definition oneGroup : Db.t := Db.mk [alice; bob] [rent] [] [flat].

(** Two expenses of 2026: Alice's split is 20 on 10 January and 30 on
    5 March. *)
Definition january : Expense.t :=
  Expense.mk "january" 40 1768003200000 "bob"
             [Split.mk "alice" 20 false; Split.mk "bob" 20 true] None.
Definition march : Expense.t :=
  Expense.mk "march" 30 1772668800000 "alice" [Split.mk "alice" 30 true] None.
Definition twoMonths : Db.t := Db.mk [alice; bob] [january; march] [] [].

(** On 15 June 2026 the table holds one expense, dated 15 January 2027, in
    which Alice has a split of 10. *)
Definition midJune2026 : Z := 1781481600000.
Definition booking : Expense.t :=
  Expense.mk "booking" 10 1799971200000 "alice" [Split.mk "alice" 10 true] None.
Definition nextYear : Db.t := Db.mk [alice] [booking] [] [].

(** Bob signs in under the name Robert; Carol signs in for the first
    time. *)
Definition robert : Identity.t :=
  Identity.mk "tok|bob" (Some "Robert") (Some "bob@example.org") None.
Definition carol : Identity.t :=
  Identity.mk "tok|carol" (Some "Carol") None None.

(** Alice pays for zed, for a user whose document has since been deleted,
    and for yan, in that order. *)
Definition zed : User.t := User.mk "u-zed" "zed" "tok|zed" None None.
Definition yan : User.t := User.mk "u-yan" "yan" "tok|yan" None None.
Definition outing : Expense.t :=
  Expense.mk "outing" 90 1767225600000 "alice"
             [Split.mk "u-zed" 30 false; Split.mk "u-gone" 30 false;
              Split.mk "u-yan" 30 false] None.
Definition oneDeleted : Db.t := Db.mk [alice; zed; yan] [outing] [] [].

(** Alice pays for Zed and Yan, who both have their document. *)
Definition picnic : Expense.t :=
  Expense.mk "picnic" 60 1767225600000 "alice"
             [Split.mk "u-zed" 30 false; Split.mk "u-yan" 30 false] None.
Definition allThere : Db.t := Db.mk [alice; zed; yan] [picnic] [] [].

(** Alice pays for a user whose document has since been deleted. *)
Definition taxi : Expense.t :=
  Expense.mk "taxi" 40 1767225600000 "alice" [Split.mk "ghost" 40 false] None.
Definition withGhost : Ctx.t := Ctx.mk (Db.mk [alice] [taxi] [] []) (Some "tok|alice").

(** [withGhost], and a settlement of 15 that a second deleted user paid
    Alice. *)
Definition haunted : Ctx.t :=
  Ctx.mk (Db.mk [alice] [taxi]
                [Settlement.mk 15 1767312000000 "phantom" "alice" None] [])
         (Some "tok|alice").

(** An expense of March 2026 that Alice pays, with no split of her own, and
    an expense of 2025 in which she has one. *)
Definition treat : Expense.t :=
  Expense.mk "treat" 15 1772668800000 "alice" [Split.mk "bob" 15 false] None.
Definition lastYear : Expense.t :=
  Expense.mk "last year" 8 1751328000000 "bob" [Split.mk "alice" 8 false] None.

(** Alice makes a group of Bob and herself, Bob being named twice. *)
Definition weekend : GroupArgs.t :=
  GroupArgs.mk "  Weekend " (Some " two days ") ["bob"; "alice"; "bob"].

(** Search indexes to run the samples with: the documents whose name, or
    whose email, begins with the text. *)
Definition prefixName (db : Db.t) (text : string) : list User.t :=
  filter (fun u => String.prefix text (User.name u)) (Db.users db).
Definition prefixEmail (db : Db.t) (text : string) : list User.t :=
  filter (fun u => match User.email u with
                   | Some email => String.prefix text email
                   | None => false
                   end)
         (Db.users db).

(** Bob with his email address, and Bobby without one. *)
Definition bobAtHome : User.t :=
  User.mk "bob" "bob" "tok|bob" (Some "bob@example.org") None.
Definition bobby : User.t := User.mk "u-bobby" "bobby" "tok|bobby" None None.
Definition threeUsers : Db.t := Db.mk [alice; bobAtHome; bobby] [] [] [].

(** No expense at all, and Alice hands Bob 50. *)
Definition noExpense : Db.t := Db.mk [alice; bob] [] [] [].
Definition gift : Settlement.t := Settlement.mk 50 1767225600000 "alice" "bob" None.

(** *** Amounts with cents

    Record sets whose amounts are written with cents; each literal stands
    for the double nearest to it, as in the handlers. Next to them, the
    same records with the amounts in whole cents. *)

Definition carl : User.t := User.mk "carl" "carl" "tok|carl" None None.

(** Alice pays 10.10 for Bob and 20.20 for Carl, then 30.30 for Carl. *)
Definition lunch : Double.Expense.t :=
  Double.Expense.mk "lunch" 30.3 1767225600000 "alice"
                    [Double.Split.mk "bob" 10.1 false; Double.Split.mk "carl" 20.2 false]
                    None.
Definition supper : Double.Expense.t :=
  Double.Expense.mk "supper" 30.3 1767312000000 "alice"
                    [Double.Split.mk "carl" 30.3 false] None.
Definition twoMeals : Double.Db.t := Double.Db.mk [alice; bob; carl] [lunch; supper] [] [].

Definition lunchInCents : Expense.t :=
  Expense.mk "lunch" 3030 1767225600000 "alice"
             [Split.mk "bob" 1010 false; Split.mk "carl" 2020 false] None.
Definition supperInCents : Expense.t :=
  Expense.mk "supper" 3030 1767312000000 "alice" [Split.mk "carl" 3030 false] None.
Definition twoMealsInCents : Db.t :=
  Db.mk [alice; bob; carl] [lunchInCents; supperInCents] [] [].

(** The two meals in cents, a cab Bob pays in which Alice's split is 2500,
    and 1000 that Carl pays Alice back. *)
Definition cabInCents : Expense.t :=
  Expense.mk "cab" 5000 1767398400000 "bob"
             [Split.mk "alice" 2500 false; Split.mk "bob" 2500 true] None.
Definition eveningInCents : Db.t :=
  Db.mk [alice; bob; carl] [lunchInCents; supperInCents; cabInCents]
        [Settlement.mk 1000 1767484800000 "carl" "alice" None] [].

(** Bob pays and Alice's split of [x] is unpaid; Alice pays Bob back [x]. *)
Definition debt (x : float) : Double.Expense.t :=
  Double.Expense.mk "debt" x 1767225600000 "bob" [Double.Split.mk "alice" x false] None.
Definition repay (x : float) : Double.Settlement.t :=
  Double.Settlement.mk x 1767312000000 "alice" "bob" None.
Definition inDebt (x : float) (settlements : list Double.Settlement.t) : Double.Db.t :=
  Double.Db.mk [alice; bob] [debt x] settlements [].

(** Bob owes Alice 0.01 and Alice owes Bob 0.02; Alice hands Carl 0.08. *)
Definition smallDebts : Double.Db.t :=
  Double.Db.mk [alice; bob; carl]
               [Double.Expense.mk "tea" 0.01 1767225600000 "alice"
                                  [Double.Split.mk "bob" 0.01 false] None;
                debt 0.02]
               [] [].
Definition handout : Double.Settlement.t :=
  Double.Settlement.mk 0.08 1767312000000 "alice" "carl" None.

(** The same in cents, after two expenses of the group: Alice pays and Bob's
    split is 500, Bob pays and Alice's split is 300. *)
Definition backAndForthInCents : Db.t :=
  Db.mk [alice; bob]
        [Expense.mk "tickets" 1000 1767225600000 "alice"
                    [Split.mk "alice" 500 true; Split.mk "bob" 500 false] (Some "trip");
         Expense.mk "snacks" 600 1767225600000 "bob"
                    [Split.mk "alice" 300 false; Split.mk "bob" 300 true] (Some "trip")]
        [Settlement.mk 1 1767312000000 "alice" "bob" (Some "trip");
         Settlement.mk 1 1767312000000 "bob" "alice" (Some "trip");
         Settlement.mk 2 1767312000000 "alice" "bob" (Some "trip")]
        [trip].

(** Alice's share is 10.10 on 10 January 2026, 20.20 on 10 February and
    30.30 on 11 February. *)
Definition ownShare (name : string) (x : float) (date : Z) : Double.Expense.t :=
  Double.Expense.mk name x date "alice" [Double.Split.mk "alice" x true] None.
Definition threeShares : Double.Db.t :=
  Double.Db.mk [alice]
               [ownShare "first" 10.1 1768003200000; ownShare "second" 20.2 1770681600000;
                ownShare "third" 30.3 1770768000000]
               [] [].

(** Bob owes Alice 100.10 and Alice owes Bob 0.30, a net of 99.80. *)
Definition unevenDebts : Double.Db.t :=
  Double.Db.mk [alice; bob]
               [Double.Expense.mk "hotel" 100.1 1767225600000 "alice"
                                  [Double.Split.mk "bob" 100.1 false] None;
                debt 0.3]
               [] [].
End Sample.

(** * Properties *)

(** ** The scenarios of the specification *)

(** Alice pays 100 for Bob: she is owed 100, by Bob. *)
Example scenario_expense :
  getUserBalances Sample.oneExpense Sample.alice
  = Balances.mk 0 100 100 (OweDetails.mk [] [OweEntry.mk "bob" "bob" None 100]).
Proof. reflexivity. Qed.

(** Bob settles the 100: nothing is owed and both lists are empty. *)
Example scenario_settled :
  getUserBalances Sample.settled Sample.alice
  = Balances.mk 0 0 0 (OweDetails.mk [] []).
Proof. reflexivity. Qed.

(** In a group, Alice pays 60 for Bob: her balance in the group is 60. *)
Example scenario_group :
  map EnhancedGroup.balance (getUserGroups Sample.oneGroup Sample.alice) = [60]
  /\ map EnhancedGroup.balance (getUserGroups Sample.oneGroup Sample.bob) = [-60].
Proof. split; reflexivity. Qed.

(** Shares of 20 in January and 30 in March: those two months carry the
    totals, the other ten are zero, and the year total is 50. *)
Example scenario_months :
  map MonthEntry.total
      (getMonthlySpending Sample.twoMonths Sample.alice Sample.midJune2026)
  = [20; 0; 30; 0; 0; 0; 0; 0; 0; 0; 0; 0]
  /\ getTotalSpent Sample.twoMonths Sample.alice Sample.midJune2026 = 50.
Proof. split; vm_compute; reflexivity. Qed.

(** A split names a deleted user: no contact, and a balance line named
    "Unknown". *)
Example scenario_deleted_user :
  Query.getAllContacts codeUnitCompare Sample.withGhost = Ok (Contacts.mk [] [])
  /\ Query.getUserBalances Sample.withGhost
     = Ok (Balances.mk 0 40 40 (OweDetails.mk [] [OweEntry.mk "ghost" "Unknown" None 40])).
Proof. split; reflexivity. Qed.

(** A caller who is not signed in gets the error of [getCurrentUser]. *)
Example scenario_unauthenticated :
  Query.getUserBalances (Ctx.mk Sample.oneExpense None) = Throw "Not authenticated"
  /\ Query.getUserBalances (Ctx.mk Sample.oneExpense (Some "tok|carol"))
     = Throw "User not found".
Proof. split; reflexivity. Qed.

(** ** The sort *)

Section SortFacts.
Context {A : Type}.
Variable comparefn : A -> A -> Z.

Lemma insertAt_perm (lo : nat) (pivot : A) (work : list A) :
  Permutation (JsArray.insertAt lo pivot work) (pivot :: work).
Proof.
  unfold JsArray.insertAt.
  rewrite <- (firstn_skipn lo work) at 3.
  symmetry. apply Permutation_middle.
Qed.

Lemma binaryInsertionSort_perm (rest run : list A) :
  Permutation (JsArray.binaryInsertionSort comparefn run rest) (run ++ rest).
Proof.
  unfold JsArray.binaryInsertionSort.
  revert run. induction rest as [|pivot rest IH]; intros run; simpl.
  - now rewrite app_nil_r.
  - rewrite IH. unfold JsArray.binaryInsert.
    rewrite insertAt_perm. apply (Permutation_middle run rest pivot).
Qed.

Lemma extendRun_app (descending : bool) (l : list A) (previous : A) :
  fst (JsArray.extendRun comparefn descending previous l)
    ++ snd (JsArray.extendRun comparefn descending previous l) = l.
Proof.
  revert previous. induction l as [|current tl IH]; intros previous; simpl.
  - reflexivity.
  - destruct (if descending then _ else _); simpl; [|reflexivity].
    specialize (IH current).
    destruct (JsArray.extendRun comparefn descending current tl); simpl in *.
    now rewrite IH.
Qed.

Lemma countAndMakeRun_perm (l : list A) :
  Permutation (fst (JsArray.countAndMakeRun comparefn l)
                 ++ snd (JsArray.countAndMakeRun comparefn l)) l.
Proof.
  destruct l as [|low [|next tl]]; simpl; try now rewrite ?app_nil_r.
  pose proof (extendRun_app (comparefn next low <? 0) tl next) as E.
  destruct (JsArray.extendRun comparefn _ next tl) as [run rest]; simpl in *.
  subst tl.
  destruct (comparefn next low <? 0).
  - change (low :: next :: run ++ rest) with ((low :: next :: run) ++ rest).
    apply Permutation_app_tail. symmetry. apply Permutation_rev.
  - reflexivity.
Qed.

(** Whatever [comparefn] answers, sorting rearranges the array. *)
Lemma sort_perm (l : list A) : Permutation (JsArray.sort comparefn l) l.
Proof.
  unfold JsArray.sort.
  pose proof (countAndMakeRun_perm l) as P.
  destruct (JsArray.countAndMakeRun comparefn l) as [run rest]; simpl in P.
  now rewrite binaryInsertionSort_perm.
Qed.

Lemma sort_In (l : list A) (x : A) : In x (JsArray.sort comparefn l) <-> In x l.
Proof.
  split; apply Permutation_in; [|symmetry]; apply sort_perm.
Qed.

Lemma sort_length (l : list A) : length (JsArray.sort comparefn l) = length l.
Proof. apply Permutation_length, sort_perm. Qed.
End SortFacts.

(** ** The sort, for a consistent comparator *)

Lemma StronglySorted_app_inv {X} (R : X -> X -> Prop) (l1 l2 : list X) :
  StronglySorted R (l1 ++ l2) ->
  StronglySorted R l1 /\ StronglySorted R l2
  /\ forall x y, In x l1 -> In y l2 -> R x y.
Proof.
  induction l1 as [|a l1 IH]; simpl; intros sorted.
  - repeat split; [constructor|assumption|contradiction].
  - apply StronglySorted_inv in sorted as [sorted below].
    destruct (IH sorted) as [s1 [s2 cross]].
    rewrite Forall_app in below. destruct below as [below1 below2].
    repeat split; [now constructor|assumption|].
    intros x y [<-|inx] iny; [|now apply cross].
    rewrite Forall_forall in below2. now apply below2.
Qed.

Lemma StronglySorted_app {X} (R : X -> X -> Prop) (l1 l2 : list X) :
  StronglySorted R l1 -> StronglySorted R l2 ->
  (forall x y, In x l1 -> In y l2 -> R x y) ->
  StronglySorted R (l1 ++ l2).
Proof.
  induction l1 as [|a l1 IH]; simpl; intros s1 s2 cross; [assumption|].
  apply StronglySorted_inv in s1 as [s1 below].
  constructor.
  - apply IH; auto.
  - apply Forall_app. split; [assumption|].
    apply Forall_forall. intros y iny. apply cross; auto.
Qed.

Lemma StronglySorted_rev {X} (R : X -> X -> Prop) (l : list X) :
  StronglySorted R l -> StronglySorted (fun a b => R b a) (rev l).
Proof.
  induction 1 as [|a l sorted IH below]; simpl; [constructor|].
  apply StronglySorted_app; [assumption|repeat constructor|].
  intros x y inx [<-|[]]. apply in_rev in inx.
  rewrite Forall_forall in below. now apply below.
Qed.

Lemma StronglySorted_weaken {X} (R S : X -> X -> Prop) (l : list X) :
  (forall a b, R a b -> S a b) -> StronglySorted R l -> StronglySorted S l.
Proof.
  intros weaker. induction 1 as [|a l sorted IH below]; constructor; auto.
  eapply Forall_impl; [|exact below]. auto.
Qed.

Lemma Sorted_weaken {X} (R S : X -> X -> Prop) (l : list X) :
  (forall a b, R a b -> S a b) -> Sorted R l -> Sorted S l.
Proof.
  intros weaker. induction 1 as [|a l sorted IH hd]; constructor; auto.
  destruct hd; constructor; auto.
Qed.

Lemma skipn_nth {X} (n : nat) (l : list X) (d : X) :
  (n < length l)%nat -> skipn n l = nth n l d :: skipn (S n) l.
Proof.
  revert n. induction l as [|a l IH]; intros [|n] short; simpl in *; try lia.
  - reflexivity.
  - apply IH. lia.
Qed.

Lemma firstn_S_nth {X} (n : nat) (l : list X) (d : X) :
  (n < length l)%nat -> firstn (S n) l = firstn n l ++ [nth n l d].
Proof.
  revert n. induction l as [|a l IH]; intros [|n] short; simpl in *; try lia.
  - reflexivity.
  - f_equal. apply IH. lia.
Qed.

Section SortedFacts.
Context {A : Type}.
Variable comparefn : A -> A -> Z.
Hypothesis ok : consistent comparefn.

Lemma compare_refl (a : A) : comparefn a a <= 0.
Proof. destruct ok as [anti _]. specialize (anti a a). lia. Qed.

Lemma compare_flip (a b : A) : 0 <= comparefn b a -> comparefn a b <= 0.
Proof. destruct ok as [anti _]. specialize (anti b a). lia. Qed.

Lemma compare_lt_le (p m x : A) :
  comparefn p m < 0 -> comparefn m x <= 0 -> comparefn p x < 0.
Proof.
  destruct ok as [anti trans]. intros lt le.
  destruct (Z_lt_le_dec (comparefn p x) 0) as [done|ge]; [assumption|].
  assert (back : comparefn x p <= 0) by (specialize (anti p x); lia).
  pose proof (trans m x p le back). specialize (anti p m). lia.
Qed.

Lemma compare_trans (a b c : A) :
  comparefn a b <= 0 -> comparefn b c <= 0 -> comparefn a c <= 0.
Proof. destruct ok as [_ trans]. apply trans. Qed.

(** The search loop keeps the invariants V8 states for it: the pivot is not
    before anything in [work[0 .. lo)] and is before everything in
    [work[hi ..)]. *)
Lemma binarySearch_spec (pivot : A) (work : list A) (lo hi : nat) :
  ascending comparefn work ->
  (lo <= hi <= length work)%nat ->
  Forall (fun x => comparefn x pivot <= 0) (firstn lo work) ->
  Forall (fun x => comparefn pivot x < 0) (skipn hi work) ->
  Forall (fun x => comparefn x pivot <= 0)
         (firstn (JsArray.binarySearch comparefn pivot work lo hi) work)
  /\ Forall (fun x => comparefn pivot x < 0)
            (skipn (JsArray.binarySearch comparefn pivot work lo hi) work).
Proof.
  intros sorted.
  funelim (JsArray.binarySearch comparefn pivot work lo hi);
    intros range below above.
  - (* lo = hi *)
    match goal with stop : (lo <? hi)%nat = false |- _ =>
      pose proof (proj1 (Nat.ltb_ge _ _) stop) end.
    assert (lo = hi) as -> by lia. now split.
  - (* comparefn pivot work[mid] < 0 *)
    match goal with more : (lo <? hi)%nat = true |- _ =>
      pose proof (proj1 (Nat.ltb_lt _ _) more) end.
    set (mid := (lo + (hi - lo) / 2)%nat) in *.
    assert (lo <= mid < hi)%nat as [lomid midhi].
    { subst mid. pose proof (Nat.Div0.div_lt_upper_bound (hi - lo) 2 (hi - lo)).
      pose proof (Nat.Div0.div_le_upper_bound (hi - lo) 2 (hi - lo)). lia. }
    match goal with IH : ascending _ _ -> _ |- _ => apply IH; auto; [lia|] end.
    rewrite (skipn_nth _ pivot) by lia.
    match goal with order : (_ <? 0) = true |- _ => apply Z.ltb_lt in order end.
    constructor; [assumption|].
    unfold ascending in sorted.
    rewrite <- (firstn_skipn mid work) in sorted.
    apply StronglySorted_app_inv in sorted as [_ [sorted _]].
    rewrite (skipn_nth _ pivot) in sorted by lia.
    apply StronglySorted_inv in sorted as [_ after].
    eapply Forall_impl; [|exact after].
    intros x le. now apply compare_lt_le with (m := nth mid work pivot).
  - (* comparefn pivot work[mid] >= 0 *)
    match goal with more : (lo <? hi)%nat = true |- _ =>
      pose proof (proj1 (Nat.ltb_lt _ _) more) end.
    set (mid := (lo + (hi - lo) / 2)%nat) in *.
    assert (lo <= mid < hi)%nat as [lomid midhi].
    { subst mid. pose proof (Nat.Div0.div_lt_upper_bound (hi - lo) 2 (hi - lo)).
      pose proof (Nat.Div0.div_le_upper_bound (hi - lo) 2 (hi - lo)). lia. }
    match goal with IH : ascending _ _ -> _ |- _ => apply IH; auto; [lia|] end.
    rewrite (firstn_S_nth _ pivot) by lia.
    assert (le : comparefn (nth mid work pivot) pivot <= 0).
    { match goal with order : (_ <? 0) = false |- _ => apply Z.ltb_ge in order end.
      now apply compare_flip. }
    apply Forall_app. split; [|now repeat constructor].
    unfold ascending in sorted.
    rewrite <- (firstn_skipn mid work) in sorted.
    rewrite (skipn_nth _ pivot) in sorted by lia.
    apply StronglySorted_app_inv in sorted as [_ [_ cross]].
    apply Forall_forall. intros x inx.
    apply compare_trans with (b := nth mid work pivot); [|assumption].
    apply cross; [assumption|now left].
Qed.

Lemma binaryInsert_ascending (sorted : list A) (pivot : A) :
  ascending comparefn sorted ->
  ascending comparefn (JsArray.binaryInsert comparefn sorted pivot).
Proof.
  intros asc. unfold JsArray.binaryInsert, JsArray.insertAt.
  destruct (@binarySearch_spec pivot sorted 0 (length sorted) asc)
    as [below above].
  - lia.
  - constructor.
  - rewrite skipn_all. constructor.
  - set (r := JsArray.binarySearch comparefn pivot sorted 0 (length sorted)) in *.
    unfold ascending in *.
    rewrite <- (firstn_skipn r sorted) in asc.
    apply StronglySorted_app_inv in asc as [s1 [s2 cross]].
    apply StronglySorted_app; [assumption| |].
    + constructor; [assumption|].
      eapply Forall_impl; [|exact above]. simpl. intros; lia.
    + intros x y inx [<-|iny]; [|now apply cross].
      rewrite Forall_forall in below. now apply below.
Qed.

Lemma binaryInsertionSort_ascending (rest run : list A) :
  ascending comparefn run ->
  ascending comparefn (JsArray.binaryInsertionSort comparefn run rest).
Proof.
  unfold JsArray.binaryInsertionSort.
  revert run. induction rest as [|pivot rest IH]; intros run asc; simpl; [assumption|].
  apply IH. now apply binaryInsert_ascending.
Qed.

(** The run counted at the front is a chain of the relation its direction
    asks for. *)
Lemma extendRun_chain (descending : bool) (l : list A) (previous : A) :
  Sorted (fun a b => (if descending then comparefn b a <? 0 else 0 <=? comparefn b a) = true)
         (previous :: fst (JsArray.extendRun comparefn descending previous l)).
Proof.
  revert previous. induction l as [|current tl IH]; intros previous; simpl.
  - repeat constructor.
  - destruct (if descending then _ else _) eqn:continues; simpl.
    + specialize (IH current).
      destruct (JsArray.extendRun comparefn descending current tl) as [run rest].
      simpl in *. constructor; [assumption|]. now constructor.
    + repeat constructor.
Qed.

Lemma countAndMakeRun_ascending (l : list A) :
  ascending comparefn (fst (JsArray.countAndMakeRun comparefn l)).
Proof.
  unfold ascending.
  destruct l as [|low [|next tl]]; try (simpl; now repeat constructor).
  unfold JsArray.countAndMakeRun.
  pose proof (extendRun_chain (comparefn next low <? 0) tl next) as chain.
  destruct (JsArray.extendRun comparefn _ next tl) as [run rest].
  destruct (comparefn next low <? 0) eqn:isDescending; cbn [fst] in *.
  - apply (StronglySorted_weaken (R := fun a b => comparefn a b < 0));
      [intros; lia|].
    apply (StronglySorted_rev (R := fun a b => comparefn b a < 0)).
    apply Sorted_StronglySorted.
    + intros a b c ba cb. apply compare_lt_le with (m := b); [assumption|lia].
    + apply Z.ltb_lt in isDescending.
      constructor; [|now constructor].
      apply (Sorted_weaken (R := fun a b => (comparefn b a <? 0) = true));
        [|exact chain].
      intros a b. apply Z.ltb_lt.
  - apply Sorted_StronglySorted.
    + intros a b c. apply compare_trans.
    + apply Z.ltb_ge in isDescending.
      constructor; [|constructor; now apply compare_flip].
      apply (Sorted_weaken (R := fun a b => (0 <=? comparefn b a) = true));
        [|exact chain].
      intros a b le. apply compare_flip. now apply Z.leb_le.
Qed.

(** For a consistent comparator the sorted array is in order. *)
Lemma sort_ascending (l : list A) : ascending comparefn (JsArray.sort comparefn l).
Proof.
  unfold JsArray.sort.
  pose proof (countAndMakeRun_ascending l) as asc.
  destruct (JsArray.countAndMakeRun comparefn l) as [run rest].
  now apply binaryInsertionSort_ascending.
Qed.
End SortedFacts.

(** ** Sorting under a projection *)

Lemma binarySearch_unfold {X} (comparefn : X -> X -> Z) (pivot : X) (work : list X)
      (lo hi : nat) :
  JsArray.binarySearch comparefn pivot work lo hi
  = if (lo <? hi)%nat
    then if comparefn pivot (nth (lo + (hi - lo) / 2) work pivot) <? 0
         then JsArray.binarySearch comparefn pivot work lo (lo + (hi - lo) / 2)
         else JsArray.binarySearch comparefn pivot work (S (lo + (hi - lo) / 2)) hi
    else lo.
Proof.
  funelim (JsArray.binarySearch comparefn pivot work lo hi);
    match goal with
    | cond : (lo <? hi)%nat = _ |- _ => rewrite cond
    end;
    try match goal with
        | order : (_ <? 0) = _ |- _ => rewrite order
        end;
    reflexivity.
Qed.

Section SortMap.
Context {X Y : Type}.
Variable f : X -> Y.
Variable compareX : X -> X -> Z.
Variable compareY : Y -> Y -> Z.
Hypothesis agree : forall a b, compareY (f a) (f b) = compareX a b.

Lemma binarySearch_map (pivot : X) (work : list X) (lo hi : nat) :
  JsArray.binarySearch compareY (f pivot) (map f work) lo hi
  = JsArray.binarySearch compareX pivot work lo hi.
Proof.
  funelim (JsArray.binarySearch compareX pivot work lo hi);
    rewrite (binarySearch_unfold compareY);
    match goal with
    | cond : (lo <? hi)%nat = _ |- _ => rewrite cond
    end;
    try rewrite map_nth, agree;
    try match goal with
        | order : (_ <? 0) = _ |- _ => rewrite order
        end;
    auto.
Qed.

Lemma binaryInsert_map (sorted : list X) (pivot : X) :
  JsArray.binaryInsert compareY (map f sorted) (f pivot)
  = map f (JsArray.binaryInsert compareX sorted pivot).
Proof.
  unfold JsArray.binaryInsert, JsArray.insertAt.
  rewrite length_map, binarySearch_map, map_app, firstn_map. simpl.
  now rewrite skipn_map.
Qed.

Lemma binaryInsertionSort_map (rest run : list X) :
  JsArray.binaryInsertionSort compareY (map f run) (map f rest)
  = map f (JsArray.binaryInsertionSort compareX run rest).
Proof.
  unfold JsArray.binaryInsertionSort.
  revert run. induction rest as [|pivot rest IH]; intros run; simpl; [reflexivity|].
  now rewrite binaryInsert_map, IH.
Qed.

Lemma extendRun_map (descending : bool) (l : list X) (previous : X) :
  JsArray.extendRun compareY descending (f previous) (map f l)
  = (map f (fst (JsArray.extendRun compareX descending previous l)),
     map f (snd (JsArray.extendRun compareX descending previous l))).
Proof.
  revert previous. induction l as [|current tl IH]; intros previous; simpl;
    [reflexivity|].
  rewrite agree.
  destruct (if descending then _ else _); [|reflexivity].
  rewrite IH.
  now destruct (JsArray.extendRun compareX descending current tl).
Qed.

(** Sorting the images under [f] by a comparator that only looks through [f]
    is sorting the originals. *)
Lemma sort_map (l : list X) :
  JsArray.sort compareY (map f l) = map f (JsArray.sort compareX l).
Proof.
  unfold JsArray.sort.
  destruct l as [|low [|next tl]]; try reflexivity.
  unfold JsArray.countAndMakeRun. cbn [map].
  rewrite agree, extendRun_map.
  destruct (JsArray.extendRun compareX _ next tl) as [run rest]. cbn [fst snd].
  rewrite <- binaryInsertionSort_map.
  destruct (compareX next low <? 0); [|reflexivity].
  now rewrite map_rev.
Qed.
End SortMap.

(** ** The tally map *)

Lemma lookup_upsert_same (uid : Id) f (m : BalanceMap) :
  lookup uid (upsert uid f m) = Some (f (tallyOf uid m)).
Proof.
  unfold tallyOf.
  induction m as [|[k x] m IH]; simpl.
  - now rewrite String.eqb_refl.
  - destruct (String.eqb_spec k uid) as [->|ne]; simpl.
    + now rewrite String.eqb_refl.
    + destruct (String.eqb_spec k uid); [contradiction|exact IH].
Qed.

Lemma lookup_upsert_other (uid k : Id) f (m : BalanceMap) :
  uid <> k -> lookup k (upsert uid f m) = lookup k m.
Proof.
  intros ne.
  induction m as [|[k' x] m IH]; simpl.
  - destruct (String.eqb_spec uid k); [contradiction|reflexivity].
  - destruct (String.eqb_spec k' uid) as [->|ne']; simpl.
    + destruct (String.eqb_spec uid k); [contradiction|reflexivity].
    + now rewrite IH.
Qed.

Lemma upsert_keys_In (uid k : Id) f (m : BalanceMap) :
  In k (map fst (upsert uid f m)) <-> k = uid \/ In k (map fst m).
Proof.
  induction m as [|[k' x] m IH]; simpl.
  - intuition.
  - destruct (String.eqb_spec k' uid) as [->|ne]; simpl; intuition.
Qed.

Lemma upsert_NoDup (uid : Id) f (m : BalanceMap) :
  NoDup (map fst m) -> NoDup (map fst (upsert uid f m)).
Proof.
  induction m as [|[k x] m IH]; simpl; intros nd.
  - constructor; [intros []|constructor].
  - inversion nd as [|? ? notin nd']; subst.
    destruct (String.eqb_spec k uid) as [->|ne]; simpl.
    + now constructor.
    + constructor; [|now apply IH].
      intros ink. apply upsert_keys_In in ink.
      destruct ink as [->|inm]; [now apply ne|now apply notin].
Qed.

Lemma lookup_In (uid : Id) (x : Tally.t) (m : BalanceMap) :
  lookup uid m = Some x -> In (uid, x) m.
Proof.
  induction m as [|[k y] m IH]; simpl; [discriminate|].
  destruct (String.eqb_spec k uid) as [->|ne].
  - intros [= ->]. now left.
  - intros found. right. now apply IH.
Qed.

Lemma In_lookup (uid : Id) (x : Tally.t) (m : BalanceMap) :
  NoDup (map fst m) -> In (uid, x) m -> lookup uid m = Some x.
Proof.
  induction m as [|[k y] m IH]; simpl; intros nd inm; [contradiction|].
  destruct inm as [here|there].
  - injection here as -> ->. now rewrite String.eqb_refl.
  - inversion nd as [|? ? notin nd']; subst.
    destruct (String.eqb_spec k uid) as [->|ne].
    + exfalso. apply notin. now apply (in_map fst) in there.
    + now apply IH.
Qed.

Lemma sumOwed_upsert (uid : Id) f (m : BalanceMap) :
  sumOwed (upsert uid f m)
  = sumOwed m + (Tally.owed (f (tallyOf uid m)) - Tally.owed (tallyOf uid m)).
Proof.
  unfold tallyOf.
  induction m as [|[k x] m IH]; simpl.
  - lia.
  - destruct (String.eqb_spec k uid) as [->|ne]; simpl; [lia|].
    rewrite IH. lia.
Qed.

Lemma sumOwing_upsert (uid : Id) f (m : BalanceMap) :
  sumOwing (upsert uid f m)
  = sumOwing m + (Tally.owing (f (tallyOf uid m)) - Tally.owing (tallyOf uid m)).
Proof.
  unfold tallyOf.
  induction m as [|[k x] m IH]; simpl.
  - lia.
  - destruct (String.eqb_spec k uid) as [->|ne]; simpl; [lia|].
    rewrite IH. lia.
Qed.

(** ** The ledger loops *)

Section LedgerFacts.
Variable db : Db.t.
Variable user : User.t.

Lemma init_inv : ledgerInv Ledger.init.
Proof. split; simpl; auto. constructor. Qed.

Lemma creditSplit_inv st s : ledgerInv st -> ledgerInv (creditSplit user st s).
Proof.
  intros [owed owing keys]. unfold creditSplit.
  destruct (_ || _); [now split|].
  split; simpl.
  - rewrite sumOwed_upsert. simpl. lia.
  - rewrite sumOwing_upsert. simpl. lia.
  - now apply upsert_NoDup.
Qed.

Lemma fold_inv {X} (step : Ledger.t -> X -> Ledger.t) (l : list X) :
  (forall st x, ledgerInv st -> ledgerInv (step st x)) ->
  forall st, ledgerInv st -> ledgerInv (fold_left step l st).
Proof.
  intros keeps. induction l as [|x l IH]; simpl; auto.
Qed.

Lemma expenseStep_inv st e : ledgerInv st -> ledgerInv (expenseStep user st e).
Proof.
  intros inv. unfold expenseStep.
  destruct (_ =? _)%string.
  - apply fold_inv; auto using creditSplit_inv.
  - destruct (findSplit _ e) as [mine|]; [|assumption].
    destruct (negb _); [|assumption].
    destruct inv as [owed owing keys]. split; simpl.
    + rewrite sumOwed_upsert. simpl. lia.
    + rewrite sumOwing_upsert. simpl. lia.
    + now apply upsert_NoDup.
Qed.

Lemma settlementStep_inv st s : ledgerInv st -> ledgerInv (settlementStep user st s).
Proof.
  intros [owed owing keys]. unfold settlementStep.
  destruct (_ =? _)%string; split; simpl;
    rewrite ?sumOwed_upsert, ?sumOwing_upsert; simpl; try lia;
    now apply upsert_NoDup.
Qed.

Lemma ledger_inv : ledgerInv (ledger db user).
Proof.
  unfold ledger.
  apply fold_inv; auto using settlementStep_inv.
  unfold expenseLedger. apply fold_inv; auto using expenseStep_inv, init_inv.
Qed.

(** *** The two output lists *)

Lemma listStep_fold (m : BalanceMap) (youOweList youAreOwedByList : list OweEntry.t) :
  fold_left (listStep db) m (youOweList, youAreOwedByList)
  = (youOweList ++ map (entryOf db) (filter userOwes m),
     youAreOwedByList ++ map (entryOf db) (filter owesUser m)).
Proof.
  revert youOweList youAreOwedByList.
  induction m as [|[uid x] m IH]; intros l1 l2; simpl.
  - now rewrite !app_nil_r.
  - unfold owesUser, userOwes, entryOf, Tally.net at 1 2. simpl.
    fold (Tally.net x).
    destruct (Z.eqb_spec (Tally.net x) 0) as [z|nz].
    + rewrite IH. rewrite z. reflexivity.
    + destruct (Z.ltb_spec 0 (Tally.net x)), (Z.ltb_spec (Tally.net x) 0);
        try lia; simpl; rewrite IH; simpl; now rewrite <- app_assoc.
Qed.

Lemma youOwe_list :
  Permutation (OweDetails.youOwe (Balances.oweDetails (getUserBalances db user)))
              (map (entryOf db) (filter userOwes (Ledger.balanceByUser (ledger db user)))).
Proof.
  unfold getUserBalances. simpl. rewrite listStep_fold. simpl. apply sort_perm.
Qed.

Lemma youAreOwedBy_list :
  Permutation (OweDetails.youAreOwedBy (Balances.oweDetails (getUserBalances db user)))
              (map (entryOf db) (filter owesUser (Ledger.balanceByUser (ledger db user)))).
Proof.
  unfold getUserBalances. simpl. rewrite listStep_fold. simpl. apply sort_perm.
Qed.

(** A counterpart is listed exactly when its tally has a non-zero net, in
    the list its sign picks and with the absolute value as amount. *)
Lemma youAreOwedBy_In (entry : OweEntry.t) :
  In entry (OweDetails.youAreOwedBy (Balances.oweDetails (getUserBalances db user)))
  <-> exists x, lookup (OweEntry.userId entry) (Ledger.balanceByUser (ledger db user)) = Some x
                /\ 0 < Tally.net x
                /\ entry = oweEntry db (OweEntry.userId entry) (Tally.net x).
Proof.
  pose proof (inv_keys ledger_inv) as nd.
  split.
  - intros inl. apply (Permutation_in _ youAreOwedBy_list) in inl.
    apply in_map_iff in inl as [[uid x] [eq inm]].
    apply filter_In in inm as [inm pos]. unfold owesUser in pos. simpl in pos.
    unfold entryOf in eq. simpl in eq. subst entry. simpl.
    exists x. repeat split; [now apply In_lookup|lia].
  - intros [x [found [pos eq]]].
    apply (Permutation_in _ (Permutation_sym youAreOwedBy_list)).
    apply in_map_iff. exists (OweEntry.userId entry, x). split.
    + now rewrite eq at 2.
    + apply filter_In. split; [now apply lookup_In|].
      unfold owesUser. simpl. now apply Z.ltb_lt.
Qed.

Lemma youOwe_In (entry : OweEntry.t) :
  In entry (OweDetails.youOwe (Balances.oweDetails (getUserBalances db user)))
  <-> exists x, lookup (OweEntry.userId entry) (Ledger.balanceByUser (ledger db user)) = Some x
                /\ Tally.net x < 0
                /\ entry = oweEntry db (OweEntry.userId entry) (Tally.net x).
Proof.
  pose proof (inv_keys ledger_inv) as nd.
  split.
  - intros inl. apply (Permutation_in _ youOwe_list) in inl.
    apply in_map_iff in inl as [[uid x] [eq inm]].
    apply filter_In in inm as [inm neg]. unfold userOwes in neg. simpl in neg.
    unfold entryOf in eq. simpl in eq. subst entry. simpl.
    exists x. repeat split; [now apply In_lookup|lia].
  - intros [x [found [neg eq]]].
    apply (Permutation_in _ (Permutation_sym youOwe_list)).
    apply in_map_iff. exists (OweEntry.userId entry, x). split.
    + now rewrite eq at 2.
    + apply filter_In. split; [now apply lookup_In|].
      unfold userOwes. simpl. now apply Z.ltb_lt.
Qed.
End LedgerFacts.

(** ** Net sign routing *)



(** ** Totals and details *)

Lemma sumAmounts_app (l1 l2 : list OweEntry.t) :
  sumAmounts (l1 ++ l2) = sumAmounts l1 + sumAmounts l2.
Proof. induction l1 as [|e l1 IH]; simpl; [reflexivity|rewrite IH; lia]. Qed.

Lemma sumAmounts_perm (l1 l2 : list OweEntry.t) :
  Permutation l1 l2 -> sumAmounts l1 = sumAmounts l2.
Proof. induction 1; simpl; lia. Qed.

Lemma sumAmounts_lists (db : Db.t) (m : BalanceMap) :
  sumAmounts (map (entryOf db) (filter owesUser m))
  - sumAmounts (map (entryOf db) (filter userOwes m))
  = sumOwed m - sumOwing m.
Proof.
  induction m as [|[uid x] m IH]; simpl; [reflexivity|].
  unfold owesUser at 1, userOwes at 1. simpl.
  destruct (Z.ltb_spec 0 (Tally.net x)), (Z.ltb_spec (Tally.net x) 0);
    simpl; unfold Tally.net in *; lia.
Qed.

(** In exact arithmetic: in every result of [getUserBalances], [youAreOwed]
    is the sum of the per-counterparty [owed] tallies, [youOwe] is the sum of
    the [owing] tallies, and [totalBalance] is the sum of the amounts in the
    [youAreOwedBy] list minus the sum of the amounts in the [youOwe] list. *)
Lemma totals_match_details_Z (db : Db.t) (user : User.t) :
  Balances.youAreOwed (getUserBalances db user)
  = sumOwed (Ledger.balanceByUser (ledger db user))
  /\ Balances.youOwe (getUserBalances db user)
     = sumOwing (Ledger.balanceByUser (ledger db user))
  /\ Balances.totalBalance (getUserBalances db user)
     = sumAmounts (OweDetails.youAreOwedBy (Balances.oweDetails (getUserBalances db user)))
       - sumAmounts (OweDetails.youOwe (Balances.oweDetails (getUserBalances db user))).
Proof.
  destruct (ledger_inv db user) as [owed owing _].
  repeat split; try assumption.
  rewrite (sumAmounts_perm (youAreOwedBy_list db user)),
          (sumAmounts_perm (youOwe_list db user)), sumAmounts_lists.
  simpl. now rewrite owed, owing.
Qed.

(** ** Settlements *)

Section SettlementFacts.
Variable user : User.t.

Lemma youOwe_settlements (ss : list Settlement.t) (st : Ledger.t) :
  Ledger.youOwe (fold_left (settlementStep user) ss st)
  = Ledger.youOwe st - sumOf (paidByUser user) ss.
Proof.
  revert st. induction ss as [|s ss IH]; intros st; simpl; [lia|].
  rewrite IH. unfold settlementStep, paidByUser.
  destruct (_ =? _)%string; simpl; lia.
Qed.
End SettlementFacts.


Lemma sumOf_app {X} (f : X -> Z) (l1 l2 : list X) :
  sumOf f (l1 ++ l2) = sumOf f l1 + sumOf f l2.
Proof. induction l1 as [|x l1 IH]; simpl; [reflexivity|rewrite IH; lia]. Qed.

(** In exact arithmetic: adding one non-group settlement of amount [k] paid
    by the subject to a counterparty [B], at any place of the settlements
    table and all other records unchanged, lowers the [youOwe] total of
    [getUserBalances] for the subject by exactly [k]. *)
Lemma settlement_lowers_youOwe_Z
        (users : list User.t) (expenses : list Expense.t) (groups : list Group.t)
        (before after : list Settlement.t) (A : User.t) (B : Id) (k date : Z) :
  Balances.youOwe
    (getUserBalances
       (Db.mk users expenses
              (before ++ Settlement.mk k date (User._id A) B None :: after) groups) A)
  = Balances.youOwe
      (getUserBalances (Db.mk users expenses (before ++ after) groups) A) - k.
Proof.
  unfold getUserBalances, ledger, expenseLedger, involvedSettlements, involvedExpenses.
  simpl. rewrite !youOwe_settlements, !filter_app. simpl.
  rewrite String.eqb_refl. simpl.
  rewrite !sumOf_app. simpl. unfold paidByUser at 2. simpl.
  rewrite String.eqb_refl. lia.
Qed.

(** A settlement added to the table is the last step of the second loop. *)
Lemma ledger_addSettlement (db : Db.t) (user : User.t) (s : Settlement.t) :
  Settlement.groupId s = None ->
  Settlement.paidByUserId s = User._id user
  \/ Settlement.receivedByUserId s = User._id user ->
  ledger (addSettlement db s) user = settlementStep user (ledger db user) s.
Proof.
  intros nogroup party.
  unfold ledger, expenseLedger, involvedSettlements, involvedExpenses, addSettlement.
  simpl. rewrite filter_app, fold_left_app. simpl.
  rewrite nogroup. simpl.
  replace (_ || _) with true; [reflexivity|].
  symmetry. apply orb_true_iff.
  destruct party as [-> | ->]; rewrite String.eqb_refl; auto.
Qed.

(** C2, as stated, fails: Bob has no expense-derived tally toward Alice, yet
    after her settlement of 50 to him he is listed in [youAreOwedBy] with 50
    and [totalBalance] has moved from 0 to 50. *)
Lemma settlement_only_reduces_counterexample :
  lookup "bob" (Ledger.balanceByUser (expenseLedger Sample.noExpense Sample.alice)) = None
  /\ map OweEntry.userId
         (OweDetails.youAreOwedBy
            (Balances.oweDetails
               (getUserBalances (addSettlement Sample.noExpense Sample.gift) Sample.alice)))
     = ["bob"]
  /\ Balances.totalBalance (getUserBalances Sample.noExpense Sample.alice) = 0
  /\ Balances.totalBalance
       (getUserBalances (addSettlement Sample.noExpense Sample.gift) Sample.alice) = 50.
Proof. repeat split. Qed.

(** ** Missing references *)

Lemma get_id (db : Db.t) (id : Id) (u : User.t) :
  Db.get db id = Some u -> User._id u = id.
Proof.
  unfold Db.get. intros found. apply find_some in found as [_ eq].
  now apply String.eqb_eq.
Qed.

Lemma filterBoolean_In (l : list (option ContactUser.t)) (c : ContactUser.t) :
  In c (filterBoolean l) <-> In (Some c) l.
Proof.
  induction l as [|[c'|] l IH]; simpl.
  - tauto.
  - rewrite IH. split; intros [here|there]; auto.
    + left. now f_equal.
    + left. now injection here.
  - rewrite IH. split; [auto|]. intros [here|there]; [discriminate|assumption].
Qed.

(** Every contact returned is the projection of a user document that the
    database holds under the contact's id. *)
Lemma contacts_resolve localeCompare (db : Db.t) (currentUser : User.t)
      (c : ContactUser.t) :
  In c (Contacts.users (getAllContacts localeCompare db currentUser)) ->
  exists u, Db.get db (ContactUser.id c) = Some u /\ ContactUser.name c = User.name u.
Proof.
  unfold getAllContacts. simpl. intros inl.
  apply filterBoolean_In, sort_In, in_map_iff in inl as [id [fetched _]].
  unfold fetchContact in fetched.
  destruct (Db.get db id) as [u|] eqn:found; [|discriminate].
  injection fetched as <-. simpl.
  exists u. split; [|reflexivity].
  now rewrite (get_id _ _ found).
Qed.

(** *** The tally of one counterparty, read off the records *)

Lemma tallyOf_upsert (uid k : Id) f (m : BalanceMap) :
  tallyOf uid (upsert k f m)
  = if (k =? uid)%string then f (tallyOf uid m) else tallyOf uid m.
Proof.
  destruct (String.eqb_spec k uid) as [-> | other].
  - unfold tallyOf at 1. now rewrite lookup_upsert_same.
  - unfold tallyOf. now rewrite lookup_upsert_other.
Qed.

Lemma fold_left_when {S X} (when : X -> bool) (step : S -> X -> S) (l : list X) (s : S) :
  fold_left (fun s x => if when x then step s x else s) l s
  = fold_left step (filter when l) s.
Proof.
  revert s. induction l as [|x l IH]; intros s; simpl; [reflexivity|].
  destruct (when x); simpl; apply IH.
Qed.

Lemma fold_left_same {S X} (f g : S -> X -> S) (l : list X) (s : S) :
  (forall s x, f s x = g s x) -> fold_left f l s = fold_left g l s.
Proof.
  intros same. revert s. induction l as [|x l IH]; intros s; simpl; [reflexivity|].
  now rewrite same, IH.
Qed.

Lemma fold_left_same2 {S X} (f g : S -> X -> S) (l : list X) (s s' : S) :
  (forall s x, f s x = g s x) -> s = s' -> fold_left f l s = fold_left g l s'.
Proof. intros same <-. now apply fold_left_same. Qed.

Lemma fold_left_flat_map {S X Y} (parts : X -> list Y) (step : S -> Y -> S)
      (l : list X) (s : S) :
  fold_left (fun s x => fold_left step (parts x) s) l s
  = fold_left step (flat_map parts l) s.
Proof.
  revert s. induction l as [|x l IH]; intros s; simpl; [reflexivity|].
  now rewrite fold_left_app, IH.
Qed.

Lemma fold_left_read {S X V} (read : S -> V) (step : S -> X -> S) (seen : V -> X -> V)
      (l : list X) (s : S) :
  (forall s x, read (step s x) = seen (read s) x) ->
  read (fold_left step l s) = fold_left seen l (read s).
Proof.
  intros same. revert s. induction l as [|x l IH]; intros s; simpl; [reflexivity|].
  now rewrite IH, same.
Qed.

Section OneCounterparty.
Variable db : Db.t.
Variable user : User.t.
Variable uid : Id.
Hypothesis other : uid <> User._id user.

Lemma creditSplit_owed st s :
  Tally.owed (tallyOf uid (Ledger.balanceByUser (creditSplit user st s)))
  = if (Split.userId s =? uid)%string && negb (Split.paid s)
    then Tally.owed (tallyOf uid (Ledger.balanceByUser st)) + Split.amount s
    else Tally.owed (tallyOf uid (Ledger.balanceByUser st)).
Proof.
  unfold creditSplit.
  destruct (String.eqb_spec (Split.userId s) (User._id user)) as [mine|theirs]; simpl.
  - destruct (String.eqb_spec (Split.userId s) uid); [congruence | reflexivity].
  - destruct (Split.paid s); simpl; [now rewrite andb_false_r|].
    rewrite tallyOf_upsert, andb_true_r. now destruct (_ =? _)%string.
Qed.

Lemma creditSplit_owing st s :
  Tally.owing (tallyOf uid (Ledger.balanceByUser (creditSplit user st s)))
  = Tally.owing (tallyOf uid (Ledger.balanceByUser st)).
Proof.
  unfold creditSplit. destruct (_ || _); [reflexivity|]. simpl.
  rewrite tallyOf_upsert. now destruct (_ =? _)%string.
Qed.

Lemma expenseStep_owed st e :
  Tally.owed (tallyOf uid (Ledger.balanceByUser (expenseStep user st e)))
  = if (Expense.paidByUserId e =? User._id user)%string
    then fold_left (fun owed s => if (Split.userId s =? uid)%string && negb (Split.paid s)
                                  then owed + Split.amount s else owed)
                   (Expense.splits e) (Tally.owed (tallyOf uid (Ledger.balanceByUser st)))
    else Tally.owed (tallyOf uid (Ledger.balanceByUser st)).
Proof.
  unfold expenseStep. destruct (_ =? _)%string.
  - apply (fold_left_read (fun st => Tally.owed (tallyOf uid (Ledger.balanceByUser st)))).
    apply creditSplit_owed.
  - destruct (findSplit _ e) as [mine|]; [|reflexivity].
    destruct (negb _); [|reflexivity]. simpl.
    rewrite tallyOf_upsert. now destruct (_ =? _)%string.
Qed.

Lemma expenseStep_owing st e :
  Tally.owing (tallyOf uid (Ledger.balanceByUser (expenseStep user st e)))
  = if (Expense.paidByUserId e =? uid)%string
    then match findSplit (User._id user) e with
         | Some mine => if Split.paid mine
                        then Tally.owing (tallyOf uid (Ledger.balanceByUser st))
                        else Tally.owing (tallyOf uid (Ledger.balanceByUser st))
                             + Split.amount mine
         | None => Tally.owing (tallyOf uid (Ledger.balanceByUser st))
         end
    else Tally.owing (tallyOf uid (Ledger.balanceByUser st)).
Proof.
  unfold expenseStep.
  destruct (String.eqb_spec (Expense.paidByUserId e) (User._id user)) as [mine|theirs].
  - destruct (String.eqb_spec (Expense.paidByUserId e) uid); [congruence|].
    rewrite (fold_left_read (fun st => Tally.owing (tallyOf uid (Ledger.balanceByUser st)))
                            (creditSplit user) (fun owing _ => owing)).
    + now induction (Expense.splits e).
    + apply creditSplit_owing.
  - destruct (findSplit _ e) as [mine|]; [|now destruct (_ =? _)%string].
    destruct (Split.paid mine); simpl; [now destruct (_ =? _)%string|].
    rewrite tallyOf_upsert. now destruct (_ =? _)%string.
Qed.

Lemma settlementStep_owed st s :
  Tally.owed (tallyOf uid (Ledger.balanceByUser (settlementStep user st s)))
  = if negb (Settlement.paidByUserId s =? User._id user)%string
       && (Settlement.paidByUserId s =? uid)%string
    then Tally.owed (tallyOf uid (Ledger.balanceByUser st)) - Settlement.amount s
    else Tally.owed (tallyOf uid (Ledger.balanceByUser st)).
Proof.
  unfold settlementStep.
  destruct (Settlement.paidByUserId s =? User._id user)%string; simpl;
    rewrite tallyOf_upsert; destruct (_ =? _)%string; simpl; try reflexivity; lia.
Qed.

Lemma settlementStep_owing st s :
  Tally.owing (tallyOf uid (Ledger.balanceByUser (settlementStep user st s)))
  = if (Settlement.paidByUserId s =? User._id user)%string
       && (Settlement.receivedByUserId s =? uid)%string
    then Tally.owing (tallyOf uid (Ledger.balanceByUser st)) - Settlement.amount s
    else Tally.owing (tallyOf uid (Ledger.balanceByUser st)).
Proof.
  unfold settlementStep.
  destruct (Settlement.paidByUserId s =? User._id user)%string; simpl;
    rewrite tallyOf_upsert; destruct (_ =? _)%string; simpl; try reflexivity; lia.
Qed.

(** The tally the ledger holds for the counterparty is what the records
    say. *)
Lemma owed_of_records :
  Tally.owed (tallyOf uid (Ledger.balanceByUser (ledger db user))) = owedBy db user uid.
Proof.
  unfold ledger, expenseLedger.
  rewrite (fold_left_read
             (fun st => Tally.owed (tallyOf uid (Ledger.balanceByUser st)))
             (settlementStep user)
             (fun owed s => if negb (Settlement.paidByUserId s =? User._id user)%string
                               && (Settlement.paidByUserId s =? uid)%string
                            then owed - Settlement.amount s else owed)
             _ _ settlementStep_owed).
  rewrite (fold_left_read
             (fun st => Tally.owed (tallyOf uid (Ledger.balanceByUser st)))
             (expenseStep user)
             (fun owed e =>
                if (Expense.paidByUserId e =? User._id user)%string
                then fold_left (fun owed s =>
                                  if (Split.userId s =? uid)%string && negb (Split.paid s)
                                  then owed + Split.amount s else owed)
                               (Expense.splits e) owed
                else owed)
             _ _ expenseStep_owed).
  unfold owedBy, involvedSettlements, involvedExpenses.
  rewrite <- !fold_left_when. cbn [Ledger.init Ledger.balanceByUser tallyOf lookup Tally.zero
                                   Tally.owed].
  rewrite <- fold_left_flat_map, <- !fold_left_when.
  apply fold_left_same2; [|apply fold_left_same].
  2: { intros owed e. cbv beta.
    destruct (String.eqb_spec (Expense.paidByUserId e) (User._id user)); simpl;
      rewrite ?andb_false_r, ?andb_true_r; destruct (noGroup _); try reflexivity;
      now destruct (hasSplit (User._id user) e). }
  - intros owed s. cbv beta.
    destruct (String.eqb_spec (Settlement.paidByUserId s) (User._id user)) as [mine|theirs],
             (String.eqb_spec (Settlement.paidByUserId s) uid) as [same|differs];
      simpl; try congruence; rewrite ?andb_false_r, ?andb_true_r; try reflexivity;
      now destruct (noGroup _), (_ =? _)%string.
Qed.

Lemma owing_of_records :
  Tally.owing (tallyOf uid (Ledger.balanceByUser (ledger db user))) = owingTo db user uid.
Proof.
  unfold ledger, expenseLedger.
  rewrite (fold_left_read
             (fun st => Tally.owing (tallyOf uid (Ledger.balanceByUser st)))
             (settlementStep user)
             (fun owing s => if (Settlement.paidByUserId s =? User._id user)%string
                                && (Settlement.receivedByUserId s =? uid)%string
                             then owing - Settlement.amount s else owing)
             _ _ settlementStep_owing).
  rewrite (fold_left_read
             (fun st => Tally.owing (tallyOf uid (Ledger.balanceByUser st)))
             (expenseStep user)
             (fun owing e =>
                if (Expense.paidByUserId e =? uid)%string
                then match findSplit (User._id user) e with
                     | Some mine => if Split.paid mine then owing
                                    else owing + Split.amount mine
                     | None => owing
                     end
                else owing)
             _ _ expenseStep_owing).
  unfold owingTo, involvedSettlements, involvedExpenses.
  rewrite <- !fold_left_when. cbn [Ledger.init Ledger.balanceByUser tallyOf lookup Tally.zero
                                   Tally.owing].
  apply fold_left_same2; [|apply fold_left_same].
  2: { intros owing e. cbv beta.
    destruct (String.eqb_spec (Expense.paidByUserId e) uid) as [same|differs];
      rewrite ?andb_false_r, ?andb_true_r; [|now destruct (_ && _)].
    destruct (String.eqb_spec (Expense.paidByUserId e) (User._id user)); [congruence|].
    simpl. unfold hasSplit, findSplit.
    destruct (noGroup _); simpl; [|reflexivity].
    destruct (find _ (Expense.splits e)) as [mine|] eqn:found.
    + apply find_some in found as [ins eq].
      assert (existsb (fun s => (Split.userId s =? User._id user)%string)
                      (Expense.splits e) = true) as yes.
      { apply existsb_exists. eauto. }
      now rewrite yes.
    + now destruct (existsb _ _). }
  - intros owing s. cbv beta.
    destruct (String.eqb_spec (Settlement.paidByUserId s) (User._id user)) as [mine|theirs];
      simpl; rewrite ?andb_false_r, ?andb_true_r;
      now destruct (noGroup _), (_ =? _)%string.
Qed.
End OneCounterparty.

Lemma current_user_resolves (ctx : Ctx.t) (user : User.t) :
  getCurrentUser ctx = Ok user -> Db.get (Ctx.db ctx) (User._id user) <> None.
Proof.
  unfold getCurrentUser. destruct (Ctx.identity ctx) as [token|]; [|discriminate].
  destruct (find _ _) as [u|] eqn:found; [|discriminate].
  intros [= <-]. apply find_some in found as [inu _].
  unfold Db.get. intros none.
  apply (find_none _ _ none) in inu. now rewrite String.eqb_refl in inu.
Qed.

(** C6. When the caller is signed in, [getAllContacts] and [getUserBalances]
    return a result whatever user ids the splits and settlements refer to.
    An id that resolves to no user document is not in the [users] list of
    [getAllContacts]; in [getUserBalances] the amounts the records hold
    under that id are kept: when by the records the id owes the caller more
    than the caller owes it, it is in [youAreOwedBy] with the difference,
    when less, in [youOwe] with the difference, each time under the name
    "Unknown". *)
Theorem missing_reference_tolerated
        (localeCompare : string -> string -> Z) (ctx : Ctx.t) (user : User.t) :
  getCurrentUser ctx = Ok user ->
  exists contacts balances,
    Query.getAllContacts localeCompare ctx = Ok contacts
    /\ Query.getUserBalances ctx = Ok balances
    /\ forall uid,
         Db.get (Ctx.db ctx) uid = None ->
         ~ In uid (map ContactUser.id (Contacts.users contacts))
         /\ (owingTo (Ctx.db ctx) user uid < owedBy (Ctx.db ctx) user uid ->
             In (OweEntry.mk uid "Unknown" None
                             (owedBy (Ctx.db ctx) user uid - owingTo (Ctx.db ctx) user uid))
                (OweDetails.youAreOwedBy (Balances.oweDetails balances)))
         /\ (owedBy (Ctx.db ctx) user uid < owingTo (Ctx.db ctx) user uid ->
             In (OweEntry.mk uid "Unknown" None
                             (owingTo (Ctx.db ctx) user uid - owedBy (Ctx.db ctx) user uid))
                (OweDetails.youOwe (Balances.oweDetails balances))).
Proof.
  intros signedIn.
  exists (getAllContacts localeCompare (Ctx.db ctx) user),
         (getUserBalances (Ctx.db ctx) user).
  unfold Query.getAllContacts, Query.getUserBalances, query.
  rewrite signedIn. simpl.
  split; [reflexivity|]. split; [reflexivity|].
  intros uid missing. split.
  { intros listed. apply in_map_iff in listed as [c [eq inl]].
    apply contacts_resolve in inl as [u [found _]].
    rewrite eq in found. congruence. }
  assert (uid <> User._id user) as other.
  { intros ->. now apply (@current_user_resolves ctx user signedIn). }
  pose proof (@owed_of_records (Ctx.db ctx) user uid other) as owed.
  pose proof (@owing_of_records (Ctx.db ctx) user uid other) as owing.
  unfold tallyOf in owed, owing.
  destruct (lookup uid (Ledger.balanceByUser (ledger (Ctx.db ctx) user))) as [x|] eqn:found;
    simpl in owed, owing; [|split; lia].
  split.
  - intros more. apply youAreOwedBy_In. simpl.
    exists x. unfold Tally.net. repeat split; [assumption | lia |].
    unfold oweEntry. rewrite missing. f_equal. lia.
  - intros less. apply youOwe_In. simpl.
    exists x. unfold Tally.net. repeat split; [assumption | lia |].
    unfold oweEntry. rewrite missing. f_equal. lia.
Qed.

(** C6 on [haunted], where Alice is signed in, her only expense has a split
    of 40 of a deleted user, and a second deleted user has paid her 15: the
    one is listed as owing her 40, the other as owed 15 by her. *)
Lemma missing_reference_tolerated_witness :
  exists contacts balances,
    Query.getAllContacts codeUnitCompare Sample.haunted = Ok contacts
    /\ Query.getUserBalances Sample.haunted = Ok balances
    /\ Contacts.users contacts = []
    /\ In (OweEntry.mk "ghost" "Unknown" None 40)
          (OweDetails.youAreOwedBy (Balances.oweDetails balances))
    /\ In (OweEntry.mk "phantom" "Unknown" None 15)
          (OweDetails.youOwe (Balances.oweDetails balances)).
Proof.
  destruct (missing_reference_tolerated codeUnitCompare Sample.haunted
                                        (user := Sample.alice) eq_refl)
    as [contacts [balances [listed [computed kept]]]].
  exists contacts, balances. split; [exact listed|]. split; [exact computed|].
  split; [now injection listed as <-|].
  split.
  - now apply (kept "ghost" eq_refl).
  - now apply (kept "phantom" eq_refl).
Defined.

(** ** Conservation *)

Lemma sumOf_filter_zero {X} (f : X -> Z) (keep : X -> bool) (l : list X) :
  (forall x, In x l -> keep x = false -> f x = 0) ->
  sumOf f (filter keep l) = sumOf f l.
Proof.
  induction l as [|x l IH]; simpl; intros zero; [reflexivity|].
  destruct (keep x) eqn:kept; simpl.
  - rewrite IH; auto.
  - rewrite IH, (zero x); auto.
Qed.


Section NetFacts.
Variable user : User.t.






End NetFacts.











(** ** Group balances *)

Section GroupFacts.
Variable user : User.t.




End GroupFacts.



(** ** Year and month totals *)

Lemma sumOf_perm {X} (f : X -> Z) (l1 l2 : list X) :
  Permutation l1 l2 -> sumOf f l1 = sumOf f l2.
Proof. induction 1; simpl; lia. Qed.

Lemma sumOf_map {X Y} (f : Y -> Z) (g : X -> Y) (l : list X) :
  sumOf f (map g l) = sumOf (fun x => f (g x)) l.
Proof. induction l as [|x l IH]; simpl; [reflexivity|now rewrite IH]. Qed.

Lemma setTotal_sum (month total : Z) (m : MonthlyTotals) :
  sumOf snd (setTotal month total m)
  = sumOf snd m + total - match getTotal month m with
                          | Some old => old
                          | None => 0
                          end.
Proof.
  induction m as [|[k v] m IH]; simpl; [lia|].
  destruct (k =? month); simpl; [lia|]. rewrite IH. lia.
Qed.

Lemma setTotal_zero (month : Z) (m : MonthlyTotals) :
  Forall (fun entry => snd entry = 0) m ->
  Forall (fun entry => snd entry = 0) (setTotal month 0 m).
Proof.
  induction 1 as [|[k v] m zero rest IH]; simpl.
  - now repeat constructor.
  - destruct (k =? month); constructor; auto.
Qed.

Lemma zero_sum (m : MonthlyTotals) :
  Forall (fun entry => snd entry = 0) m -> sumOf snd m = 0.
Proof. induction 1 as [|[k v] m zero _ IH]; simpl in *; lia. Qed.

Lemma initialTotals_zero (now : Z) :
  Forall (fun entry => snd entry = 0) (initialTotals now).
Proof.
  unfold initialTotals.
  generalize (map Z.of_nat (seq 0 12)).
  assert (start : Forall (fun entry : Z * Z => snd entry = 0) []) by constructor.
  revert start. generalize (@nil (Z * Z)).
  intros m start months. revert m start.
  induction months as [|i months IH]; intros m start; simpl; [assumption|].
  apply IH. now apply setTotal_zero.
Qed.

Lemma addToMonth_sum (user : User.t) (es : list Expense.t) (m : MonthlyTotals) :
  sumOf snd (fold_left (addToMonth user) es m)
  = sumOf snd m + sumOf (personalShare user) es.
Proof.
  revert m. induction es as [|e es IH]; intros m; simpl; [lia|].
  rewrite IH. unfold addToMonth, personalShare at 2.
  destruct (findSplit _ e) as [userSplit|]; [|lia].
  rewrite setTotal_sum. lia.
Qed.

Lemma totalSpent_sum (user : User.t) (es : list Expense.t) (totalSpent : Z) :
  fold_left (fun totalSpent expense =>
               match findSplit (User._id user) expense with
               | Some userSplit => totalSpent + Split.amount userSplit
               | None => totalSpent
               end) es totalSpent
  = totalSpent + sumOf (personalShare user) es.
Proof.
  revert totalSpent. induction es as [|e es IH]; intros totalSpent; simpl; [lia|].
  rewrite IH. unfold personalShare at 2.
  destruct (findSplit _ e); lia.
Qed.

(** In exact arithmetic: for the same record set and the same current time,
    the number returned by [getTotalSpent] is the sum of the [total] fields
    of the entries returned by [getMonthlySpending]. *)
Lemma year_total_is_sum_of_months_Z (db : Db.t) (user : User.t) (now : Z) :
  getTotalSpent db user now
  = sumOf MonthEntry.total (getMonthlySpending db user now).
Proof.
  unfold getTotalSpent, getMonthlySpending.
  rewrite totalSpent_sum.
  rewrite (sumOf_perm _ (sort_perm _ _)), sumOf_map. simpl.
  change (fun x : Z * Z => snd x) with (@snd Z Z).
  rewrite addToMonth_sum, (zero_sum (initialTotals_zero now)). lia.
Qed.

(** ** The calendar *)

Lemma daysFromCivil_step (y m : Z) :
  1 <= m < 12 -> JsDate.daysFromCivil y m 1 < JsDate.daysFromCivil y (m + 1) 1.
Proof.
  intros range. unfold JsDate.daysFromCivil.
  destruct (Z.leb_spec m 2), (Z.leb_spec (m + 1) 2),
           (Z.ltb_spec 2 m), (Z.ltb_spec 2 (m + 1)); try lia.
  all: Z.div_mod_to_equations; lia.
Qed.

(** Within a year the first days of the months come in order. *)
Lemma firstOfMonth_step (year i : Z) :
  0 <= i < 11 -> JsDate.firstOfMonth year i < JsDate.firstOfMonth year (i + 1).
Proof.
  intros range. unfold JsDate.firstOfMonth, JsDate.msPerDay.
  replace (i / 12) with 0 by (Z.div_mod_to_equations; lia).
  replace ((i + 1) / 12) with 0 by (Z.div_mod_to_equations; lia).
  replace (i mod 12) with i by (Z.div_mod_to_equations; lia).
  replace ((i + 1) mod 12) with (i + 1) by (Z.div_mod_to_equations; lia).
  pose proof (@daysFromCivil_step
                ((if (0 <=? year) && (year <=? 99) then 1900 + year else year) + 0)
                (i + 1)).
  lia.
Qed.

Lemma getMonth_range (t : Z) : 0 <= JsDate.getMonth t <= 11.
Proof.
  unfold JsDate.getMonth, JsDate.civilFromDays. cbn [snd].
  set (z := t / JsDate.msPerDay + 719468).
  set (doe := z - z / 146097 * 146097).
  assert (0 <= doe <= 146096) by (subst doe; Z.div_mod_to_equations; lia).
  clearbody doe.
  set (yoe := (doe - doe / 1460 + doe / 36524 - doe / 146096) / 365).
  set (doy := doe - (365 * yoe + yoe / 4 - yoe / 100)).
  assert (0 <= doy <= 365) by (subst doy yoe; Z.div_mod_to_equations; lia).
  clearbody doy.
  destruct (Z.ltb_spec ((5 * doy + 2) / 153) 10); Z.div_mod_to_equations; lia.
Qed.

Lemma monthsOfYear_ascending (now : Z) : StronglySorted Z.lt (monthsOfYear now).
Proof.
  apply Sorted_StronglySorted; [exact Z.lt_trans|].
  unfold monthsOfYear. cbn [seq map Z.of_nat Pos.of_succ_nat Pos.succ].
  repeat (constructor; [|try constructor;
                         try (apply (@firstOfMonth_step (JsDate.getFullYear now)); lia)]).
  constructor.
Qed.

Lemma StronglySorted_lt_NoDup (l : list Z) : StronglySorted Z.lt l -> NoDup l.
Proof.
  induction 1 as [|a l sorted IH below]; constructor; [|assumption].
  intros ina. rewrite Forall_forall in below. specialize (below a ina). lia.
Qed.

Lemma monthsOfYear_In (now i : Z) :
  0 <= i < 12 -> In (JsDate.firstOfMonth (JsDate.getFullYear now) i) (monthsOfYear now).
Proof.
  intros range. unfold monthsOfYear. apply in_map.
  apply in_map_iff. exists (Z.to_nat i). split; [lia|].
  apply in_seq. lia.
Qed.

(** ** The month buckets *)

Lemma setTotal_keys_old (month total : Z) (m : MonthlyTotals) :
  In month (map fst m) -> map fst (setTotal month total m) = map fst m.
Proof.
  induction m as [|[k v] m IH]; simpl; [contradiction|].
  destruct (Z.eqb_spec k month) as [->|ne]; simpl; [reflexivity|].
  intros [here|there]; [contradiction|]. now rewrite IH.
Qed.

Lemma setTotal_keys_new (month total : Z) (m : MonthlyTotals) :
  ~ In month (map fst m) -> map fst (setTotal month total m) = map fst m ++ [month].
Proof.
  induction m as [|[k v] m IH]; simpl; [reflexivity|].
  intros fresh. destruct (Z.eqb_spec k month) as [->|ne]; simpl.
  - exfalso. apply fresh. now left.
  - rewrite IH; [reflexivity|]. intros there. apply fresh. now right.
Qed.


Lemma setTotal_NoDup (month total : Z) (m : MonthlyTotals) :
  NoDup (map fst m) -> NoDup (map fst (setTotal month total m)).
Proof.
  intros nd. destruct (in_dec Z.eq_dec month (map fst m)) as [old|fresh].
  - now rewrite setTotal_keys_old.
  - rewrite setTotal_keys_new by assumption.
    apply NoDup_app; [assumption|repeat constructor; auto|].
    intros k ink [<-|[]]. contradiction.
Qed.



Lemma fold_left_map {X Y S} (g : S -> Y -> S) (f : X -> Y) (l : list X) (s : S) :
  fold_left (fun acc x => g acc (f x)) l s = fold_left g (map f l) s.
Proof. revert s. induction l as [|x l IH]; intros s; simpl; auto. Qed.

Lemma initial_keys_fold (months : list Z) (m : MonthlyTotals) :
  NoDup (map fst m ++ months) ->
  map fst (fold_left (fun monthlyTotals month => setTotal month 0 monthlyTotals) months m)
  = map fst m ++ months.
Proof.
  revert m. induction months as [|month months IH]; intros m nd; simpl.
  - now rewrite app_nil_r.
  - assert (fresh : ~ In month (map fst m)).
    { intros old. apply NoDup_remove_2 in nd. apply nd, in_or_app. now left. }
    rewrite IH; rewrite setTotal_keys_new by assumption.
    + now rewrite <- app_assoc.
    + now rewrite <- app_assoc.
Qed.

Lemma initialTotals_keys (now : Z) : map fst (initialTotals now) = monthsOfYear now.
Proof.
  unfold initialTotals, monthsOfYear.
  rewrite (fold_left_map (fun monthlyTotals month => setTotal month 0 monthlyTotals)
                         (JsDate.firstOfMonth (JsDate.getFullYear now))).
  rewrite initial_keys_fold; [reflexivity|].
  apply StronglySorted_lt_NoDup, monthsOfYear_ascending.
Qed.

Section MonthFacts.
Variable db : Db.t.
Variable user : User.t.
Variable now : Z.

Lemma addToMonth_fold_NoDup (es : list Expense.t) (m : MonthlyTotals) :
  NoDup (map fst m) -> NoDup (map fst (fold_left (addToMonth user) es m)).
Proof.
  revert m. induction es as [|e es IH]; intros m nd; simpl; [assumption|].
  apply IH. unfold addToMonth.
  destruct (findSplit _ e); [now apply setTotal_NoDup|assumption].
Qed.



Lemma byMonth_consistent : consistent byMonth.
Proof. unfold consistent, byMonth. split; intros; lia. Qed.

Lemma finalTotals_NoDup : NoDup (map fst (finalTotals db user now)).
Proof.
  apply addToMonth_fold_NoDup. rewrite initialTotals_keys.
  apply StronglySorted_lt_NoDup, monthsOfYear_ascending.
Qed.

Lemma monthly_months :
  Permutation (map MonthEntry.month (getMonthlySpending db user now)) (map fst (finalTotals db user now)).
Proof.
  unfold getMonthlySpending. fold (finalTotals db user now).
  rewrite (Permutation_map _ (sort_perm _ _)), map_map. simpl.
  reflexivity.
Qed.
End MonthFacts.

Lemma StronglySorted_map {X} (f : X -> Z) (R : Z -> Z -> Prop) (l : list X) :
  StronglySorted (fun a b => R (f a) (f b)) l <-> StronglySorted R (map f l).
Proof.
  induction l as [|a l IH]; simpl; split; intros sorted; try constructor;
    apply StronglySorted_inv in sorted as [sorted below];
    try (now apply IH); rewrite Forall_map in *; assumption.
Qed.

Lemma StronglySorted_strict (l : list Z) :
  StronglySorted Z.le l -> NoDup l -> StronglySorted Z.lt l.
Proof.
  induction 1 as [|a l sorted IH below]; intros nd; constructor;
    inversion nd as [|? ? notin nd']; subst; auto.
  rewrite Forall_forall in *. intros x inx.
  specialize (below x inx). assert (a <> x) by (intros ->; contradiction). lia.
Qed.

(** Two arrays in strictly ascending order with the same elements are the
    same array. *)
Lemma ascending_unique (l1 l2 : list Z) :
  StronglySorted Z.lt l1 -> StronglySorted Z.lt l2 -> Permutation l1 l2 -> l1 = l2.
Proof.
  revert l2. induction l1 as [|a l1 IH]; intros l2 s1 s2 perm.
  - apply Permutation_nil in perm. now subst.
  - destruct l2 as [|b l2]; [now apply Permutation_sym, Permutation_nil in perm|].
    apply StronglySorted_inv in s1 as [s1 below1].
    apply StronglySorted_inv in s2 as [s2 below2].
    rewrite Forall_forall in below1, below2.
    assert (a = b) as ->.
    { assert (ina : In a (b :: l2)) by (apply (Permutation_in _ perm); now left).
      assert (inb : In b (a :: l1))
        by (apply (Permutation_in _ (Permutation_sym perm)); now left).
      destruct ina as [->|ina]; [reflexivity|].
      destruct inb as [->|inb]; [reflexivity|].
      specialize (below1 b inb). specialize (below2 a ina). lia. }
    f_equal. apply IH; auto. now apply Permutation_cons_inv in perm.
Qed.


Lemma addToMonth_fold_same_keys (user : User.t) (es : list Expense.t) (m : MonthlyTotals) :
  (forall e, In e es -> findSplit (User._id user) e <> None ->
             In (JsDate.monthStart (Expense.date e)) (map fst m)) ->
  map fst (fold_left (addToMonth user) es m) = map fst m.
Proof.
  revert m. induction es as [|e es IH]; intros m known; simpl; [reflexivity|].
  assert (same : map fst (addToMonth user m e) = map fst m).
  { unfold addToMonth. destruct (findSplit _ e) eqn:found; [|reflexivity].
    apply setTotal_keys_old, known; [now left|congruence]. }
  rewrite IH; [assumption|].
  intros e' ine' found. rewrite same. apply known; [now right|assumption].
Qed.

(** The months returned are in strictly ascending order. *)
Lemma monthly_months_ascending (db : Db.t) (user : User.t) (now : Z) :
  StronglySorted Z.lt (map MonthEntry.month (getMonthlySpending db user now)).
Proof.
  apply StronglySorted_strict.
  - apply (StronglySorted_map MonthEntry.month Z.le).
    eapply StronglySorted_weaken;
      [|apply (sort_ascending byMonth_consistent)].
    unfold byMonth. simpl. intros; lia.
  - apply (Permutation_NoDup (Permutation_sym (monthly_months db user now))
                             (finalTotals_NoDup db user now)).
Qed.


(** X8. Month coverage. When every expense read that has a split of the subject
    is dated within the current year, [getMonthlySpending] returns exactly
    the twelve months of that year, January first. *)
Theorem month_coverage_within_year (db : Db.t) (user : User.t) (now : Z) :
  (forall e, In e (userExpenses db user now) ->
             findSplit (User._id user) e <> None ->
             JsDate.getFullYear (Expense.date e) = JsDate.getFullYear now) ->
  map MonthEntry.month (getMonthlySpending db user now) = monthsOfYear now
  /\ length (getMonthlySpending db user now) = 12%nat.
Proof.
  intros thisYear.
  assert (months : map MonthEntry.month (getMonthlySpending db user now) = monthsOfYear now).
  { apply ascending_unique.
    - apply monthly_months_ascending.
    - apply monthsOfYear_ascending.
    - rewrite monthly_months. unfold finalTotals.
      rewrite addToMonth_fold_same_keys; rewrite initialTotals_keys; [reflexivity|].
      intros e ine found. unfold JsDate.monthStart.
      rewrite (thisYear e ine found).
      apply monthsOfYear_In.
      pose proof (getMonth_range (Expense.date e)). lia. }
  split; [assumption|].
  rewrite <- (length_map MonthEntry.month), months. reflexivity.
Qed.

(** On [twoMonths], whose expenses are of January and March 2026. *)
Example month_coverage_within_year_witness :
  map MonthEntry.month
      (getMonthlySpending Sample.twoMonths Sample.alice Sample.midJune2026)
  = monthsOfYear Sample.midJune2026
  /\ length (getMonthlySpending Sample.twoMonths Sample.alice Sample.midJune2026) = 12%nat.
Proof.
  apply (month_coverage_within_year Sample.twoMonths Sample.alice Sample.midJune2026).
  intros e ine _. vm_compute in ine.
  destruct ine as [<-|[<-|[]]]; vm_compute; reflexivity.
Defined.

(** ** Month coverage *)

(** C3 at an expense dated after the current year. The index range
    [q.gte("date", startOfYear)] has no upper end, so on 15 June 2026 the
    expense of 15 January 2027 is read, and its month gets a key of its own:
    [getMonthlySpending] returns 13 entries, the months of 2026 at zero and
    then January 2027. *)
Theorem month_coverage_fails_next_year :
  length (getMonthlySpending Sample.nextYear Sample.alice Sample.midJune2026) = 13%nat
  /\ map MonthEntry.total
         (getMonthlySpending Sample.nextYear Sample.alice Sample.midJune2026)
     = [0; 0; 0; 0; 0; 0; 0; 0; 0; 0; 0; 0; 10]
  /\ nth 12 (map MonthEntry.month
                 (getMonthlySpending Sample.nextYear Sample.alice Sample.midJune2026)) 0
     = JsDate.firstOfMonth 2027 0.
Proof. repeat split; vm_compute; reflexivity. Qed.

(** ** Contact ordering, where it holds *)

Lemma consistent_on {X Y} (comparefn : Y -> Y -> Z) (key : X -> Y) :
  consistent comparefn -> consistent (fun a b => comparefn (key a) (key b)).
Proof.
  intros [anti trans]. split.
  - intros a b. apply anti.
  - intros a b c. apply trans.
Qed.

Lemma filterBoolean_Some (l : list ContactUser.t) : filterBoolean (map Some l) = l.
Proof. induction l as [|c l IH]; simpl; [reflexivity|now rewrite IH]. Qed.

Lemma all_resolved (db : Db.t) (ids : list Id) :
  Forall (fun id => Db.get db id <> None) ids ->
  exists contacts, map (fetchContact db) ids = map Some contacts.
Proof.
  induction 1 as [|id ids found rest [contacts eq]].
  - now exists [].
  - cbn [map]. rewrite eq. unfold fetchContact.
    destruct (Db.get db id) as [u|]; [|contradiction].
    now eexists (_ :: contacts).
Qed.

Section ContactOrder.
Variable localeCompare : string -> string -> Z.
Hypothesis collation : consistent localeCompare.
Variable db : Db.t.
Variable currentUser : User.t.

(** X15. The groups returned by [getAllContacts] are in ascending order of
    name. *)
Theorem groups_sorted :
  ascending (compareGroups localeCompare)
            (Contacts.groups (getAllContacts localeCompare db currentUser)).
Proof.
  unfold getAllContacts. simpl.
  apply sort_ascending.
  apply (consistent_on ContactGroup.name collation).
Qed.

(** X16. The users returned by [getAllContacts] are in ascending order of
    name, when every contact id gathered resolves to a user document. *)
Theorem users_sorted_when_all_resolve :
  Forall (fun id => Db.get db id <> None) (contactIds db currentUser) ->
  ascending (compareUsers localeCompare)
            (Contacts.users (getAllContacts localeCompare db currentUser)).
Proof.
  intros resolved. unfold getAllContacts. cbn [Contacts.users].
  destruct (@all_resolved db _ resolved) as [contacts ->].
  rewrite (sort_map Some (compareUsers localeCompare) (compareContacts localeCompare));
    [|reflexivity].
  rewrite filterBoolean_Some.
  apply sort_ascending.
  apply (consistent_on ContactUser.name collation).
Qed.
End ContactOrder.

(** Comparing strings by character code is a consistent collation. *)
Lemma string_compare_trans (a b c : string) :
  String.compare a b <> Gt -> String.compare b c <> Gt -> String.compare a c <> Gt.
Proof.
  revert b c. induction a as [|x a IH]; intros [|y b] [|z c]; simpl; try congruence.
  unfold Ascii.compare.
  destruct (N.compare_spec (Ascii.N_of_ascii x) (Ascii.N_of_ascii y)) as [xy|xy|xy],
           (N.compare_spec (Ascii.N_of_ascii y) (Ascii.N_of_ascii z)) as [yz|yz|yz];
    try congruence; intros ab bc.
  - rewrite xy, yz, N.compare_refl. now apply (IH b).
  - rewrite xy. apply N.compare_lt_iff in yz. rewrite yz. congruence.
  - rewrite <- yz. apply N.compare_lt_iff in xy. rewrite xy. congruence.
  - assert (lt : (Ascii.N_of_ascii x < Ascii.N_of_ascii z)%N) by lia.
    apply N.compare_lt_iff in lt. rewrite lt. congruence.
Qed.

Lemma codeUnitCompare_consistent : consistent codeUnitCompare.
Proof.
  unfold consistent, codeUnitCompare. split.
  - intros a b. rewrite (String.compare_antisym b a).
    destruct (String.compare a b); simpl; lia.
  - intros a b c ab bc.
    pose proof (@string_compare_trans a b c) as trans.
    destruct (String.compare a b), (String.compare b c), (String.compare a c);
      try lia; exfalso; apply trans; congruence.
Qed.

(** Ordering by character code is a collation the two theorems apply to. *)
Example groups_sorted_witness :
  ascending (compareGroups codeUnitCompare)
            (Contacts.groups (getAllContacts codeUnitCompare Sample.oneGroup Sample.alice)).
Proof. apply (groups_sorted codeUnitCompare_consistent). Defined.

(** On [allThere], where Zed is gathered before Yan and comes after Yan in
    the result. *)
Example users_sorted_witness :
  ascending (compareUsers codeUnitCompare)
            (Contacts.users (getAllContacts codeUnitCompare Sample.allThere Sample.alice))
  /\ contactIds Sample.allThere Sample.alice = ["u-zed"; "u-yan"]
  /\ map ContactUser.id
         (Contacts.users (getAllContacts codeUnitCompare Sample.allThere Sample.alice))
     = ["u-yan"; "u-zed"].
Proof.
  split; [|split; reflexivity].
  apply (users_sorted_when_all_resolve codeUnitCompare_consistent).
  repeat constructor; discriminate.
Defined.

(** ** Contact ordering *)

(** C8 at a deleted contact. The array sorted is [zed, null, yan]; comparing
    [null] with anything yields 0, and "yan" as well as "zed" come after
    "undefined", so the sort finds the array already in order, and the users
    returned are zed and then yan. *)
Theorem contacts_unsorted_after_deletion :
  map ContactUser.name
      (Contacts.users (getAllContacts codeUnitCompare Sample.oneDeleted Sample.alice))
  = ["zed"; "yan"]
  /\ (0 <? codeUnitCompare "zed" "yan") = true.
Proof. split; vm_compute; reflexivity. Qed.


(** * Further properties *)

Unset Implicit Arguments.

(** ** getUserBalances: the two lists *)







(** ** getUserBalances: what it does not read *)

(** X3. Group records never reach the 1-to-1 balances: an expense that
    carries a group id can be put in or taken out of the expenses, anywhere,
    and so can, on its own, a settlement that carries a group id, and the
    groups table can be anything, without a change in what
    [getUserBalances] returns. *)
Theorem group_records_ignored
        (users : list User.t) (groups groups' : list Group.t)
        (es1 es2 : list Expense.t) (ss1 ss2 : list Settlement.t)
        (e : Expense.t) (s : Settlement.t) (user : User.t) :
  noGroup (Expense.groupId e) = false ->
  noGroup (Settlement.groupId s) = false ->
  getUserBalances (Db.mk users (es1 ++ e :: es2) (ss1 ++ ss2) groups) user
  = getUserBalances (Db.mk users (es1 ++ es2) (ss1 ++ ss2) groups') user
  /\ getUserBalances (Db.mk users (es1 ++ es2) (ss1 ++ s :: ss2) groups) user
     = getUserBalances (Db.mk users (es1 ++ es2) (ss1 ++ ss2) groups') user.
Proof.
  intros groupE groupS.
  assert (sameE : ledger (Db.mk users (es1 ++ e :: es2) (ss1 ++ ss2) groups) user
                  = ledger (Db.mk users (es1 ++ es2) (ss1 ++ ss2) groups') user).
  { unfold ledger, expenseLedger, involvedExpenses, involvedSettlements.
    cbn [Db.expenses Db.settlements].
    rewrite !filter_app. cbn [filter]. now rewrite groupE. }
  assert (sameS : ledger (Db.mk users (es1 ++ es2) (ss1 ++ s :: ss2) groups) user
                  = ledger (Db.mk users (es1 ++ es2) (ss1 ++ ss2) groups') user).
  { unfold ledger, expenseLedger, involvedExpenses, involvedSettlements.
    cbn [Db.expenses Db.settlements].
    rewrite !filter_app. cbn [filter]. now rewrite groupS. }
  unfold getUserBalances. rewrite sameE, sameS. split; reflexivity.
Qed.

(** On [oneExpense]: the group expense [rent] put in before [dinner], and a
    settlement of the group [flat] put in on its own. *)
Example group_records_ignored_witness :
  getUserBalances
    (Db.mk [Sample.alice; Sample.bob] ([] ++ Sample.rent :: [Sample.dinner])
           ([] ++ []) [Sample.flat])
    Sample.alice
  = getUserBalances (Db.mk [Sample.alice; Sample.bob] ([] ++ [Sample.dinner]) ([] ++ []) [])
                    Sample.alice
  /\ getUserBalances
       (Db.mk [Sample.alice; Sample.bob] ([] ++ [Sample.dinner])
              ([] ++ Settlement.mk 5 0 "bob" "alice" (Some "flat") :: []) [Sample.flat])
       Sample.alice
     = getUserBalances (Db.mk [Sample.alice; Sample.bob] ([] ++ [Sample.dinner]) ([] ++ []) [])
                       Sample.alice.
Proof. apply group_records_ignored; reflexivity. Defined.

(** ** getUserBalances: settling a balance *)

Lemma unlisted_when_even (db : Db.t) (user : User.t) (uid : Id) (x : Tally.t) :
  lookup uid (Ledger.balanceByUser (ledger db user)) = Some x ->
  Tally.net x = 0 ->
  ~ In uid (map OweEntry.userId
                (OweDetails.youOwe (Balances.oweDetails (getUserBalances db user))
                 ++ OweDetails.youAreOwedBy
                      (Balances.oweDetails (getUserBalances db user)))).
Proof.
  intros found even inl.
  apply in_map_iff in inl as [entry [eq inl]].
  apply in_app_or in inl as [inl|inl];
    [apply youOwe_In in inl as [y [found' [sign _]]]
    |apply youAreOwedBy_In in inl as [y [found' [sign _]]]];
    rewrite eq, found in found'; injection found' as <-; lia.
Qed.

(** In exact arithmetic: a settlement of exactly the net amount clears the
    counterparty. When [B] owes the subject [net > 0], a non-group
    settlement of [net] paid by [B] to the subject takes [B] off both lists
    and lowers [youAreOwed] by [net]; when the subject owes [B], one of
    [- net] paid by the subject to [B] takes [B] off both lists and lowers
    [youOwe] by [- net]. *)
Lemma exact_settlement_clears_Z
        (db : Db.t) (A : User.t) (B : Id) (x : Tally.t) (date : Z) :
  User._id A <> B ->
  lookup B (Ledger.balanceByUser (ledger db A)) = Some x ->
  (0 < Tally.net x ->
     let after := getUserBalances
                    (addSettlement db (Settlement.mk (Tally.net x) date B (User._id A) None))
                    A in
     ~ In B (map OweEntry.userId
                 (OweDetails.youOwe (Balances.oweDetails after)
                  ++ OweDetails.youAreOwedBy (Balances.oweDetails after)))
     /\ Balances.youAreOwed after
        = Balances.youAreOwed (getUserBalances db A) - Tally.net x
     /\ Balances.youOwe after = Balances.youOwe (getUserBalances db A))
  /\ (Tally.net x < 0 ->
     let after := getUserBalances
                    (addSettlement db (Settlement.mk (- Tally.net x) date (User._id A) B None))
                    A in
     ~ In B (map OweEntry.userId
                 (OweDetails.youOwe (Balances.oweDetails after)
                  ++ OweDetails.youAreOwedBy (Balances.oweDetails after)))
     /\ Balances.youOwe after
        = Balances.youOwe (getUserBalances db A) + Tally.net x
     /\ Balances.youAreOwed after = Balances.youAreOwed (getUserBalances db A)).
Proof.
  intros distinct found.
  assert (tally : tallyOf B (Ledger.balanceByUser (ledger db A)) = x)
    by (unfold tallyOf; now rewrite found).
  destruct (String.eqb_spec B (User._id A)) as [same|other];
    [now contradiction distinct|].
  split; intros sign after; subst after.
  - set (s := Settlement.mk (Tally.net x) date B (User._id A) None).
    assert (step : ledger (addSettlement db s) A = settlementStep A (ledger db A) s)
      by (apply ledger_addSettlement; simpl; auto).
    unfold settlementStep in step. simpl in step.
    destruct (String.eqb_spec B (User._id A)); [contradiction|].
    repeat split.
    + apply unlisted_when_even with (x := Tally.addOwed (- Tally.net x) x).
      * rewrite step. simpl. now rewrite lookup_upsert_same, tally.
      * unfold Tally.net. simpl. lia.
    + unfold getUserBalances. simpl. now rewrite step.
    + unfold getUserBalances. simpl. now rewrite step.
  - set (s := Settlement.mk (- Tally.net x) date (User._id A) B None).
    assert (step : ledger (addSettlement db s) A = settlementStep A (ledger db A) s)
      by (apply ledger_addSettlement; simpl; auto).
    unfold settlementStep in step. simpl in step.
    rewrite String.eqb_refl in step.
    repeat split.
    + apply unlisted_when_even with (x := Tally.addOwing (- - Tally.net x) x).
      * rewrite step. simpl. now rewrite lookup_upsert_same, tally.
      * unfold Tally.net. simpl. lia.
    + unfold getUserBalances. simpl. rewrite step. simpl. lia.
    + unfold getUserBalances. simpl. now rewrite step.
Qed.

(** ** getTotalSpent and getMonthlySpending: which expenses count *)

Lemma insertByDate_perm (e : Expense.t) (index : list Expense.t) :
  Permutation (insertByDate e index) (e :: index).
Proof.
  induction index as [|x index IH]; simpl; [reflexivity|].
  destruct (Expense.date e <? Expense.date x); [reflexivity|].
  rewrite IH. apply perm_swap.
Qed.

Lemma byDate_perm (table : list Expense.t) : Permutation (byDate table) table.
Proof.
  unfold byDate.
  enough (general : forall index, Permutation
                                    (fold_left (fun index e => insertByDate e index) table index)
                                    (index ++ table))
    by apply (general []).
  induction table as [|e table IH]; intros index; simpl.
  - now rewrite app_nil_r.
  - rewrite IH, insertByDate_perm. apply (Permutation_middle index table e).
Qed.

Lemma insertByDate_split (e : Expense.t) (index : list Expense.t) :
  exists before after,
    index = before ++ after /\ insertByDate e index = before ++ e :: after.
Proof.
  induction index as [|x index [before [after [eq ins]]]]; simpl.
  - now exists [], [].
  - destruct (Expense.date e <? Expense.date x).
    + now exists [], (x :: index).
    + exists (x :: before), after. simpl. now rewrite <- eq, ins.
Qed.

Lemma sumOf_filter {X} (f : X -> Z) (keep : X -> bool) (l : list X) :
  sumOf f (filter keep l) = sumOf (fun x => if keep x then f x else 0) l.
Proof.
  induction l as [|x l IH]; simpl; [reflexivity|].
  destruct (keep x); simpl; now rewrite IH.
Qed.

Lemma personalShare_without_split (user : User.t) (e : Expense.t) :
  hasSplit (User._id user) e = false -> personalShare user e = 0.
Proof.
  unfold hasSplit, personalShare, findSplit. intros none.
  destruct (find _ _) as [found|] eqn:search; [|reflexivity].
  apply find_some in search as [inl eq].
  assert (existsb (fun s => Split.userId s =? User._id user)%string (Expense.splits e) = true)
    by (apply existsb_exists; eauto).
  congruence.
Qed.

(** In exact arithmetic: the year total is the sum, over the expenses of the
    table dated on or after 1 January of the current year, of the amount of
    the split found for the subject. *)
Lemma total_spent_is_sum_of_shares_Z (db : Db.t) (user : User.t) (now : Z) :
  getTotalSpent db user now
  = sumOf (personalShare user)
          (filter (fun e => JsDate.startOfYear now <=? Expense.date e) (Db.expenses db)).
Proof.
  unfold getTotalSpent, userExpenses. rewrite totalSpent_sum. simpl.
  rewrite sumOf_filter_zero.
  - rewrite !sumOf_filter. apply sumOf_perm, byDate_perm.
  - intros e _ out. apply orb_false_iff in out as [_ none].
    now apply personalShare_without_split.
Qed.

Lemma fold_skip {S X} (step : S -> X -> S) (x : X) (before after : list X) (s : S) :
  (forall s, step s x = s) ->
  fold_left step (before ++ x :: after) s = fold_left step (before ++ after) s.
Proof.
  intros skip. rewrite !fold_left_app. simpl. now rewrite skip.
Qed.

Lemma byDate_app (table : list Expense.t) (e : Expense.t) :
  byDate (table ++ [e]) = insertByDate e (byDate table).
Proof. unfold byDate. now rewrite fold_left_app. Qed.

(** How the expenses read change with a new expense: they stay as they are,
    or the new one, dated within the range, takes a place among them. *)
Lemma userExpenses_addExpense (db : Db.t) (user : User.t) (now : Z) (e : Expense.t) :
  userExpenses (addExpense db e) user now = userExpenses db user now
  \/ exists before after,
       userExpenses db user now = before ++ after
       /\ userExpenses (addExpense db e) user now = before ++ e :: after
       /\ (JsDate.startOfYear now <=? Expense.date e) = true.
Proof.
  unfold userExpenses, addExpense. cbn [Db.expenses]. rewrite byDate_app.
  destruct (insertByDate_split e (byDate (Db.expenses db)))
    as [before [after [-> ->]]].
  rewrite !filter_app. cbn [filter].
  destruct (JsDate.startOfYear now <=? Expense.date e) eqn:inRange; [|now left].
  cbn [filter].
  destruct (_ || _); [|now left].
  right. eexists _, _. repeat split.
Qed.

(** X6. Personal share only. Recording an expense in which the subject has no
    split (be it as payer), or one dated before 1 January of the current
    year, changes neither [getTotalSpent] nor [getMonthlySpending]. *)
Theorem expense_without_share_ignored
        (db : Db.t) (user : User.t) (now : Z) (e : Expense.t) :
  findSplit (User._id user) e = None
  \/ Expense.date e < JsDate.startOfYear now ->
  getTotalSpent (addExpense db e) user now = getTotalSpent db user now
  /\ getMonthlySpending (addExpense db e) user now = getMonthlySpending db user now.
Proof.
  intros ignored.
  destruct (userExpenses_addExpense db user now e)
    as [same | [before [after [old [new shared]]]]].
  - unfold getTotalSpent, getMonthlySpending. rewrite same. now split.
  - assert (none : findSplit (User._id user) e = None).
    { destruct ignored as [none|early]; [assumption|].
      exfalso. apply Z.leb_le in shared.
      apply (Z.lt_irrefl (Expense.date e)).
      eapply Z.lt_le_trans; eassumption. }
    unfold getTotalSpent, getMonthlySpending. rewrite old, new.
    split.
    + apply fold_skip. intros s. now rewrite none.
    + do 2 f_equal. apply fold_skip. intros s. unfold addToMonth. now rewrite none.
Qed.

(** On [twoMonths], to which the expense [treat], paid by Alice but split
    to Bob alone, is added. *)
Example expense_without_share_ignored_witness :
  getTotalSpent (addExpense Sample.twoMonths Sample.treat) Sample.alice Sample.midJune2026
  = getTotalSpent Sample.twoMonths Sample.alice Sample.midJune2026
  /\ getMonthlySpending (addExpense Sample.twoMonths Sample.treat) Sample.alice
                        Sample.midJune2026
     = getMonthlySpending Sample.twoMonths Sample.alice Sample.midJune2026.
Proof.
  apply (expense_without_share_ignored Sample.twoMonths Sample.alice
                                       Sample.midJune2026 Sample.treat).
  left. reflexivity.
Defined.

(** ** getUserGroups: two members, and other records *)







(** X10. The balance of a group reads the records of that group only: an
    expense of another group, or a 1-to-1 one, can be put in or taken out of
    the expenses, anywhere, and so can, on its own, such a settlement, and
    the users and groups tables can be anything, without a change in the
    balance. *)
Theorem other_records_ignored_by_group
        (users users' : list User.t) (groups groups' : list Group.t)
        (es1 es2 : list Expense.t) (ss1 ss2 : list Settlement.t)
        (e : Expense.t) (s : Settlement.t) (user : User.t) (group : Group.t) :
  inGroup (Expense.groupId e) (Group._id group) = false ->
  inGroup (Settlement.groupId s) (Group._id group) = false ->
  groupBalance (Db.mk users (es1 ++ e :: es2) (ss1 ++ ss2) groups) user group
  = groupBalance (Db.mk users' (es1 ++ es2) (ss1 ++ ss2) groups') user group
  /\ groupBalance (Db.mk users (es1 ++ es2) (ss1 ++ s :: ss2) groups) user group
     = groupBalance (Db.mk users' (es1 ++ es2) (ss1 ++ ss2) groups') user group.
Proof.
  intros otherE otherS. unfold groupBalance. cbn [Db.expenses Db.settlements].
  rewrite !filter_app. cbn [filter]. now rewrite otherE, otherS.
Qed.

(** On the group [flat]: the 1-to-1 expense [dinner] put in after [rent],
    and a settlement of the group [trip] put in on its own. *)
Example other_records_ignored_by_group_witness :
  groupBalance (Db.mk [Sample.alice; Sample.bob] ([Sample.rent] ++ Sample.dinner :: [])
                      ([] ++ []) [Sample.flat])
               Sample.alice Sample.flat
  = groupBalance (Db.mk [] ([Sample.rent] ++ []) ([] ++ []) []) Sample.alice Sample.flat
  /\ groupBalance (Db.mk [Sample.alice; Sample.bob] ([Sample.rent] ++ [])
                         ([] ++ Settlement.mk 25 0 "bob" "alice" (Some "trip") :: [])
                         [Sample.flat])
                  Sample.alice Sample.flat
     = groupBalance (Db.mk [] ([Sample.rent] ++ []) ([] ++ []) []) Sample.alice Sample.flat.
Proof. apply other_records_ignored_by_group; reflexivity. Defined.

(** ** getAllContacts: who is listed *)

Lemma setAdd_In (id x : Id) (ids : list Id) :
  In x (setAdd id ids) <-> x = id \/ In x ids.
Proof.
  unfold setAdd. destruct (existsb (String.eqb id) ids) eqn:known.
  - split; [auto|]. intros [-> | inx]; [|exact inx].
    apply existsb_exists in known as [y [iny eq]].
    apply String.eqb_eq in eq. now subst.
  - rewrite in_app_iff. simpl. intuition.
Qed.

Lemma setAdd_NoDup (id : Id) (ids : list Id) : NoDup ids -> NoDup (setAdd id ids).
Proof.
  intros nodup. unfold setAdd. destruct (existsb (String.eqb id) ids) eqn:known; [exact nodup|].
  apply NoDup_app; [exact nodup | repeat constructor; intros [] | ].
  intros x inx [<- | []].
  assert (existsb (String.eqb id) ids = true) as yes; [|congruence].
  apply existsb_exists. exists id. split; [exact inx | apply String.eqb_refl].
Qed.

Section ContactIds.
Variable db : Db.t.
Variable currentUser : User.t.

Lemma addOther_In (ids : list Id) (id x : Id) :
  In x (addOther currentUser ids id) <-> In x ids \/ (x <> User._id currentUser /\ x = id).
Proof.
  unfold addOther.
  destruct (String.eqb_spec id (User._id currentUser)) as [same|other]; simpl.
  - split; [auto|]. intros [inx | [differs ->]]; [exact inx | contradiction].
  - rewrite setAdd_In. split.
    + intros [-> | inx]; auto.
    + intros [inx | [_ ->]]; auto.
Qed.

Lemma addOther_fold_In (l : list Id) (ids : list Id) (x : Id) :
  In x (fold_left (addOther currentUser) l ids)
  <-> In x ids \/ (x <> User._id currentUser /\ In x l).
Proof.
  revert ids. induction l as [|id l IH]; intros ids; simpl; [tauto|].
  rewrite IH, addOther_In. intuition (subst; auto).
Qed.

Lemma addOther_fold_NoDup (l : list Id) (ids : list Id) :
  NoDup ids -> NoDup (fold_left (addOther currentUser) l ids).
Proof.
  revert ids. induction l as [|id l IH]; intros ids nodup; simpl; [exact nodup|].
  apply IH. unfold addOther.
  destruct (negb (id =? User._id currentUser)%string); [now apply setAdd_NoDup | exact nodup].
Qed.

Lemma collectIds_addOther (ids : list Id) (e : Expense.t) :
  collectIds currentUser ids e = fold_left (addOther currentUser) (participants e) ids.
Proof.
  unfold collectIds, participants. cbn [fold_left].
  change (if negb (Expense.paidByUserId e =? User._id currentUser)%string
          then setAdd (Expense.paidByUserId e) ids else ids)
    with (addOther currentUser ids (Expense.paidByUserId e)).
  generalize (addOther currentUser ids (Expense.paidByUserId e)) as start.
  induction (Expense.splits e) as [|s ss IH]; intros start; simpl; [reflexivity|].
  apply IH.
Qed.

Lemma collectIds_fold_In (es : list Expense.t) (ids : list Id) (x : Id) :
  In x (fold_left (collectIds currentUser) es ids)
  <-> In x ids
      \/ (x <> User._id currentUser /\ exists e, In e es /\ In x (participants e)).
Proof.
  revert ids. induction es as [|e es IH]; intros ids; simpl.
  - split; [auto|]. intros [inx | [_ [e [[] _]]]]. exact inx.
  - rewrite IH, collectIds_addOther, addOther_fold_In. split.
    + intros [[inx | [other inx]] | [other [e' [ine' inx]]]]; eauto 7.
    + intros [inx | [other [e' [[<- | ine'] inx]]]]; eauto 7.
Qed.

Lemma collectIds_fold_NoDup (es : list Expense.t) (ids : list Id) :
  NoDup ids -> NoDup (fold_left (collectIds currentUser) es ids).
Proof.
  revert ids. induction es as [|e es IH]; intros ids nodup; simpl; [exact nodup|].
  apply IH. rewrite collectIds_addOther. now apply addOther_fold_NoDup.
Qed.

Lemma personalExpenses_In (e : Expense.t) :
  In e (personalExpenses db currentUser)
  <-> In e (Db.expenses db) /\ personalExpense currentUser e = true.
Proof.
  unfold personalExpenses, expensesYouPaid, expensesNotPaidByYou, personalExpense.
  rewrite in_app_iff, !filter_In.
  destruct (isUndefined (Expense.groupId e)),
    (Expense.paidByUserId e =? User._id currentUser)%string,
    (hasSplit (User._id currentUser) e); simpl; intuition congruence.
Qed.

Lemma contactIds_In (x : Id) :
  In x (contactIds db currentUser)
  <-> x <> User._id currentUser
      /\ exists e, In e (Db.expenses db) /\ personalExpense currentUser e = true
                   /\ In x (participants e).
Proof.
  unfold contactIds. rewrite collectIds_fold_In. simpl. split.
  - intros [[] | [other [e [ine inx]]]]. apply personalExpenses_In in ine as [ine personal].
    eauto.
  - intros [other [e [ine [personal inx]]]]. right. split; [exact other|].
    exists e. split; [|exact inx]. apply personalExpenses_In. auto.
Qed.

Lemma contactIds_NoDup : NoDup (contactIds db currentUser).
Proof. apply collectIds_fold_NoDup. constructor. Qed.

Lemma fetchContact_id (id : Id) (c : ContactUser.t) :
  fetchContact db id = Some c -> ContactUser.id c = id.
Proof.
  unfold fetchContact. destruct (Db.get db id) as [u|] eqn:found; [|discriminate].
  intros [= <-]. simpl. now apply get_id in found.
Qed.

Lemma filterBoolean_fetch (ids : list Id) :
  map ContactUser.id (filterBoolean (map (fetchContact db) ids))
  = filter (resolves db) ids.
Proof.
  induction ids as [|id ids IH]; simpl; [reflexivity|].
  destruct (fetchContact db id) as [c|] eqn:fetched.
  - pose proof (fetchContact_id _ _ fetched) as same. unfold fetchContact in fetched.
    unfold resolves at 1.
    destruct (Db.get db id); [|discriminate]. simpl. now rewrite IH, same.
  - unfold fetchContact in fetched. unfold resolves at 1.
    destruct (Db.get db id); [discriminate|]. exact IH.
Qed.
End ContactIds.

Lemma filterBoolean_perm (l l' : list (option ContactUser.t)) :
  Permutation l l' -> Permutation (filterBoolean l) (filterBoolean l').
Proof.
  induction 1 as [|[c|] l l' _ IH|[a|] [b|] l|l l' l'' _ IH1 _ IH2]; simpl;
    try reflexivity; auto.
  - apply perm_swap.
  - now transitivity (filterBoolean l').
Qed.

(** The ids of the users [getAllContacts] lists are, in some order, the
    collected contact ids whose document exists. *)
Lemma contact_users_perm (localeCompare : string -> string -> Z)
      (db : Db.t) (currentUser : User.t) :
  Permutation
    (map ContactUser.id (Contacts.users (getAllContacts localeCompare db currentUser)))
    (filter (resolves db) (contactIds db currentUser)).
Proof.
  unfold getAllContacts. cbn [Contacts.users].
  rewrite <- filterBoolean_fetch. apply Permutation_map, filterBoolean_perm.
  apply (@sort_perm _ (compareContacts localeCompare)).
Qed.

(** X11. A user id is among the users [getAllContacts] lists exactly when it is
    not the caller's, its document exists, and a 1-to-1 expense that the
    caller paid or has a share in names it as payer or as a participant.
    Settlements, group expenses and the collation of names play no part. *)
Theorem contacts_are_counterparties (localeCompare : string -> string -> Z)
        (db : Db.t) (currentUser : User.t) (id : Id) :
  In id (map ContactUser.id
             (Contacts.users (getAllContacts localeCompare db currentUser)))
  <-> id <> User._id currentUser
      /\ Db.get db id <> None
      /\ exists e, In e (Db.expenses db)
                   /\ personalExpense currentUser e = true
                   /\ In id (participants e).
Proof.
  pose proof (contact_users_perm localeCompare db currentUser) as perm.
  transitivity (In id (filter (resolves db) (contactIds db currentUser))).
  - split; apply Permutation_in; [exact perm | symmetry; exact perm].
  - rewrite filter_In, contactIds_In. unfold resolves.
    destruct (Db.get db id); intuition congruence.
Qed.

(** X12. No user is listed twice by [getAllContacts], whatever the collation. *)
Theorem contacts_listed_once (localeCompare : string -> string -> Z)
        (db : Db.t) (currentUser : User.t) :
  NoDup (map ContactUser.id
             (Contacts.users (getAllContacts localeCompare db currentUser))).
Proof.
  apply (Permutation_NoDup (Permutation_sym (contact_users_perm localeCompare db currentUser))).
  apply NoDup_filter, contactIds_NoDup.
Qed.

(** X13. Every user [getAllContacts] lists is a document of the users table,
    given by its id, name, email and image, and marked "user". *)
Theorem contact_users_are_documents (localeCompare : string -> string -> Z)
        (db : Db.t) (currentUser : User.t) :
  Forall (fun listed =>
            exists u, In u (Db.users db)
                      /\ listed = ContactUser.mk (User._id u) (User.name u) (User.email u)
                                                 (User.imageUrl u) "user")
         (Contacts.users (getAllContacts localeCompare db currentUser)).
Proof.
  apply Forall_forall. intros listed inl.
  unfold getAllContacts in inl. cbn [Contacts.users] in inl.
  apply filterBoolean_In in inl.
  apply (proj1 (@sort_In _ (compareContacts localeCompare) _ _)) in inl.
  apply in_map_iff in inl as [id [fetched _]]. unfold fetchContact in fetched.
  destruct (Db.get db id) as [u|] eqn:found; [|discriminate].
  injection fetched as <-. exists u. split; [|reflexivity].
  unfold Db.get in found. now apply find_some in found.
Qed.

(** X14. The groups [getAllContacts] lists are the groups of the table that have
    the caller among their members, each with its id, name, description and
    number of members. *)
Theorem contact_groups_are_memberships (localeCompare : string -> string -> Z)
        (db : Db.t) (currentUser : User.t) (listed : ContactGroup.t) :
  In listed (Contacts.groups (getAllContacts localeCompare db currentUser))
  <-> exists g, In g (Db.groups db)
                /\ existsb (fun m => (Member.userId m =? User._id currentUser)%string)
                           (Group.members g) = true
                /\ listed = ContactGroup.mk (Group._id g) (Group.name g)
                                            (Group.description g)
                                            (length (Group.members g)) "group".
Proof.
  unfold getAllContacts. cbn [Contacts.groups].
  rewrite (@sort_In _ (compareGroups localeCompare)).
  unfold userGroups. rewrite in_map_iff. split.
  - intros [g [<- ing]]. apply filter_In in ing as [ing member]. eauto.
  - intros [g [ing [member ->]]]. exists g. split; [reflexivity|].
    apply filter_In. auto.
Qed.

(** ** users.js: store *)

Lemma distinctIds_NoDup (ids : list Id) : distinctIds ids = true <-> NoDup ids.
Proof.
  induction ids as [|id ids IH]; simpl.
  - split; [constructor | reflexivity].
  - rewrite andb_true_iff, negb_true_iff, IH. split.
    + intros [fresh nodup]. constructor; [|exact nodup]. intros inid.
      assert (existsb (String.eqb id) ids = true) as yes; [|congruence].
      apply existsb_exists. exists id. split; [exact inid | apply String.eqb_refl].
    + intros nodup. inversion nodup as [|? ? fresh rest]; subst. split; [|exact rest].
      destruct (existsb (String.eqb id) ids) eqn:known; [|reflexivity].
      apply existsb_exists in known as [x [inx eq]]. apply String.eqb_eq in eq.
      now subst.
Qed.

Lemma find_filter_hd {X} (p : X -> bool) (l : list X) :
  find p l = hd_error (filter p l).
Proof.
  induction l as [|x l IH]; simpl; [reflexivity|]. now destruct (p x).
Qed.

Lemma patchName_first (n : string) (u : User.t) (us1 us2 : list User.t) :
  ~ In (User._id u) (map User._id us1) ->
  patchName (User._id u) n (us1 ++ u :: us2) = us1 ++ withName u n :: us2.
Proof.
  induction us1 as [|v us1 IH]; simpl; intros fresh.
  - now rewrite String.eqb_refl.
  - destruct (String.eqb_spec (User._id v) (User._id u)) as [same|other].
    + exfalso. apply fresh. now left.
    + rewrite IH; [reflexivity|]. intros inu. apply fresh. now right.
Qed.

Lemma filter_single {X} (p : X -> bool) (l : list X) (x : X) :
  filter p l = [x] ->
  exists l1 l2, l = l1 ++ x :: l2 /\ filter p l1 = [] /\ filter p l2 = [] /\ p x = true.
Proof.
  induction l as [|y l IH]; simpl; [discriminate|].
  destruct (p y) eqn:py.
  - intros [= -> rest]. exists [], l. simpl. auto.
  - intros single. destruct (IH single) as [l1 [l2 [-> [none1 [none2 px]]]]].
    exists (y :: l1), l2. simpl. rewrite py. auto.
Qed.

Lemma withName_same (u : User.t) : withName u (User.name u) = u.
Proof. now destruct u. Qed.

Lemma withUsers_same (db : Db.t) : withUsers db (Db.users db) = db.
Proof. now destruct db. Qed.

(** The two ways [store] succeeds: the one document of the token gets the
    name of the identity, or, when there is none, a document is appended. *)
Lemma store_cases (db db' : Db.t) (identity : Identity.t) (newId id : Id) :
  distinctIds (map User._id (Db.users db)) = true ->
  store db (Some identity) newId = Ok (id, db') ->
  (exists u n us1 us2,
      Db.users db = us1 ++ u :: us2
      /\ withToken (Identity.tokenIdentifier identity) us1 = []
      /\ withToken (Identity.tokenIdentifier identity) us2 = []
      /\ User.tokenIdentifier u = Identity.tokenIdentifier identity
      /\ id = User._id u
      /\ Identity.name identity = Some n
      /\ db' = withUsers db (us1 ++ withName u n :: us2))
  \/ (withToken (Identity.tokenIdentifier identity) (Db.users db) = []
      /\ id = newId
      /\ db' = withUsers db (Db.users db ++ [newUser identity newId])).
Proof.
  intros ids stored. apply distinctIds_NoDup in ids. unfold store in stored.
  unfold withToken.
  destruct (filter _ (Db.users db)) as [|u [|]] eqn:range; cbn [unique bind] in stored;
    [| |discriminate].
  - injection stored as <- <-. right. auto.
  - apply filter_single in range as [us1 [us2 [parts [none1 [none2 token]]]]].
    apply String.eqb_eq in token. left.
    assert (~ In (User._id u) (map User._id us1)) as fresh.
    { rewrite parts, map_app in ids. apply NoDup_remove_2 in ids.
      intros inu. apply ids, in_or_app. now left. }
    unfold nameChanged, validName in stored.
    destruct (Identity.name identity) as [n|] eqn:named; cbn [negb bind] in stored;
      [|discriminate].
    destruct (String.eqb_spec (User.name u) n) as [same|changed]; cbn [negb] in stored;
      injection stored as <- <-; exists u, n, us1, us2.
    + subst n. rewrite withName_same, <- parts, withUsers_same. auto 10.
    + rewrite parts at 2. rewrite patchName_first by exact fresh. auto 10.
Qed.

Lemma withToken_app (token : string) (us1 us2 : list User.t) :
  withToken token (us1 ++ us2) = withToken token us1 ++ withToken token us2.
Proof. apply filter_app. Qed.

Lemma withToken_none (token : string) (users : list User.t) :
  withToken token users = [] -> ~ In token (map User.tokenIdentifier users).
Proof.
  intros none inu. apply in_map_iff in inu as [u [eq inu]].
  assert (In u (withToken token users)) as found; [|now rewrite none in found].
  apply filter_In. split; [exact inu | now apply String.eqb_eq].
Qed.

(** X18. After [store] has succeeded for an identity, [getCurrentUser] for a
    caller with that token identifier returns the user whose id [store]
    returned, and the user bears the name of the identity when it has one. *)
Theorem store_then_getCurrentUser
        (db db' : Db.t) (identity : Identity.t) (newId id : Id) :
  distinctIds (map User._id (Db.users db)) = true ->
  store db (Some identity) newId = Ok (id, db') ->
  exists user,
    getCurrentUser (Ctx.mk db' (Some (Identity.tokenIdentifier identity))) = Ok user
    /\ User._id user = id
    /\ forall n, Identity.name identity = Some n -> User.name user = n.
Proof.
  intros ids stored. unfold getCurrentUser. cbn [Ctx.identity Ctx.db].
  rewrite find_filter_hd. fold (withToken (Identity.tokenIdentifier identity) (Db.users db')).
  destruct (store_cases _ _ _ _ _ ids stored)
    as [[u [n [us1 [us2 [parts [none1 [none2 [token [-> [named ->]]]]]]]]]]
       | [none [-> ->]]]; cbn [withUsers Db.users]; rewrite withToken_app.
  - rewrite none1. cbn [app withToken filter withName User.tokenIdentifier].
    rewrite token, String.eqb_refl. cbn [hd_error]. eexists. split; [reflexivity|].
    split; [reflexivity|]. cbn [User.name withName]. intros n0 given. congruence.
  - rewrite none. cbn [app withToken filter newUser User.tokenIdentifier].
    rewrite String.eqb_refl. cbn [hd_error]. eexists. split; [reflexivity|].
    split; [reflexivity|]. cbn [User.name newUser]. now intros n ->.
Qed.

(** Carol signs in for the first time and gets the id "u-carol". *)
Example store_then_getCurrentUser_witness :
  exists user,
    getCurrentUser (Ctx.mk (withUsers Sample.oneExpense
                                      [Sample.alice; Sample.bob;
                                       newUser Sample.carol "u-carol"])
                           (Some "tok|carol")) = Ok user
    /\ User._id user = "u-carol"
    /\ forall n, Some "Carol" = Some n -> User.name user = n.
Proof.
  apply (store_then_getCurrentUser Sample.oneExpense _ Sample.carol "u-carol" "u-carol");
    reflexivity.
Defined.

Lemma store_known (db : Db.t) (identity : Identity.t) (u : User.t) (newId : Id) :
  withToken (Identity.tokenIdentifier identity) (Db.users db) = [u] ->
  Identity.name identity = Some (User.name u) ->
  store db (Some identity) newId = Ok (User._id u, db).
Proof.
  intros range named. unfold store. unfold withToken in range. rewrite range.
  cbn [unique bind]. unfold nameChanged. rewrite named.
  now rewrite String.eqb_refl.
Qed.

Lemma withToken_single (token : string) (u : User.t) (us1 us2 : list User.t) :
  withToken token us1 = [] -> withToken token us2 = [] ->
  User.tokenIdentifier u = token ->
  withToken token (us1 ++ u :: us2) = [u].
Proof.
  intros none1 none2 carries. rewrite withToken_app, none1. cbn [app].
  unfold withToken in *. cbn [filter]. rewrite carries, String.eqb_refl.
  now rewrite none2.
Qed.

(** X19. [store] called again for the same identity, one that has a name,
    returns the same id and changes nothing. *)
Theorem store_twice (db db' : Db.t) (identity : Identity.t) (n : string)
        (newId newId' id : Id) :
  distinctIds (map User._id (Db.users db)) = true ->
  Identity.name identity = Some n ->
  store db (Some identity) newId = Ok (id, db') ->
  store db' (Some identity) newId' = Ok (id, db').
Proof.
  intros ids named stored.
  destruct (store_cases _ _ _ _ _ ids stored)
    as [[u [n' [us1 [us2 [parts [none1 [none2 [token [-> [named' ->]]]]]]]]]]
       | [none [-> ->]]].
  - apply (store_known _ identity (withName u n')).
    + cbn [withUsers Db.users]. now apply withToken_single.
    + exact named'.
  - apply (store_known _ identity (newUser identity newId)).
    + cbn [withUsers Db.users]. rewrite <- (app_nil_r (Db.users db ++ _)), <- app_assoc.
      now apply withToken_single.
    + cbn [newUser User.name]. now rewrite named.
Qed.

(** Bob, whose document says "bob", signs in as Robert: the name is
    updated, and a second call finds nothing to do. *)
Example store_twice_witness :
  store (withUsers Sample.oneExpense [Sample.alice; withName Sample.bob "Robert"])
        (Some Sample.robert) "u-2"
  = Ok ("bob", withUsers Sample.oneExpense [Sample.alice; withName Sample.bob "Robert"]).
Proof.
  apply (store_twice Sample.oneExpense _ Sample.robert "Robert" "u-1" "u-2" "bob");
    reflexivity.
Defined.

(** X20. [store] keeps the user documents apart: when ids and token identifiers
    are distinct before and the id of a new document is not in use, they are
    distinct after; and exactly one document then carries the token
    identifier of the identity. *)
Theorem store_one_user_per_token
        (db db' : Db.t) (identity : Identity.t) (newId id : Id) :
  distinctIds (map User._id (Db.users db)) = true ->
  distinctIds (map User.tokenIdentifier (Db.users db)) = true ->
  ~ In newId (map User._id (Db.users db)) ->
  store db (Some identity) newId = Ok (id, db') ->
  distinctIds (map User._id (Db.users db')) = true
  /\ distinctIds (map User.tokenIdentifier (Db.users db')) = true
  /\ length (withToken (Identity.tokenIdentifier identity) (Db.users db')) = 1%nat.
Proof.
  intros ids tokens fresh stored. rewrite !distinctIds_NoDup in *.
  destruct (store_cases _ _ _ _ _ (proj2 (distinctIds_NoDup _) ids) stored)
    as [[u [n [us1 [us2 [parts [none1 [none2 [token [-> [named ->]]]]]]]]]]
       | [none [-> ->]]]; cbn [withUsers Db.users].
  - rewrite parts in ids, tokens. rewrite !map_app in *. cbn [map withName User._id
      User.tokenIdentifier] in *. repeat split; [exact ids | exact tokens |].
    now rewrite withToken_single.
  - rewrite !map_app. cbn [map newUser User._id User.tokenIdentifier]. repeat split.
    + apply NoDup_app; [exact ids | repeat constructor; intros [] |].
      now intros x inx [<- | []].
    + apply NoDup_app; [exact tokens | repeat constructor; intros [] |].
      intros x inx [<- | []]. now apply withToken_none in none.
    + rewrite <- (app_nil_r (Db.users db ++ _)), <- app_assoc. cbn [app].
      now rewrite withToken_single.
Qed.

(** Carol's first sign-in on the table of Alice and Bob. *)
Example store_one_user_per_token_witness :
  distinctIds (map User._id [Sample.alice; Sample.bob; newUser Sample.carol "u-carol"]) = true
  /\ distinctIds (map User.tokenIdentifier
                      [Sample.alice; Sample.bob; newUser Sample.carol "u-carol"]) = true
  /\ length (withToken "tok|carol"
                       [Sample.alice; Sample.bob; newUser Sample.carol "u-carol"]) = 1%nat.
Proof.
  apply (store_one_user_per_token Sample.oneExpense
           (withUsers Sample.oneExpense
                      [Sample.alice; Sample.bob; newUser Sample.carol "u-carol"])
           Sample.carol "u-carol" "u-carol"); try reflexivity.
  simpl. intuition discriminate.
Defined.

(** X21. [store] touches the users table only, and in it only the document of
    the identity: expenses, settlements and groups stay as they are, every
    document with another token identifier stays as it is, and the table
    grows by at most the one new document. *)
Theorem store_frame (db db' : Db.t) (identity : Identity.t) (newId id : Id) :
  distinctIds (map User._id (Db.users db)) = true ->
  store db (Some identity) newId = Ok (id, db') ->
  Db.expenses db' = Db.expenses db
  /\ Db.settlements db' = Db.settlements db
  /\ Db.groups db' = Db.groups db
  /\ (forall u, In u (Db.users db) ->
                User.tokenIdentifier u <> Identity.tokenIdentifier identity ->
                In u (Db.users db'))
  /\ (map User._id (Db.users db') = map User._id (Db.users db)
      \/ map User._id (Db.users db') = map User._id (Db.users db) ++ [newId]).
Proof.
  intros ids stored.
  destruct (store_cases _ _ _ _ _ ids stored)
    as [[u [n [us1 [us2 [parts [none1 [none2 [token [-> [named ->]]]]]]]]]]
       | [none [-> ->]]]; cbn [withUsers Db.users Db.expenses Db.settlements Db.groups];
    (do 3 (split; [reflexivity|])); split.
  - intros v inv other. rewrite parts in inv. apply in_app_iff in inv as [inv | [<- | inv]];
      [apply in_or_app; now left | contradiction | apply in_or_app; right; now right].
  - left. rewrite parts, !map_app. reflexivity.
  - intros v inv _. apply in_or_app. now left.
  - right. now rewrite map_app.
Qed.

(** Bob signs in as Robert: Alice's document and the expense stay. *)
Example store_frame_witness :
  [Sample.dinner] = Db.expenses Sample.oneExpense
  /\ @nil Settlement.t = Db.settlements Sample.oneExpense
  /\ @nil Group.t = Db.groups Sample.oneExpense
  /\ (forall u, In u (Db.users Sample.oneExpense) ->
                User.tokenIdentifier u <> "tok|bob" ->
                In u [Sample.alice; withName Sample.bob "Robert"])
  /\ (map User._id [Sample.alice; withName Sample.bob "Robert"]
      = map User._id (Db.users Sample.oneExpense)
      \/ map User._id [Sample.alice; withName Sample.bob "Robert"]
         = map User._id (Db.users Sample.oneExpense) ++ ["u-1"]).
Proof.
  apply (store_frame Sample.oneExpense
           (withUsers Sample.oneExpense [Sample.alice; withName Sample.bob "Robert"])
           Sample.robert "u-1" "bob");
    reflexivity.
Defined.

(** ** contacts.js: createGroup *)

Lemma setAdd_fold_In (l ids : list Id) (x : Id) :
  In x (fold_left (fun set id => setAdd id set) l ids) <-> In x ids \/ In x l.
Proof.
  revert ids. induction l as [|id l IH]; intros ids; simpl; [tauto|].
  rewrite IH, setAdd_In. intuition.
Qed.

Lemma setAdd_fold_NoDup (l ids : list Id) :
  NoDup ids -> NoDup (fold_left (fun set id => setAdd id set) l ids).
Proof.
  revert ids. induction l as [|id l IH]; intros ids nodup; simpl; [exact nodup|].
  now apply IH, setAdd_NoDup.
Qed.

Lemma uniqueMembers_In (currentUser : User.t) (args : GroupArgs.t) (x : Id) :
  In x (uniqueMembers currentUser args)
  <-> In x (User._id currentUser :: GroupArgs.members args).
Proof.
  unfold uniqueMembers. rewrite setAdd_In, setAdd_fold_In. simpl. intuition.
Qed.

Lemma uniqueMembers_NoDup (currentUser : User.t) (args : GroupArgs.t) :
  NoDup (uniqueMembers currentUser args).
Proof. apply setAdd_NoDup, setAdd_fold_NoDup. constructor. Qed.

Lemma validateMembers_outcomes (db : Db.t) (ids : list Id) :
  match validateMembers db ids with
  | Ok _ => forall id, In id ids -> resolves db id = true
  | Throw message =>
      exists id, In id ids /\ resolves db id = false
                 /\ message = ("User with ID " ++ id ++ " not found")%string
  end.
Proof.
  induction ids as [|id ids IH]; simpl; [intros _ []|].
  destruct (Db.get db id) as [u|] eqn:found.
  - destruct (validateMembers db ids).
    + intros x [<- | inx]; [unfold resolves; now rewrite found | now apply IH].
    + destruct IH as [x [inx [missing ->]]]. eauto.
  - exists id. unfold resolves. rewrite found. auto.
Qed.

(** X22. [createGroup] has three outcomes. It fails with "Group name cannot be
    empty" when the trimmed name is empty. Else it fails with "User with ID
    ... not found" for a user id, the creator's or one of the members asked
    for, that has no document. Else every one of these ids has a document,
    and it returns the id of the inserted group. *)
Theorem createGroup_outcomes (trim : string -> string) (db : Db.t) (currentUser : User.t)
        (args : GroupArgs.t) (now : Z) (newId : Id) :
  match createGroup trim db currentUser args now newId with
  | Ok (id, _) =>
      id = newId
      /\ trim (GroupArgs.name args) <> ""
      /\ forall member, In member (User._id currentUser :: GroupArgs.members args) ->
                        resolves db member = true
  | Throw message =>
      (trim (GroupArgs.name args) = "" /\ message = "Group name cannot be empty")
      \/ (trim (GroupArgs.name args) <> ""
          /\ exists member,
               In member (User._id currentUser :: GroupArgs.members args)
               /\ resolves db member = false
               /\ message = ("User with ID " ++ member ++ " not found")%string)
  end.
Proof.
  unfold createGroup.
  destruct (String.eqb_spec (trim (GroupArgs.name args)) "") as [empty|named]; [now left|].
  pose proof (validateMembers_outcomes db (uniqueMembers currentUser args)) as checked.
  destruct (validateMembers db (uniqueMembers currentUser args)); cbn [bind].
  - split; [reflexivity|]. split; [exact named|].
    intros member inm. now apply checked, uniqueMembers_In.
  - right. split; [exact named|]. destruct checked as [member [inm [missing ->]]].
    exists member. apply uniqueMembers_In in inm. auto.
Qed.

Lemma createGroup_ok (trim : string -> string) (db db' : Db.t) (currentUser : User.t)
      (args : GroupArgs.t) (now : Z) (newId id : Id) :
  createGroup trim db currentUser args now newId = Ok (id, db') ->
  id = newId
  /\ db' = Db.mk (Db.users db) (Db.expenses db) (Db.settlements db)
                 (Db.groups db ++ [newGroup trim currentUser args now newId])
  /\ trim (GroupArgs.name args) <> ""
  /\ forall member, In member (uniqueMembers currentUser args) ->
                    resolves db member = true.
Proof.
  unfold createGroup.
  destruct (String.eqb_spec (trim (GroupArgs.name args)) "") as [empty|named];
    [discriminate|].
  pose proof (validateMembers_outcomes db (uniqueMembers currentUser args)) as checked.
  destruct (validateMembers db (uniqueMembers currentUser args)) as [[]|]; cbn [bind];
    [|discriminate].
  intros [= <- <-]. auto.
Qed.

(** X23. The group [createGroup] inserts comes last in the groups table, under
    the id returned and a name that is not empty; it is created by the
    caller; its members are the caller and the members asked for, each one
    once, each with a user document and the time of creation as joining
    time; the caller alone is admin. No other table changes. *)
Theorem created_group (trim : string -> string) (db db' : Db.t) (currentUser : User.t)
        (args : GroupArgs.t) (now : Z) (newId id : Id) :
  createGroup trim db currentUser args now newId = Ok (id, db') ->
  exists group,
    Db.groups db' = Db.groups db ++ [group]
    /\ Db.users db' = Db.users db
    /\ Db.expenses db' = Db.expenses db
    /\ Db.settlements db' = Db.settlements db
    /\ Group._id group = id
    /\ Group.name group <> ""
    /\ Group.createdBy group = User._id currentUser
    /\ NoDup (map Member.userId (Group.members group))
    /\ (forall member, In member (map Member.userId (Group.members group))
                       <-> member = User._id currentUser
                           \/ In member (GroupArgs.members args))
    /\ forall m, In m (Group.members group) ->
                 resolves db (Member.userId m) = true
                 /\ Member.joinedAt m = now
                 /\ (Member.role m = Member.admin
                     <-> Member.userId m = User._id currentUser).
Proof.
  intros created. apply createGroup_ok in created as [-> [-> [named found]]].
  exists (newGroup trim currentUser args now newId).
  cbn [Db.groups Db.users Db.expenses Db.settlements newGroup Group._id Group.name
       Group.createdBy Group.members].
  do 7 (split; [reflexivity || exact named|]).
  rewrite map_map. cbn [Member.userId]. rewrite map_id.
  split; [apply uniqueMembers_NoDup|]. split.
  - intros member. rewrite uniqueMembers_In. simpl. intuition.
  - intros m inm. apply in_map_iff in inm as [member [<- inm]].
    cbn [Member.userId Member.joinedAt Member.role].
    split; [now apply found|]. split; [reflexivity|].
    destruct (String.eqb_spec member (User._id currentUser)); split; congruence.
Qed.

(** Alice makes the group [weekend] on the table of Alice and Bob. *)
Example created_group_witness :
  exists group,
    [newGroup asciiTrim Sample.alice Sample.weekend 1767225600000 "g-1"] = [] ++ [group]
    /\ [Sample.alice; Sample.bob] = [Sample.alice; Sample.bob]
    /\ [Sample.dinner] = [Sample.dinner]
    /\ @nil Settlement.t = []
    /\ Group._id group = "g-1"
    /\ Group.name group <> ""
    /\ Group.createdBy group = "alice"
    /\ NoDup (map Member.userId (Group.members group))
    /\ (forall member, In member (map Member.userId (Group.members group))
                       <-> member = "alice" \/ In member ["bob"; "alice"; "bob"])
    /\ forall m, In m (Group.members group) ->
                 resolves Sample.oneExpense (Member.userId m) = true
                 /\ Member.joinedAt m = 1767225600000
                 /\ (Member.role m = Member.admin <-> Member.userId m = "alice").
Proof.
  apply (created_group asciiTrim Sample.oneExpense
           (Db.mk [Sample.alice; Sample.bob] [Sample.dinner] []
                  [newGroup asciiTrim Sample.alice Sample.weekend 1767225600000 "g-1"])
           Sample.alice Sample.weekend 1767225600000 "g-1" "g-1").
  reflexivity.
Defined.

Lemma filter_none {X} (p : X -> bool) (l : list X) :
  forallb (fun x => negb (p x)) l = true -> filter p l = [].
Proof.
  induction l as [|x l IH]; simpl; [reflexivity|].
  intros none. apply andb_true_iff in none as [px rest].
  apply negb_true_iff in px. rewrite px. now apply IH.
Qed.

Lemma fresh_group_balance (db : Db.t) (user : User.t) (group : Group.t) :
  freshGroupId db (Group._id group) = true -> groupBalance db user group = 0.
Proof.
  unfold freshGroupId, groupBalance. intros fresh.
  apply andb_true_iff in fresh as [noExpense noSettlement].
  rewrite (filter_none _ _ noExpense). rewrite filter_none; [reflexivity|].
  rewrite forallb_forall in *. intros s ins. specialize (noSettlement s ins).
  apply negb_true_iff in noSettlement. now rewrite noSettlement.
Qed.

Lemma newGroup_isMember (trim : string -> string) (currentUser : User.t)
      (args : GroupArgs.t) (now : Z) (newId id : Id) :
  isMember id (newGroup trim currentUser args now newId)
  = (id =? User._id currentUser)%string || existsb (String.eqb id) (GroupArgs.members args).
Proof.
  apply Bool.eq_iff_eq_true. unfold isMember. cbn [newGroup Group.members].
  rewrite orb_true_iff, String.eqb_eq, !existsb_exists. split.
  - intros [m [inm eq]]. apply in_map_iff in inm as [member [<- inm]].
    cbn [Member.userId] in eq. apply String.eqb_eq in eq. subst member.
    apply uniqueMembers_In in inm as [<- | inm]; [now left|].
    right. exists id. split; [exact inm | apply String.eqb_refl].
  - intros isin.
    assert (In id (uniqueMembers currentUser args)) as inm.
    { apply uniqueMembers_In. destruct isin as [-> | [member [inm eq]]]; [now left|].
      apply String.eqb_eq in eq. subst member. now right. }
    eexists. split; [apply in_map; exact inm|]. apply String.eqb_refl.
Qed.

(** X24. When no expense and no settlement refers to the id of the new group,
    [getUserGroups] after [createGroup] gives every user the groups it gave
    before, with the balances it gave, and for the creator and the members
    asked for the new group comes last, with balance 0. *)
Theorem createGroup_then_getUserGroups
        (trim : string -> string) (db db' : Db.t) (currentUser : User.t)
        (args : GroupArgs.t) (now : Z) (newId id : Id) (user : User.t) :
  freshGroupId db newId = true ->
  createGroup trim db currentUser args now newId = Ok (id, db') ->
  exists group,
    Group._id group = id
    /\ getUserGroups db' user
       = getUserGroups db user
         ++ (if (User._id user =? User._id currentUser)%string
                || existsb (String.eqb (User._id user)) (GroupArgs.members args)
             then [EnhancedGroup.mk group id 0]
             else []).
Proof.
  intros fresh created. apply createGroup_ok in created as [-> [-> _]].
  exists (newGroup trim currentUser args now newId). split; [reflexivity|].
  unfold getUserGroups. cbn [Db.groups]. rewrite filter_app, map_app. f_equal.
  cbn [filter]. rewrite newGroup_isMember.
  destruct (_ || _); [|reflexivity]. cbn [map]. do 2 f_equal.
  now apply fresh_group_balance.
Qed.

(** Bob's groups after Alice has made the group [weekend]. *)
Example createGroup_then_getUserGroups_witness :
  exists group,
    Group._id group = "g-1"
    /\ getUserGroups
         (Db.mk [Sample.alice; Sample.bob] [Sample.rent] [] 
                ([Sample.flat]
                 ++ [newGroup asciiTrim Sample.alice Sample.weekend 1767225600000 "g-1"]))
         Sample.bob
       = getUserGroups Sample.oneGroup Sample.bob
         ++ (if ("bob" =? "alice")%string
                || existsb (String.eqb "bob") ["bob"; "alice"; "bob"]
             then [EnhancedGroup.mk group "g-1" 0]
             else []).
Proof.
  apply (createGroup_then_getUserGroups asciiTrim Sample.oneGroup _ Sample.alice
           Sample.weekend 1767225600000 "g-1" "g-1" Sample.bob);
    reflexivity.
Defined.

(** ** users.js: searchUsers *)

Lemma map_filter_key {X Y} (key : X -> Y) (p : Y -> bool) (l : list X) :
  map key (filter (fun x => p (key x)) l) = filter p (map key l).
Proof.
  induction l as [|x l IH]; simpl; [reflexivity|].
  destruct (p (key x)); simpl; now rewrite IH.
Qed.

Section SearchFacts.
Variable searchName : Db.t -> string -> list User.t.
Variable searchEmail : Db.t -> string -> list User.t.
Variable codeUnits : string -> nat.
Variable db : Db.t.
Variable currentUser : User.t.

Lemma searchUsers_ids (text : string) :
  map SearchHit.id (searchUsers searchName searchEmail codeUnits db currentUser text)
  = if (codeUnits text <? 2)%nat then []
    else filter (fun id => negb (id =? User._id currentUser)%string)
                (map User._id (searchName db text)
                 ++ filter (fun id => negb (existsb (fun name => User._id name =? id)%string
                                                    (searchName db text)))
                           (map User._id (searchEmail db text))).
Proof.
  unfold searchUsers. destruct (_ <? _)%nat; [reflexivity|].
  rewrite map_map. cbn [SearchHit.id].
  rewrite (map_filter_key User._id (fun id => negb (id =? User._id currentUser)%string)).
  rewrite map_app. f_equal. f_equal.
  apply (map_filter_key User._id
           (fun id => negb (existsb (fun name => User._id name =? id)%string
                                    (searchName db text)))).
Qed.

(** X25. A user id is among the results of [searchUsers] exactly when the
    text has two UTF-16 code units or more, the id is not the caller's, and
    the name index or the email index selects a document of that id. *)
Theorem searchUsers_hits (text : string) (id : Id) :
  In id (map SearchHit.id
             (searchUsers searchName searchEmail codeUnits db currentUser text))
  <-> (2 <= codeUnits text)%nat
      /\ id <> User._id currentUser
      /\ (In id (map User._id (searchName db text))
          \/ In id (map User._id (searchEmail db text))).
Proof.
  rewrite searchUsers_ids. destruct (Nat.ltb_spec (codeUnits text) 2) as [short|long].
  - simpl. split; [intros [] | intros [long _]; lia].
  - rewrite filter_In, in_app_iff, filter_In, negb_true_iff.
    destruct (String.eqb_spec id (User._id currentUser)) as [self|other].
    + split; [intros [_ no]; discriminate | intros [_ [no _]]; contradiction].
    + split; [intros [[byName | [byEmail _]] _]; auto|].
      intros [_ [_ hit]]. split; [|reflexivity].
      destruct (existsb (fun name => User._id name =? id)%string (searchName db text))
        eqn:named.
      * left. apply existsb_exists in named as [u [inu eq]].
        apply String.eqb_eq in eq. subst id. now apply in_map.
      * destruct hit as [byName | byEmail]; [now left | right; split; auto].
Qed.

(** X26. When neither index selects a document twice, no user is listed
    twice by [searchUsers], also when both indexes select the user. *)
Theorem searchUsers_listed_once (text : string) :
  NoDup (map User._id (searchName db text)) ->
  NoDup (map User._id (searchEmail db text)) ->
  NoDup (map SearchHit.id
             (searchUsers searchName searchEmail codeUnits db currentUser text)).
Proof.
  intros names emails. rewrite searchUsers_ids.
  destruct (_ <? _)%nat; [constructor|].
  apply NoDup_filter, NoDup_app; [exact names | now apply NoDup_filter |].
  intros id byName byEmail. apply filter_In in byEmail as [_ unnamed].
  apply negb_true_iff in unnamed.
  assert (existsb (fun name => User._id name =? id)%string (searchName db text) = true)
    as named; [|congruence].
  apply in_map_iff in byName as [u [<- inu]].
  apply existsb_exists. exists u. split; [exact inu | apply String.eqb_refl].
Qed.
End SearchFacts.

(** Alice searches "bob" on [threeUsers]: the name index selects Bob and
    Bobby, the email index selects Bob again, and Bob is listed once. *)
Example searchUsers_listed_once_witness :
  NoDup (map SearchHit.id
             (searchUsers Sample.prefixName Sample.prefixEmail latinLength
                          Sample.threeUsers Sample.alice "bob"))
  /\ map User._id (Sample.prefixName Sample.threeUsers "bob") = ["bob"; "u-bobby"]
  /\ map User._id (Sample.prefixEmail Sample.threeUsers "bob") = ["bob"]
  /\ map SearchHit.id
         (searchUsers Sample.prefixName Sample.prefixEmail latinLength
                      Sample.threeUsers Sample.alice "bob")
     = ["bob"; "u-bobby"].
Proof.
  split; [|repeat split; reflexivity].
  apply searchUsers_listed_once; apply distinctIds_NoDup; reflexivity.
Defined.

(** * Doubles

    On whole numbers that are safe integers, and whose sum or difference is
    one, the arithmetic of binary64 is exact. The proofs follow the
    operations of the Standard Library's specification of IEEE 754, to which
    the primitive floats are bound. *)

Lemma digits2_size (p : positive) : digits2_pos p = Pos.size p.
Proof. induction p; simpl; congruence. Qed.

Lemma iter_pos_nat {A} (f : A -> A) (p : positive) (x : A) :
  iter_pos f p x = Nat.iter (Pos.to_nat p) f x.
Proof.
  revert x. induction p as [p IH|p IH|]; intros x; cbn [iter_pos].
  - rewrite !IH, Pos2Nat.inj_xI.
    replace (S (2 * Pos.to_nat p))%nat with (Pos.to_nat p + (Pos.to_nat p + 1))%nat by lia.
    rewrite !Nat.iter_add. reflexivity.
  - rewrite !IH, Pos2Nat.inj_xO.
    replace (2 * Pos.to_nat p)%nat with (Pos.to_nat p + Pos.to_nat p)%nat by lia.
    now rewrite Nat.iter_add.
  - reflexivity.
Qed.

Lemma pos_iter_nat {A} (f : A -> A) (p : positive) (x : A) :
  Pos.iter f x p = Nat.iter (Pos.to_nat p) f x.
Proof. apply Pos2Nat.inj_iter. Qed.

Lemma shl_add (p : positive) (j k : nat) : shl (shl p j) k = shl p (k + j).
Proof. unfold shl. now rewrite Nat.iter_add. Qed.

Lemma shl_value (p : positive) (k : nat) : Zpos (shl p k) = Zpos p * 2 ^ Z.of_nat k.
Proof.
  induction k as [|k IH]; [simpl; lia|].
  change (shl p (S k)) with (xO (shl p k)).
  rewrite Pos2Z.inj_xO, IH, Nat2Z.inj_succ, Z.pow_succ_r by lia. lia.
Qed.

Lemma shl_size (p : positive) (k : nat) :
  Zpos (Pos.size (shl p k)) = Zpos (Pos.size p) + Z.of_nat k.
Proof.
  induction k as [|k IH]; [simpl; lia|].
  change (shl p (S k)) with (xO (shl p k)). simpl Pos.size.
  rewrite Pos2Z.inj_succ, IH. lia.
Qed.

Lemma shr_even (p : positive) (k : nat) :
  Nat.iter k shr_1 {| shr_m := Zpos (shl p k); shr_r := false; shr_s := false |}
  = {| shr_m := Zpos p; shr_r := false; shr_s := false |}.
Proof.
  induction k as [|k IH]; [reflexivity|].
  rewrite Nat.iter_succ_r. change (shl p (S k)) with (xO (shl p k)). exact IH.
Qed.

Lemma fexp_small (d : Z) : 1 <= d <= 54 -> fexp prec emax d = d - 53.
Proof. unfold fexp, SpecFloat.emin, prec, emax. lia. Qed.

(** What is left of [binary_round_aux] once the mantissa has 53 digits. *)
Lemma round_tail (s : bool) (m : positive) (e : Z) :
  Zpos (Pos.size m) = 53 -> -52 <= e <= 0 ->
  (let '(mrs, e') :=
     shr_fexp prec emax
              (round_nearest_even
                 (shr_m {| shr_m := Zpos m; shr_r := false; shr_s := false |})
                 (loc_of_shr_record {| shr_m := Zpos m; shr_r := false; shr_s := false |}))
              e loc_Exact in
   match shr_m mrs with
   | Z0 => S754_zero s
   | Zpos m' => if e' <=? emax - prec then S754_finite s m' e' else S754_infinity s
   | Zneg _ => S754_nan
   end)
  = S754_finite s m e.
Proof.
  intros full range.
  cbn [shr_m loc_of_shr_record round_nearest_even].
  unfold shr_fexp, shr_record_of_loc. cbn [Zdigits2].
  rewrite digits2_size, full, fexp_small by lia.
  replace (53 + e - 53 - e) with 0 by lia. cbn [shr shr_m].
  assert ((e <=? emax - prec) = true) as ->; [|reflexivity].
  apply Z.leb_le. unfold prec, emax. lia.
Qed.

(** A mantissa of 53 digits is kept as it is. *)
Lemma round_full (s : bool) (m : positive) (e : Z) :
  Zpos (Pos.size m) = 53 -> -52 <= e <= 0 ->
  binary_round_aux prec emax s (Zpos m) e loc_Exact = S754_finite s m e.
Proof.
  intros full range. unfold binary_round_aux.
  unfold shr_fexp at 1. unfold shr_record_of_loc. cbn [Zdigits2].
  rewrite digits2_size, full, fexp_small by lia.
  replace (53 + e - 53 - e) with 0 by lia. cbn [shr].
  now apply round_tail.
Qed.

(** Rounding a whole number of at most 53 digits, given with trailing
    zeros, gives the number with its mantissa filled to 53 digits. *)
Lemma round_scaled (s : bool) (n : positive) (k : nat) :
  Zpos (Pos.size n) <= 53 -> (k <= 52)%nat ->
  binary_round prec emax s (shl n k) (- Z.of_nat k)
  = S754_finite s (shl n (Z.to_nat (53 - Zpos (Pos.size n)))) (Zpos (Pos.size n) - 53).
Proof.
  intros short few. unfold binary_round.
  rewrite digits2_size, shl_size.
  replace (Zpos (Pos.size n) + Z.of_nat k + - Z.of_nat k) with (Zpos (Pos.size n)) by lia.
  rewrite fexp_small by lia.
  unfold shl_align.
  destruct (Zpos (Pos.size n) - 53 - - Z.of_nat k) as [|j|d] eqn:gap.
  - replace (Z.to_nat (53 - Zpos (Pos.size n))) with k by lia.
    replace (Zpos (Pos.size n) - 53) with (- Z.of_nat k) by lia.
    apply round_full; [rewrite shl_size|]; lia.
  - unfold binary_round_aux. unfold shr_fexp at 1. unfold shr_record_of_loc.
    cbn [Zdigits2]. rewrite digits2_size, shl_size.
    replace (Zpos (Pos.size n) + Z.of_nat k + - Z.of_nat k) with (Zpos (Pos.size n)) by lia.
    rewrite fexp_small, gap by lia. cbn [shr].
    rewrite iter_pos_nat.
    assert (shl n k = shl (shl n (k - Pos.to_nat j)) (Pos.to_nat j)) as ->.
    { rewrite shl_add. f_equal. lia. }
    rewrite shr_even.
    replace (- Z.of_nat k + Zpos j) with (Zpos (Pos.size n) - 53) by lia.
    replace (Z.to_nat (53 - Zpos (Pos.size n))) with (k - Pos.to_nat j)%nat by lia.
    apply round_tail; [rewrite shl_size|]; lia.
  - rewrite pos_iter_nat. fold (shl (shl n k) (Pos.to_nat d)). rewrite shl_add.
    replace (Z.to_nat (53 - Zpos (Pos.size n))) with (Pos.to_nat d + k)%nat by lia.
    apply round_full; [rewrite shl_size|]; lia.
Qed.


Lemma size_safe (p : positive) : Zpos p <= maxSafe -> 1 <= Zpos (Pos.size p) <= 53.
Proof.
  intros small. split; [lia|].
  destruct (Z.le_gt_cases (Zpos (Pos.size p)) 53) as [ok|big]; [exact ok|].
  pose proof (Pos.size_le p) as low.
  apply Pos2Z.pos_le_pos in low. rewrite Pos2Z.inj_pow in low.
  change (Zpos 2) with 2 in low.
  assert (2 ^ 54 <= 2 ^ Zpos (Pos.size p)) as many by (apply Z.pow_le_mono_r; lia).
  unfold maxSafe in small. change (2 ^ 54) with 18014398509481984 in many. lia.
Qed.

Lemma canon_finite (s : bool) (p : positive) :
  Zpos p <= maxSafe ->
  canon (cond_Zopp s (Zpos p)) = S754_finite s (mant p) (expo p).
Proof.
  intros small. pose proof (size_safe p small) as short.
  unfold canon, binary_normalize.
  destruct s; cbn [cond_Zopp Z.opp];
    apply (round_scaled _ p 0); lia.
Qed.

Lemma canon_pos (p : positive) :
  Zpos p <= maxSafe -> canon (Zpos p) = S754_finite false (mant p) (expo p).
Proof. apply (canon_finite false). Qed.

Lemma canon_neg (p : positive) :
  Zpos p <= maxSafe -> canon (Zneg p) = S754_finite true (mant p) (expo p).
Proof. apply (canon_finite true). Qed.

Lemma canon_valid (n : Z) : - maxSafe <= n <= maxSafe -> valid_binary (canon n) = true.
Proof.
  intros safe. destruct n as [|p|p]; [reflexivity| |].
  - rewrite canon_pos by lia. pose proof (size_safe p) as short.
    unfold valid_binary, SpecFloat.valid_binary, bounded, canonical_mantissa, mant, expo.
    rewrite digits2_size, shl_size, fexp_small by lia.
    apply andb_true_iff. split; [apply Z.eqb_eq | apply Z.leb_le; unfold emax, prec]; lia.
  - rewrite canon_neg by lia. pose proof (size_safe p) as short.
    unfold valid_binary, SpecFloat.valid_binary, bounded, canonical_mantissa, mant, expo.
    rewrite digits2_size, shl_size, fexp_small by lia.
    apply andb_true_iff. split; [apply Z.eqb_eq | apply Z.leb_le; unfold emax, prec]; lia.
Qed.

(** The mantissa of a whole number, brought to a lower exponent. *)
Lemma align_mant (p : positive) (ez : Z) :
  1 <= Zpos (Pos.size p) <= 53 -> -52 <= ez <= expo p ->
  fst (shl_align (mant p) (expo p) ez) = shl p (Z.to_nat (- ez)).
Proof.
  intros short low. unfold shl_align, mant, expo in *.
  destruct (ez - (Zpos (Pos.size p) - 53)) as [|j|d] eqn:gap; cbn [fst].
  - f_equal. lia.
  - lia.
  - rewrite pos_iter_nat. fold (shl (shl p (Z.to_nat (53 - Zpos (Pos.size p)))) (Pos.to_nat d)).
    rewrite shl_add. f_equal. lia.
Qed.

Lemma scaled_sign (s : bool) (p : positive) (k : nat) :
  cond_Zopp s (Zpos (shl p k)) = cond_Zopp s (Zpos p) * 2 ^ Z.of_nat k.
Proof. destruct s; cbn [cond_Zopp]; rewrite shl_value; lia. Qed.

Lemma normalize_scaled (n : Z) (k : nat) (e : Z) :
  - maxSafe <= n <= maxSafe -> (k <= 52)%nat -> e = - Z.of_nat k ->
  binary_normalize prec emax (n * 2 ^ Z.of_nat k) e false = canon n.
Proof.
  intros safe few ->. destruct n as [|p|p].
  - reflexivity.
  - rewrite <- shl_value. cbn [binary_normalize].
    rewrite canon_pos by lia. apply round_scaled; [apply size_safe|]; lia.
  - change (Zneg p) with (- Zpos p). rewrite Z.mul_opp_l, <- shl_value.
    cbn [binary_normalize Z.opp].
    rewrite canon_neg by lia. apply round_scaled; [apply size_safe|]; lia.
Qed.

Lemma add_finite (sa sb : bool) (pa pb : positive) :
  Zpos pa <= maxSafe -> Zpos pb <= maxSafe ->
  - maxSafe <= cond_Zopp sa (Zpos pa) + cond_Zopp sb (Zpos pb) <= maxSafe ->
  SFadd prec emax (S754_finite sa (mant pa) (expo pa)) (S754_finite sb (mant pb) (expo pb))
  = canon (cond_Zopp sa (Zpos pa) + cond_Zopp sb (Zpos pb)).
Proof.
  intros smallA smallB safe.
  pose proof (size_safe pa smallA) as shortA. pose proof (size_safe pb smallB) as shortB.
  cbn [SFadd].
  match goal with
  | |- binary_normalize _ _ _ ?e _ = _ => set (ez := e)
  end.
  assert (-52 <= ez <= expo pa /\ ez <= expo pb /\ ez <= 0) as [[low leA] [leB neg]]
      by (unfold ez, expo; lia).
  clearbody ez.
  rewrite !align_mant by lia.
  rewrite !scaled_sign, <- Z.mul_add_distr_r.
  apply normalize_scaled; [exact safe | lia | lia].
Qed.

Lemma nonzero_form (n : Z) :
  n <> 0 -> exists s p, n = cond_Zopp s (Zpos p).
Proof.
  destruct n as [|p|p]; [congruence | exists false, p | exists true, p]; reflexivity.
Qed.

Lemma SFadd_canon (a b : Z) :
  - maxSafe <= a <= maxSafe -> - maxSafe <= b <= maxSafe ->
  - maxSafe <= a + b <= maxSafe ->
  SFadd prec emax (canon a) (canon b) = canon (a + b).
Proof.
  intros safeA safeB safe.
  destruct (Z.eq_dec a 0) as [-> | nzA].
  { destruct (Z.eq_dec b 0) as [-> | nzB]; [reflexivity|].
    destruct (nonzero_form b nzB) as [s [p ->]]. rewrite Z.add_0_l.
    rewrite canon_finite; [reflexivity | destruct s; cbn [cond_Zopp] in *; lia]. }
  destruct (nonzero_form a nzA) as [sa [pa ->]].
  destruct (Z.eq_dec b 0) as [-> | nzB].
  { rewrite Z.add_0_r.
    rewrite canon_finite; [reflexivity | destruct sa; cbn [cond_Zopp] in *; lia]. }
  destruct (nonzero_form b nzB) as [sb [pb ->]].
  rewrite !canon_finite by (destruct sa, sb; cbn [cond_Zopp] in *; lia).
  apply add_finite; [destruct sa | destruct sb | exact safe]; cbn [cond_Zopp] in *; lia.
Qed.

Lemma SFsub_canon (a b : Z) :
  - maxSafe <= a <= maxSafe -> - maxSafe <= b <= maxSafe ->
  - maxSafe <= a - b <= maxSafe ->
  SFsub prec emax (canon a) (canon b) = canon (a - b).
Proof.
  intros safeA safeB safe.
  replace (a - b) with (a + - b) in * by lia.
  rewrite <- (SFadd_canon a (- b)) by lia.
  destruct b as [|pb|pb]; cbn [Z.opp].
  - destruct a as [|pa|pa]; [reflexivity| |];
      rewrite ?canon_pos, ?canon_neg by lia; reflexivity.
  - rewrite canon_pos, canon_neg by lia.
    destruct a as [|pa|pa]; [reflexivity| |];
      rewrite ?canon_pos, ?canon_neg by lia; reflexivity.
  - rewrite canon_pos, canon_neg by lia.
    destruct a as [|pa|pa]; [reflexivity| |];
      rewrite ?canon_pos, ?canon_neg by lia; reflexivity.
Qed.

Lemma Prim2SF_ofZ (n : Z) : - maxSafe <= n <= maxSafe -> Prim2SF (ofZ n) = canon n.
Proof. intros safe. apply Prim2SF_SF2Prim, canon_valid, safe. Qed.

(** On whole numbers that are safe, and whose sum or difference is, the
    arithmetic of doubles is exact. *)
Lemma add_ofZ (a b : Z) :
  - maxSafe <= a <= maxSafe -> - maxSafe <= b <= maxSafe ->
  - maxSafe <= a + b <= maxSafe ->
  (ofZ a + ofZ b)%float = ofZ (a + b).
Proof.
  intros safeA safeB safe. apply Prim2SF_inj.
  rewrite add_spec, !Prim2SF_ofZ by assumption. now apply SFadd_canon.
Qed.

Lemma sub_ofZ (a b : Z) :
  - maxSafe <= a <= maxSafe -> - maxSafe <= b <= maxSafe ->
  - maxSafe <= a - b <= maxSafe ->
  (ofZ a - ofZ b)%float = ofZ (a - b).
Proof.
  intros safeA safeB safe. apply Prim2SF_inj.
  rewrite sub_spec, !Prim2SF_ofZ by assumption. now apply SFsub_canon.
Qed.

Lemma abs_ofZ (n : Z) : - maxSafe <= n <= maxSafe -> abs (ofZ n) = ofZ (Z.abs n).
Proof.
  intros safe. apply Prim2SF_inj.
  rewrite abs_spec, !Prim2SF_ofZ by lia.
  destruct n as [|p|p]; [reflexivity| |]; cbn [Z.abs];
    now rewrite ?canon_pos, ?canon_neg by lia.
Qed.

Lemma eqb_zero_ofZ (n : Z) :
  - maxSafe <= n <= maxSafe -> (ofZ n =? 0)%float = (n =? 0).
Proof.
  intros safe. rewrite FloatAxioms.eqb_spec, Prim2SF_ofZ by assumption.
  change (Prim2SF 0) with (S754_zero false).
  destruct n as [|p|p]; [reflexivity| |];
    now rewrite ?canon_pos, ?canon_neg by lia.
Qed.

Lemma ltb_zero_ofZ (n : Z) :
  - maxSafe <= n <= maxSafe -> (0 <? ofZ n)%float = (0 <? n).
Proof.
  intros safe. rewrite FloatAxioms.ltb_spec, Prim2SF_ofZ by assumption.
  change (Prim2SF 0) with (S754_zero false).
  destruct n as [|p|p]; [reflexivity| |];
    now rewrite ?canon_pos, ?canon_neg by lia.
Qed.

Lemma ltb_ofZ_zero (n : Z) :
  - maxSafe <= n <= maxSafe -> (ofZ n <? 0)%float = (n <? 0).
Proof.
  intros safe. rewrite FloatAxioms.ltb_spec, Prim2SF_ofZ by assumption.
  change (Prim2SF 0) with (S754_zero false).
  destruct n as [|p|p]; [reflexivity| |];
    now rewrite ?canon_pos, ?canon_neg by lia.
Qed.

Lemma ofZ_not_nan (n : Z) : - maxSafe <= n <= maxSafe -> (ofZ n =? ofZ n)%float = true.
Proof.
  intros safe. rewrite FloatAxioms.eqb_spec, Prim2SF_ofZ by assumption.
  destruct n as [|p|p]; [reflexivity| |]; rewrite ?canon_pos, ?canon_neg by lia;
    unfold SFeqb, SFcompare; rewrite Z.compare_refl, Pos.compare_cont_refl; reflexivity.
Qed.

(** * Whole amounts: the handlers on doubles compute exactly *)

Lemma sumOf_nonneg {X} (f : X -> Z) (l : list X) :
  (forall x, 0 <= f x) -> 0 <= sumOf f l.
Proof.
  intros nonneg. induction l as [|x l IH]; simpl; [lia|]. specialize (nonneg x). lia.
Qed.

Lemma sumOf_In_le {X} (f : X -> Z) (l : list X) (x : X) :
  (forall x, 0 <= f x) -> In x l -> f x <= sumOf f l.
Proof.
  intros nonneg. induction l as [|y l IH]; simpl; [intros []|].
  pose proof (sumOf_nonneg f l nonneg). pose proof (nonneg y).
  intros [-> | inx]; [lia | specialize (IH inx); lia].
Qed.

Lemma sumOf_filter_le {X} (f : X -> Z) (keep : X -> bool) (l : list X) :
  (forall x, 0 <= f x) -> sumOf f (filter keep l) <= sumOf f l.
Proof.
  intros nonneg. induction l as [|x l IH]; simpl; [lia|].
  pose proof (nonneg x). destruct (keep x); simpl; lia.
Qed.

Lemma filter_map_comm {X Y} (f : X -> Y) (p : Y -> bool) (q : X -> bool) (l : list X) :
  (forall x, p (f x) = q x) -> filter p (map f l) = map f (filter q l).
Proof.
  intros same. induction l as [|x l IH]; simpl; [reflexivity|].
  rewrite same. destruct (q x); simpl; now rewrite IH.
Qed.

Lemma find_map_comm {X Y} (f : X -> Y) (p : Y -> bool) (q : X -> bool) (l : list X) :
  (forall x, p (f x) = q x) -> find p (map f l) = option_map f (find q l).
Proof.
  intros same. induction l as [|x l IH]; simpl; [reflexivity|].
  rewrite same. now destruct (q x).
Qed.

Lemma existsb_map_comm {X Y} (f : X -> Y) (p : Y -> bool) (q : X -> bool) (l : list X) :
  (forall x, p (f x) = q x) -> existsb p (map f l) = existsb q l.
Proof.
  intros same. induction l as [|x l IH]; simpl; [reflexivity|]. now rewrite same, IH.
Qed.

Lemma hasSplit_ofExpense (id : Id) (e : Expense.t) :
  Double.hasSplit id (ofExpense e) = hasSplit id e.
Proof.
  unfold Double.hasSplit, hasSplit, ofExpense. cbn [Double.Expense.splits].
  now apply existsb_map_comm.
Qed.

Lemma findSplit_ofExpense (id : Id) (e : Expense.t) :
  Double.findSplit id (ofExpense e) = option_map ofSplit (findSplit id e).
Proof.
  unfold Double.findSplit, findSplit, ofExpense. cbn [Double.Expense.splits].
  now apply find_map_comm.
Qed.

(** ** The ledger *)

Lemma within_mono (low high : Z) (st : Ledger.t) :
  low <= high -> within low st -> within high st.
Proof.
  intros le [totals tallies]. split; [lia|].
  eapply Forall_impl; [|exact tallies]. cbv beta. intros entry small. lia.
Qed.

Lemma upsert_within (uid : Id) (f : Tally.t -> Tally.t) (m : BalanceMap) (low high : Z) :
  0 <= low <= high ->
  (forall x, Z.abs (Tally.owed x) + Z.abs (Tally.owing x) <= low ->
             Z.abs (Tally.owed (f x)) + Z.abs (Tally.owing (f x)) <= high) ->
  Forall (fun entry => Z.abs (Tally.owed (snd entry)) + Z.abs (Tally.owing (snd entry))
                       <= low) m ->
  Forall (fun entry => Z.abs (Tally.owed (snd entry)) + Z.abs (Tally.owing (snd entry))
                       <= high) (upsert uid f m).
Proof.
  intros range grows. induction 1 as [|[k x] m here rest IH]; simpl.
  - constructor; [|constructor]. cbn [snd]. apply grows. simpl. lia.
  - cbn [snd] in here. destruct (k =? uid)%string; constructor; cbn [snd]; auto; try lia.
    eapply Forall_impl; [|exact rest]. cbv beta. intros entry small. lia.
Qed.

Lemma upsert_exact (uid : Id) (f : Tally.t -> Tally.t)
      (F : Double.Tally.t -> Double.Tally.t) (m : BalanceMap) (low : Z) :
  0 <= low ->
  (forall x, Z.abs (Tally.owed x) + Z.abs (Tally.owing x) <= low ->
             F (ofTally x) = ofTally (f x)) ->
  Forall (fun entry => Z.abs (Tally.owed (snd entry)) + Z.abs (Tally.owing (snd entry))
                       <= low) m ->
  Double.upsert uid F (ofBalanceMap m) = ofBalanceMap (upsert uid f m).
Proof.
  intros range same. induction 1 as [|[k x] m here rest IH]; simpl.
  - f_equal. f_equal. apply (same Tally.zero). simpl. lia.
  - cbn [snd fst] in *. destruct (k =? uid)%string; simpl; [now rewrite same|].
    now rewrite IH.
Qed.

Lemma fold_exact {X Y} (toY : X -> Y) (cost : X -> Z)
      (stepZ : Ledger.t -> X -> Ledger.t)
      (stepF : Double.Ledger.t -> Y -> Double.Ledger.t) :
  (forall x, 0 <= cost x) ->
  exactStep toY cost stepZ stepF ->
  forall l bound st,
    0 <= bound -> within bound st -> bound + sumOf cost l <= maxSafe ->
    fold_left stepF (map toY l) (ofLedger st) = ofLedger (fold_left stepZ l st)
    /\ within (bound + sumOf cost l) (fold_left stepZ l st).
Proof.
  intros nonneg step. induction l as [|x l IH]; intros bound st range inside room; simpl in *.
  - split; [reflexivity|]. now rewrite Z.add_0_r.
  - pose proof (nonneg x). pose proof (sumOf_nonneg cost l nonneg).
    destruct (step bound st x) as [same inside']; [lia | assumption | lia|].
    rewrite same.
    destruct (IH (bound + cost x) (stepZ st x)) as [rest inside'']; [lia | assumption | lia|].
    split; [exact rest|]. now rewrite Z.add_assoc.
Qed.

Section LedgerExact.
Variable user : User.t.

Lemma creditSplit_exact :
  exactStep ofSplit (fun s => Z.abs (Split.amount s))
            (creditSplit user) (Double.creditSplit user).
Proof.
  intros bound st s range [totals tallies] room.
  unfold Double.creditSplit, creditSplit, ofSplit.
  cbn [Double.Split.userId Double.Split.paid Double.Split.amount].
  destruct (_ || _).
  - split; [reflexivity|]. apply (within_mono bound); [lia | now split].
  - split.
    + unfold ofLedger at 2. cbn [Ledger.youOwe Ledger.youAreOwed Ledger.balanceByUser].
      unfold ofLedger. cbn [Double.Ledger.youOwe Double.Ledger.youAreOwed
                              Double.Ledger.balanceByUser].
      f_equal.
      * apply add_ofZ; lia.
      * apply (upsert_exact _ _ _ _ bound range); [|exact tallies].
        intros x small. unfold ofTally, Tally.addOwed. cbn. f_equal. apply add_ofZ; lia.
    + split; cbn [Ledger.youOwe Ledger.youAreOwed Ledger.balanceByUser]; [lia|].
      apply (upsert_within _ _ _ bound); [lia | | exact tallies].
      intros x small. unfold Tally.addOwed. cbn. lia.
Qed.

Lemma expenseStep_exact :
  exactStep ofExpense splitWeight (expenseStep user) (Double.expenseStep user).
Proof.
  intros bound st e range inside room.
  unfold Double.expenseStep, expenseStep. rewrite findSplit_ofExpense.
  unfold ofExpense at 1 2. cbn [Double.Expense.paidByUserId Double.Expense.splits].
  destruct (_ =? _)%string.
  - apply (fold_exact ofSplit (fun s => Z.abs (Split.amount s))); auto using creditSplit_exact.
    intros s. lia.
  - assert (0 <= splitWeight e) as heavy by (apply sumOf_nonneg; intros s; lia).
    destruct (findSplit _ e) as [mine|] eqn:found; cbn [option_map];
      [|split; [reflexivity | apply (within_mono bound); [lia | assumption]]].
    apply find_some in found as [inMine _].
    pose proof (sumOf_In_le (fun s => Z.abs (Split.amount s)) _ mine
                            (fun s => Z.abs_nonneg _) inMine) as light.
    fold (splitWeight e) in light. cbv beta in light.
    unfold ofSplit at 1. cbn [Double.Split.paid].
    destruct (negb _);
      [|split; [reflexivity | apply (within_mono bound); [lia | assumption]]].
    destruct inside as [totals tallies].
    unfold ofSplit. cbn [Double.Split.amount]. split.
    + unfold ofLedger at 2. cbn [Ledger.youOwe Ledger.youAreOwed Ledger.balanceByUser].
      unfold ofLedger. cbn [Double.Ledger.youOwe Double.Ledger.youAreOwed
                              Double.Ledger.balanceByUser].
      f_equal.
      * apply add_ofZ; lia.
      * apply (upsert_exact _ _ _ _ bound range); [|exact tallies].
        intros x small. unfold ofTally, Tally.addOwing. cbn. f_equal. apply add_ofZ; lia.
    + split; cbn [Ledger.youOwe Ledger.youAreOwed Ledger.balanceByUser]; [lia|].
      apply (upsert_within _ _ _ bound); [lia | | exact tallies].
      intros x small. unfold Tally.addOwing. cbn. lia.
Qed.

Lemma settlementStep_exact :
  exactStep ofSettlement (fun s => Z.abs (Settlement.amount s))
            (settlementStep user) (Double.settlementStep user).
Proof.
  intros bound st s range [totals tallies] room.
  unfold Double.settlementStep, settlementStep, ofSettlement.
  cbn [Double.Settlement.paidByUserId Double.Settlement.receivedByUserId
       Double.Settlement.amount].
  destruct (_ =? _)%string.
  - split.
    + unfold ofLedger at 2. cbn [Ledger.youOwe Ledger.youAreOwed Ledger.balanceByUser].
      unfold ofLedger. cbn [Double.Ledger.youOwe Double.Ledger.youAreOwed
                              Double.Ledger.balanceByUser].
      f_equal.
      * apply sub_ofZ; lia.
      * apply (upsert_exact _ _ _ _ bound range); [|exact tallies].
        intros x small. unfold ofTally, Tally.addOwing. cbn. f_equal.
        rewrite sub_ofZ by lia. reflexivity.
    + split; cbn [Ledger.youOwe Ledger.youAreOwed Ledger.balanceByUser]; [lia|].
      apply (upsert_within _ _ _ bound); [lia | | exact tallies].
      intros x small. unfold Tally.addOwing. cbn. lia.
  - split.
    + unfold ofLedger at 2. cbn [Ledger.youOwe Ledger.youAreOwed Ledger.balanceByUser].
      unfold ofLedger. cbn [Double.Ledger.youOwe Double.Ledger.youAreOwed
                              Double.Ledger.balanceByUser].
      f_equal.
      * apply sub_ofZ; lia.
      * apply (upsert_exact _ _ _ _ bound range); [|exact tallies].
        intros x small. unfold ofTally, Tally.addOwed. cbn. f_equal.
        rewrite sub_ofZ by lia. reflexivity.
    + split; cbn [Ledger.youOwe Ledger.youAreOwed Ledger.balanceByUser]; [lia|].
      apply (upsert_within _ _ _ bound); [lia | | exact tallies].
      intros x small. unfold Tally.addOwed. cbn. lia.
Qed.

Lemma involvedExpenses_ofDb (db : Db.t) :
  Double.involvedExpenses (ofDb db) user = map ofExpense (involvedExpenses db user).
Proof.
  unfold Double.involvedExpenses, involvedExpenses, ofDb. cbn [Double.Db.expenses].
  apply filter_map_comm. intros e. now rewrite hasSplit_ofExpense.
Qed.

Lemma involvedSettlements_ofDb (db : Db.t) :
  Double.involvedSettlements (ofDb db) user
  = map ofSettlement (involvedSettlements db user).
Proof.
  unfold Double.involvedSettlements, involvedSettlements, ofDb.
  cbn [Double.Db.settlements]. now apply filter_map_comm.
Qed.

(** The ledger on doubles is the ledger in exact arithmetic. *)
Lemma ledger_exact (db : Db.t) :
  safe db ->
  Double.ledger (ofDb db) user = ofLedger (ledger db user)
  /\ within (weight db) (ledger db user).
Proof.
  unfold safe, weight. intros room.
  assert (0 <= sumOf splitWeight (Db.expenses db)) as heavyE.
  { apply sumOf_nonneg. intros e. apply sumOf_nonneg. intros s. lia. }
  assert (0 <= sumOf (fun s => Z.abs (Settlement.amount s)) (Db.settlements db)) as heavyS.
  { apply sumOf_nonneg. intros s. lia. }
  assert (forall e, 0 <= splitWeight e) as nonnegE.
  { intros e. apply sumOf_nonneg. intros s. lia. }
  assert (sumOf splitWeight (involvedExpenses db user)
          <= sumOf splitWeight (Db.expenses db)) as lightE.
  { apply sumOf_filter_le, nonnegE. }
  assert (sumOf (fun s => Z.abs (Settlement.amount s)) (involvedSettlements db user)
          <= sumOf (fun s => Z.abs (Settlement.amount s)) (Db.settlements db)) as lightS.
  { apply sumOf_filter_le. intros s. lia. }
  pose proof (sumOf_nonneg splitWeight (involvedExpenses db user) nonnegE) as heavyI.
  unfold Double.ledger, Double.expenseLedger, ledger, expenseLedger.
  rewrite involvedExpenses_ofDb, involvedSettlements_ofDb.
  destruct (fold_exact ofExpense splitWeight _ _ nonnegE expenseStep_exact
                       (involvedExpenses db user) 0 Ledger.init)
    as [sameE insideE]; [lia | | lia |].
  { split; simpl; [lia | constructor]. }
  change Double.Ledger.init with (ofLedger Ledger.init). rewrite sameE.
  destruct (fold_exact ofSettlement (fun s => Z.abs (Settlement.amount s)) _ _
                       (fun s => Z.abs_nonneg _) settlementStep_exact
                       (involvedSettlements db user)
                       (0 + sumOf splitWeight (involvedExpenses db user))
                       (fold_left (expenseStep user) (involvedExpenses db user) Ledger.init))
    as [sameS insideS]; [lia | assumption | lia |].
  split; [exact sameS|]. eapply within_mono; [|exact insideS]. lia.
Qed.
End LedgerExact.

(** ** Sorting by a comparator that agrees in sign *)

Section SortAgree.
Context {X Y : Type}.
Variable f : X -> Y.
Variable compareX : X -> X -> Z.
Variable compareY : Y -> Y -> Z.
Variable fine : X -> Prop.
Hypothesis agree :
  forall a b, fine a -> fine b -> (compareY (f a) (f b) <? 0) = (compareX a b <? 0).

Lemma nth_fine (work : list X) (pivot : X) (i : nat) :
  fine pivot -> Forall fine work -> fine (nth i work pivot).
Proof.
  intros fp fw. revert i. induction fw as [|x work fx fw IH]; intros [|i]; simpl; auto.
Qed.

Lemma binarySearch_agree (pivot : X) (work : list X) (lo hi : nat) :
  fine pivot -> Forall fine work ->
  JsArray.binarySearch compareY (f pivot) (map f work) lo hi
  = JsArray.binarySearch compareX pivot work lo hi.
Proof.
  intros fp fw.
  funelim (JsArray.binarySearch compareX pivot work lo hi);
    rewrite (binarySearch_unfold compareY);
    match goal with
    | cond : (lo <? hi)%nat = _ |- _ => rewrite cond
    end;
    try (rewrite map_nth, agree by auto using nth_fine);
    try match goal with
        | order : (_ <? 0) = _ |- _ => rewrite order
        end;
    auto.
Qed.

Lemma binaryInsert_agree (sorted : list X) (pivot : X) :
  fine pivot -> Forall fine sorted ->
  JsArray.binaryInsert compareY (map f sorted) (f pivot)
  = map f (JsArray.binaryInsert compareX sorted pivot).
Proof.
  intros fp fw. unfold JsArray.binaryInsert, JsArray.insertAt.
  rewrite length_map, binarySearch_agree, map_app, firstn_map by assumption. simpl.
  now rewrite skipn_map.
Qed.

Lemma binaryInsert_fine (sorted : list X) (pivot : X) :
  fine pivot -> Forall fine sorted ->
  Forall fine (JsArray.binaryInsert compareX sorted pivot).
Proof.
  intros fp fw. unfold JsArray.binaryInsert.
  eapply Permutation_Forall; [symmetry; apply insertAt_perm|]. now constructor.
Qed.

Lemma binaryInsertionSort_agree (rest run : list X) :
  Forall fine run -> Forall fine rest ->
  JsArray.binaryInsertionSort compareY (map f run) (map f rest)
  = map f (JsArray.binaryInsertionSort compareX run rest).
Proof.
  unfold JsArray.binaryInsertionSort.
  revert run. induction rest as [|pivot rest IH]; intros run fr fw; simpl; [reflexivity|].
  inversion fw as [|? ? fp fw']; subst.
  rewrite binaryInsert_agree by assumption. apply IH; [|assumption].
  now apply binaryInsert_fine.
Qed.

Lemma extendRun_agree (descending : bool) (l : list X) (previous : X) :
  fine previous -> Forall fine l ->
  JsArray.extendRun compareY descending (f previous) (map f l)
  = (map f (fst (JsArray.extendRun compareX descending previous l)),
     map f (snd (JsArray.extendRun compareX descending previous l))).
Proof.
  intros fp fl. revert previous fp.
  induction fl as [|current tl fc fl IH]; intros previous fp; simpl; [reflexivity|].
  rewrite !(Z.leb_antisym _ 0), agree by assumption.
  destruct (if descending then _ else _); [|reflexivity].
  rewrite IH by assumption.
  now destruct (JsArray.extendRun compareX descending current tl).
Qed.

Lemma sort_agree (l : list X) :
  Forall fine l ->
  JsArray.sort compareY (map f l) = map f (JsArray.sort compareX l).
Proof.
  intros fl. unfold JsArray.sort.
  destruct l as [|low [|next tl]]; try reflexivity.
  inversion fl as [|? ? flow fl']; subst. inversion fl' as [|? ? fnext ftl]; subst.
  unfold JsArray.countAndMakeRun. cbn [map].
  rewrite agree, extendRun_agree by assumption.
  pose proof (extendRun_app compareX (compareX next low <? 0) tl next) as whole.
  destruct (JsArray.extendRun compareX _ next tl) as [run rest]. cbn [fst snd] in *.
  rewrite <- whole in ftl. apply Forall_app in ftl as [frun frest].
  destruct (compareX next low <? 0).
  - change (f low :: f next :: map f run) with (map f (low :: next :: run)).
    rewrite <- map_rev. apply binaryInsertionSort_agree; [|assumption].
    apply Forall_rev. now repeat constructor.
  - apply (binaryInsertionSort_agree rest (low :: next :: run)); [|assumption].
    now repeat constructor.
Qed.
End SortAgree.

(** ** getUserBalances *)

Lemma order_negative (x : float) : (Double.order x <? 0) = (x <? 0)%float.
Proof.
  unfold Double.order. destruct (x <? 0)%float; [reflexivity|].
  now destruct (0 <? x)%float.
Qed.

Lemma byAmountDescending_agree (a b : OweEntry.t) :
  fineAmount a -> fineAmount b ->
  (Double.byAmountDescending (ofOweEntry a) (ofOweEntry b) <? 0)
  = (byAmountDescending a b <? 0).
Proof.
  unfold fineAmount, Double.byAmountDescending, byAmountDescending, ofOweEntry.
  intros fa fb. cbn [Double.OweEntry.amount].
  rewrite order_negative, sub_ofZ by lia. apply ltb_ofZ_zero. lia.
Qed.

Section BalancesExact.
Variable db : Db.t.
Variable user : User.t.

Lemma oweEntry_exact (uid : Id) (net : Z) :
  - maxSafe <= net <= maxSafe ->
  Double.oweEntry (ofDb db) uid (ofZ net) = ofOweEntry (oweEntry db uid net).
Proof.
  intros safeNet. unfold Double.oweEntry, oweEntry, ofOweEntry.
  change (Double.Db.get (ofDb db) uid) with (Db.get db uid).
  cbn [OweEntry.userId OweEntry.name OweEntry.imageUrl OweEntry.amount].
  now rewrite abs_ofZ.
Qed.

Lemma listStep_exact (lists : list OweEntry.t * list OweEntry.t) (entry : Id * Tally.t) :
  Z.abs (Tally.owed (snd entry)) + Z.abs (Tally.owing (snd entry)) <= maxSafe ->
  Double.listStep (ofDb db) (ofLists lists) (fst entry, ofTally (snd entry))
  = ofLists (listStep db lists entry).
Proof.
  destruct entry as [uid x]. cbn [fst snd]. intros small.
  unfold Double.listStep, listStep, ofTally.
  cbn [Double.Tally.owed Double.Tally.owing].
  rewrite sub_ofZ, eqb_zero_ofZ, ltb_zero_ofZ, oweEntry_exact by lia.
  destruct (_ =? 0); [reflexivity|].
  destruct (0 <? _); unfold ofLists; cbn [fst snd]; now rewrite map_app.
Qed.

Lemma lists_exact (m : BalanceMap) (lists : list OweEntry.t * list OweEntry.t) :
  Forall (fun entry => Z.abs (Tally.owed (snd entry)) + Z.abs (Tally.owing (snd entry))
                       <= maxSafe) m ->
  fold_left (Double.listStep (ofDb db)) (ofBalanceMap m) (ofLists lists)
  = ofLists (fold_left (listStep db) m lists).
Proof.
  intros small. revert lists.
  induction small as [|entry m here rest IH]; intros lists; [reflexivity|].
  unfold ofBalanceMap. cbn [map fold_left]. fold (ofBalanceMap m).
  now rewrite listStep_exact, IH.
Qed.

Lemma entries_fine (keep : Id * Tally.t -> bool) (m : BalanceMap) :
  Forall (fun entry => Z.abs (Tally.owed (snd entry)) + Z.abs (Tally.owing (snd entry))
                       <= maxSafe) m ->
  Forall fineAmount (map (entryOf db) (filter keep m)).
Proof.
  intros small. apply Forall_forall. intros listed inl.
  apply in_map_iff in inl as [entry [<- ine]]. apply filter_In in ine as [ine _].
  rewrite Forall_forall in small. specialize (small entry ine).
  unfold fineAmount, entryOf, oweEntry, Tally.net. cbn [OweEntry.amount]. lia.
Qed.

(** On whole amounts that together stay a safe integer, [getUserBalances]
    on doubles returns what it returns in exact arithmetic. *)
Lemma getUserBalances_exact :
  safe db ->
  Double.getUserBalances (ofDb db) user = ofBalances (getUserBalances db user).
Proof.
  intros room. destruct (ledger_exact user db room) as [same [totals tallies]].
  unfold safe in room.
  assert (Forall (fun entry => Z.abs (Tally.owed (snd entry))
                               + Z.abs (Tally.owing (snd entry)) <= maxSafe)
                 (Ledger.balanceByUser (ledger db user))) as small.
  { eapply Forall_impl; [|exact tallies]. cbv beta. intros entry light. lia. }
  unfold Double.getUserBalances, getUserBalances. rewrite same.
  cbn [ofLedger Double.Ledger.youOwe Double.Ledger.youAreOwed Double.Ledger.balanceByUser].
  change (@nil Double.OweEntry.t, @nil Double.OweEntry.t) with (ofLists ([], [])).
  rewrite !lists_exact by exact small.
  rewrite listStep_fold. unfold ofLists. cbn [fst snd app].
  rewrite !(sort_agree ofOweEntry byAmountDescending Double.byAmountDescending fineAmount
                       byAmountDescending_agree)
    by (apply entries_fine, small).
  unfold ofBalances.
  cbn [Balances.youOwe Balances.youAreOwed Balances.totalBalance Balances.oweDetails
       OweDetails.youOwe OweDetails.youAreOwedBy].
  now rewrite sub_ofZ by lia.
Qed.
End BalancesExact.

(** ** A loop on doubles, in general *)

Lemma fold_whole {S T X Y} (emb : S -> T) (inv : Z -> S -> Prop)
      (toY : X -> Y) (cost : X -> Z) (stepZ : S -> X -> S) (stepF : T -> Y -> T) :
  (forall x, 0 <= cost x) ->
  (forall bound st x,
      0 <= bound -> inv bound st -> bound + cost x <= maxSafe ->
      stepF (emb st) (toY x) = emb (stepZ st x) /\ inv (bound + cost x) (stepZ st x)) ->
  forall l bound st,
    0 <= bound -> inv bound st -> bound + sumOf cost l <= maxSafe ->
    fold_left stepF (map toY l) (emb st) = emb (fold_left stepZ l st)
    /\ inv (bound + sumOf cost l) (fold_left stepZ l st).
Proof.
  intros nonneg step. induction l as [|x l IH]; intros bound st range inside room; simpl in *.
  - split; [reflexivity|]. now rewrite Z.add_0_r.
  - pose proof (nonneg x). pose proof (sumOf_nonneg cost l nonneg).
    destruct (step bound st x) as [same inside']; [lia | assumption | lia|].
    rewrite same.
    destruct (IH (bound + cost x) (stepZ st x)) as [rest inside'']; [lia | assumption | lia|].
    split; [exact rest|]. now rewrite Z.add_assoc.
Qed.

Lemma splitWeight_nonneg (e : Expense.t) : 0 <= splitWeight e.
Proof. apply sumOf_nonneg. intros s. lia. Qed.

Lemma share_light (user : User.t) (e : Expense.t) (mine : Split.t) :
  findSplit (User._id user) e = Some mine -> Z.abs (Split.amount mine) <= splitWeight e.
Proof.
  intros found. apply find_some in found as [inMine _].
  apply (sumOf_In_le (fun s => Z.abs (Split.amount s)) _ mine); [|exact inMine].
  intros s. lia.
Qed.

(** ** getTotalSpent and getMonthlySpending *)

Lemma insertByDate_ofExpense (e : Expense.t) (index : list Expense.t) :
  Double.insertByDate (ofExpense e) (map ofExpense index)
  = map ofExpense (insertByDate e index).
Proof.
  induction index as [|x index IH]; [reflexivity|].
  cbn [map Double.insertByDate insertByDate].
  change (Double.Expense.date (ofExpense e)) with (Expense.date e).
  change (Double.Expense.date (ofExpense x)) with (Expense.date x).
  destruct (_ <? _); [reflexivity|]. cbn [map]. now rewrite IH.
Qed.

Lemma byDate_ofExpense (table : list Expense.t) :
  Double.byDate (map ofExpense table) = map ofExpense (byDate table).
Proof.
  unfold Double.byDate, byDate. change (@nil Double.Expense.t) with (map ofExpense []).
  generalize (@nil Expense.t) as index.
  induction table as [|e table IH]; intros index; [reflexivity|].
  cbn [map fold_left]. now rewrite insertByDate_ofExpense, IH.
Qed.

Lemma userExpenses_ofDb (db : Db.t) (user : User.t) (now : Z) :
  Double.userExpenses (ofDb db) user now = map ofExpense (userExpenses db user now).
Proof.
  unfold Double.userExpenses, userExpenses, ofDb. cbn [Double.Db.expenses].
  rewrite byDate_ofExpense.
  rewrite (filter_map_comm ofExpense _
             (fun expense => JsDate.startOfYear now <=? Expense.date expense))
    by reflexivity.
  apply filter_map_comm. intros e. now rewrite hasSplit_ofExpense.
Qed.

Lemma byDate_weight (table : list Expense.t) :
  sumOf splitWeight (byDate table) = sumOf splitWeight table.
Proof. apply sumOf_perm, byDate_perm. Qed.

Lemma userExpenses_light (db : Db.t) (user : User.t) (now : Z) :
  sumOf splitWeight (userExpenses db user now) <= weight db.
Proof.
  unfold userExpenses, weight.
  pose proof (sumOf_nonneg (fun s => Z.abs (Settlement.amount s)) (Db.settlements db)
                           (fun s => Z.abs_nonneg _)).
  etransitivity; [apply sumOf_filter_le, splitWeight_nonneg|].
  etransitivity; [apply sumOf_filter_le, splitWeight_nonneg|].
  rewrite byDate_weight. lia.
Qed.

(** On whole amounts that together stay a safe integer, [getTotalSpent] on
    doubles returns what it returns in exact arithmetic. *)
Lemma getTotalSpent_exact (db : Db.t) (user : User.t) (now : Z) :
  safe db ->
  Double.getTotalSpent (ofDb db) user now = ofZ (getTotalSpent db user now).
Proof.
  intros room. pose proof (userExpenses_light db user now) as light. unfold safe in room.
  unfold Double.getTotalSpent, getTotalSpent. rewrite userExpenses_ofDb.
  apply (fold_whole ofZ (fun bound total => Z.abs total <= bound) ofExpense splitWeight
                    _ _ splitWeight_nonneg) with (bound := 0) (st := 0); try lia.
  intros bound total e range small fits. rewrite findSplit_ofExpense.
  destruct (findSplit _ e) as [mine|] eqn:found; cbn [option_map]; [|split; [reflexivity|]].
  - pose proof (share_light user e mine found).
    unfold ofSplit. cbn [Double.Split.amount]. split; [apply add_ofZ|]; lia.
  - pose proof (splitWeight_nonneg e). lia.
Qed.

Lemma getTotal_ofTotals (month : Z) (m : MonthlyTotals) :
  Double.getTotal month (ofTotals m) = option_map ofZ (getTotal month m).
Proof.
  induction m as [|[k v] m IH]; [reflexivity|]. simpl. now destruct (k =? month).
Qed.

Lemma setTotal_ofTotals (month total : Z) (m : MonthlyTotals) :
  Double.setTotal month (ofZ total) (ofTotals m) = ofTotals (setTotal month total m).
Proof.
  induction m as [|[k v] m IH]; [reflexivity|]. simpl.
  destruct (k =? month); [reflexivity|]. simpl. now rewrite <- IH.
Qed.

Lemma setTotal_small (month total bound : Z) (m : MonthlyTotals) :
  Z.abs total <= bound ->
  Forall (fun entry => Z.abs (snd entry) <= bound) m ->
  Forall (fun entry => Z.abs (snd entry) <= bound) (setTotal month total m).
Proof.
  intros small. induction 1 as [|[k v] m here rest IH]; simpl.
  - now repeat constructor.
  - destruct (k =? month); constructor; auto.
Qed.

Lemma getTotal_small (month total bound : Z) (m : MonthlyTotals) :
  Forall (fun entry => Z.abs (snd entry) <= bound) m ->
  getTotal month m = Some total -> Z.abs total <= bound.
Proof.
  induction 1 as [|[k v] m here rest IH]; simpl; [discriminate|].
  destruct (k =? month); [now intros [= <-] | exact IH].
Qed.

Lemma orZero_ofZ (n : Z) : - maxSafe <= n <= maxSafe -> Double.orZero (ofZ n) = ofZ n.
Proof.
  intros safeN. unfold Double.orZero, Double.truthy.
  rewrite eqb_zero_ofZ, ofZ_not_nan by assumption.
  destruct (Z.eqb_spec n 0) as [-> | nz]; reflexivity.
Qed.

Lemma initialTotals_exact (now : Z) :
  Double.initialTotals now = ofTotals (initialTotals now)
  /\ Forall (fun entry => Z.abs (snd entry) <= 0) (initialTotals now).
Proof.
  unfold Double.initialTotals, initialTotals.
  change (@nil (Z * float)) with (ofTotals []).
  assert (Forall (fun entry : Z * Z => Z.abs (snd entry) <= 0) []) as none by constructor.
  revert none. generalize (@nil (Z * Z)) as m.
  induction (map Z.of_nat (seq 0 12)) as [|i l IH]; intros m small; [now split|].
  cbn [fold_left]. change 0%float with (ofZ 0). rewrite setTotal_ofTotals.
  apply IH. apply setTotal_small; [simpl; lia | exact small].
Qed.

Section SpendingExact.
Variable db : Db.t.
Variable user : User.t.
Variable now : Z.

Lemma addToMonth_exact (bound : Z) (m : MonthlyTotals) (e : Expense.t) :
  0 <= bound ->
  Forall (fun entry => Z.abs (snd entry) <= bound) m ->
  bound + splitWeight e <= maxSafe ->
  Double.addToMonth user (ofTotals m) (ofExpense e) = ofTotals (addToMonth user m e)
  /\ Forall (fun entry => Z.abs (snd entry) <= bound + splitWeight e) (addToMonth user m e).
Proof.
  intros range small fits. pose proof (splitWeight_nonneg e) as heavy.
  assert (Forall (fun entry : Z * Z => Z.abs (snd entry) <= bound + splitWeight e) m) as wide.
  { eapply Forall_impl; [|exact small]. simpl. intros entry. lia. }
  unfold Double.addToMonth, addToMonth. rewrite findSplit_ofExpense.
  change (Double.Expense.date (ofExpense e)) with (Expense.date e).
  destruct (findSplit _ e) as [mine|] eqn:found; cbn [option_map]; [|now split].
  pose proof (share_light user e mine found) as light.
  rewrite getTotal_ofTotals. unfold ofSplit. cbn [Double.Split.amount].
  destruct (getTotal _ m) as [total|] eqn:stored; cbn [option_map].
  - pose proof (getTotal_small _ _ _ _ small stored) as smallTotal.
    rewrite orZero_ofZ, add_ofZ, setTotal_ofTotals by lia.
    split; [reflexivity|]. apply setTotal_small; [lia | exact wide].
  - change 0%float with (ofZ 0). rewrite add_ofZ, setTotal_ofTotals by lia.
    split; [reflexivity|]. apply setTotal_small; [lia | exact wide].
Qed.

(** On whole amounts that together stay a safe integer, [getMonthlySpending]
    on doubles returns what it returns in exact arithmetic. *)
Lemma getMonthlySpending_exact :
  safe db ->
  Double.getMonthlySpending (ofDb db) user now
  = map ofMonthEntry (getMonthlySpending db user now).
Proof.
  intros room. pose proof (userExpenses_light db user now) as light. unfold safe in room.
  unfold Double.getMonthlySpending, getMonthlySpending. rewrite userExpenses_ofDb.
  destruct (initialTotals_exact now) as [-> none].
  destruct (fold_whole ofTotals
              (fun bound m => Forall (fun entry : Z * Z => Z.abs (snd entry) <= bound) m)
              ofExpense splitWeight (addToMonth user) (Double.addToMonth user)
              splitWeight_nonneg addToMonth_exact
              (userExpenses db user now) 0 (initialTotals now)) as [-> _];
    [lia | exact none | lia|].
  unfold ofTotals. rewrite map_map.
  rewrite <- (@sort_map _ _ ofMonthEntry (@byMonth) Double.byMonth) by reflexivity.
  now rewrite map_map.
Qed.
End SpendingExact.

(** ** getUserGroups *)

Section GroupsExact.
Variable db : Db.t.
Variable user : User.t.

Lemma groupSplits_exact (splits : list Split.t) :
  forall bound balance,
    0 <= bound -> Z.abs balance <= bound ->
    bound + sumOf (fun s => Z.abs (Split.amount s)) splits <= maxSafe ->
    fold_left (fun balance split =>
                 if negb (Double.Split.userId split =? User._id user)%string
                    && negb (Double.Split.paid split)
                 then (balance + Double.Split.amount split)%float
                 else balance)
              (map ofSplit splits) (ofZ balance)
    = ofZ (fold_left (fun balance split =>
                        if negb (Split.userId split =? User._id user)%string
                           && negb (Split.paid split)
                        then balance + Split.amount split
                        else balance)
                     splits balance)
    /\ Z.abs (fold_left (fun balance split =>
                        if negb (Split.userId split =? User._id user)%string
                           && negb (Split.paid split)
                        then balance + Split.amount split
                        else balance)
                     splits balance)
       <= bound + sumOf (fun s => Z.abs (Split.amount s)) splits.
Proof.
  intros bound balance.
  apply (fold_whole ofZ (fun bound balance => Z.abs balance <= bound) ofSplit
                    (fun s => Z.abs (Split.amount s))).
  - intros s. lia.
  - clear. intros bound balance s range small fits.
    unfold ofSplit. cbn [Double.Split.userId Double.Split.paid Double.Split.amount].
    destruct (negb _ && negb _); [split; [apply add_ofZ|]; lia | split; [reflexivity | lia]].
Qed.

Lemma groupExpenseStep_exact (bound balance : Z) (e : Expense.t) :
  0 <= bound -> Z.abs balance <= bound -> bound + splitWeight e <= maxSafe ->
  Double.groupExpenseStep user (ofZ balance) (ofExpense e)
  = ofZ (groupExpenseStep user balance e)
  /\ Z.abs (groupExpenseStep user balance e) <= bound + splitWeight e.
Proof.
  intros range small fits. pose proof (splitWeight_nonneg e) as heavy.
  unfold Double.groupExpenseStep, groupExpenseStep.
  change (Double.Expense.paidByUserId (ofExpense e)) with (Expense.paidByUserId e).
  destruct (_ =? _)%string.
  - change (Double.Expense.splits (ofExpense e)) with (map ofSplit (Expense.splits e)).
    now apply groupSplits_exact.
  - rewrite findSplit_ofExpense.
    destruct (findSplit _ e) as [mine|] eqn:found; cbn [option_map];
      [|split; [reflexivity | lia]].
    pose proof (share_light user e mine found) as light.
    unfold ofSplit. cbn [Double.Split.paid Double.Split.amount].
    destruct (negb _); [split; [apply sub_ofZ|]; lia | split; [reflexivity | lia]].
Qed.

Lemma groupSettlementStep_exact (bound balance : Z) (s : Settlement.t) :
  0 <= bound -> Z.abs balance <= bound ->
  bound + Z.abs (Settlement.amount s) <= maxSafe ->
  Double.groupSettlementStep user (ofZ balance) (ofSettlement s)
  = ofZ (groupSettlementStep user balance s)
  /\ Z.abs (groupSettlementStep user balance s) <= bound + Z.abs (Settlement.amount s).
Proof.
  intros range small fits.
  unfold Double.groupSettlementStep, groupSettlementStep, ofSettlement.
  cbn [Double.Settlement.paidByUserId Double.Settlement.amount].
  destruct (_ =? _)%string; (split; [first [apply add_ofZ | apply sub_ofZ]|]; lia).
Qed.

Lemma groupBalance_exact (g : Group.t) :
  safe db -> Double.groupBalance (ofDb db) user g = ofZ (groupBalance db user g).
Proof.
  unfold safe, weight. intros room.
  pose proof (sumOf_filter_le splitWeight
                (fun e => inGroup (Expense.groupId e) (Group._id g))
                (Db.expenses db) splitWeight_nonneg) as lightE.
  pose proof (sumOf_filter_le (fun s => Z.abs (Settlement.amount s))
                (fun s => inGroup (Settlement.groupId s) (Group._id g)
                     && ((Settlement.paidByUserId s =? User._id user)%string
                         || (Settlement.receivedByUserId s =? User._id user)%string))
                (Db.settlements db) (fun s => Z.abs_nonneg _)) as lightS.
  pose proof (sumOf_nonneg splitWeight (Db.expenses db) splitWeight_nonneg) as heavyE.
  pose proof (sumOf_nonneg (fun s => Z.abs (Settlement.amount s)) (Db.settlements db)
                           (fun s => Z.abs_nonneg _)) as heavyS.
  unfold Double.groupBalance, groupBalance, ofDb.
  cbn [Double.Db.expenses Double.Db.settlements].
  rewrite (filter_map_comm ofExpense _
             (fun e => inGroup (Expense.groupId e) (Group._id g))) by reflexivity.
  rewrite (filter_map_comm ofSettlement _
             (fun s => inGroup (Settlement.groupId s) (Group._id g)
                     && ((Settlement.paidByUserId s =? User._id user)%string
                         || (Settlement.receivedByUserId s =? User._id user)%string)))
    by reflexivity.
  set (expenses := filter _ (Db.expenses db)) in *.
  set (settlements := filter _ (Db.settlements db)) in *.
  pose proof (sumOf_nonneg splitWeight expenses splitWeight_nonneg) as someE.
  destruct (fold_whole ofZ (fun bound balance => Z.abs balance <= bound) ofExpense
              splitWeight (groupExpenseStep user) (Double.groupExpenseStep user)
              splitWeight_nonneg groupExpenseStep_exact expenses 0 0) as [sameE smallE];
    [lia | simpl; lia | lia|].
  change 0%float with (ofZ 0). rewrite sameE.
  apply (fold_whole ofZ (fun bound balance => Z.abs balance <= bound) ofSettlement
           (fun s => Z.abs (Settlement.amount s)) (groupSettlementStep user)
           (Double.groupSettlementStep user) (fun s => Z.abs_nonneg _)
           groupSettlementStep_exact settlements (0 + sumOf splitWeight expenses));
    [lia | exact smallE | lia].
Qed.

(** On whole amounts that together stay a safe integer, [getUserGroups] on
    doubles returns what it returns in exact arithmetic. *)
Lemma getUserGroups_exact :
  safe db -> Double.getUserGroups (ofDb db) user = map ofEnhancedGroup (getUserGroups db user).
Proof.
  intros room. unfold Double.getUserGroups, getUserGroups, ofDb. cbn [Double.Db.groups].
  rewrite map_map. apply map_ext. intros g. unfold ofEnhancedGroup.
  cbn [EnhancedGroup.group EnhancedGroup.id EnhancedGroup.balance].
  f_equal. now apply groupBalance_exact.
Qed.
End GroupsExact.

(** ** Sums on doubles *)

Lemma fold_light {S X} (inv : Z -> S -> Prop) (cost : X -> Z) (step : S -> X -> S) :
  (forall bound st x, inv bound st -> inv (bound + cost x) (step st x)) ->
  forall l bound st, inv bound st -> inv (bound + sumOf cost l) (fold_left step l st).
Proof.
  intros keeps. induction l as [|x l IH]; intros bound st inside; simpl.
  - now rewrite Z.add_0_r.
  - rewrite Z.add_assoc. apply IH, keeps, inside.
Qed.

Lemma fold_left_sumOf {X} (f : X -> Z) (l : list X) (total : Z) :
  fold_left (fun total x => total + f x) l total = total + sumOf f l.
Proof.
  revert total. induction l as [|x l IH]; intros total; simpl; [lia|]. rewrite IH. lia.
Qed.

Lemma sumOf_abs {X} (f : X -> Z) (l : list X) :
  Z.abs (sumOf f l) <= sumOf (fun x => Z.abs (f x)) l.
Proof. induction l as [|x l IH]; simpl; lia. Qed.

Lemma sumOf_le {X} (f g : X -> Z) (l : list X) :
  (forall x, f x <= g x) -> sumOf f l <= sumOf g l.
Proof.
  intros below. induction l as [|x l IH]; simpl; [lia|]. specialize (below x). lia.
Qed.

(** The sum of whole numbers, taken on doubles from left to right, is their
    sum when their absolute values add up to a safe integer. *)
Lemma sum_exact {X} (f : X -> Z) (l : list X) :
  sumOf (fun x => Z.abs (f x)) l <= maxSafe ->
  Double.sum (map (fun x => ofZ (f x)) l) = ofZ (sumOf f l).
Proof.
  intros room. unfold Double.sum.
  destruct (fold_whole ofZ (fun bound total => Z.abs total <= bound)
              (fun x => ofZ (f x)) (fun x => Z.abs (f x))
              (fun total x => total + f x) (fun total y => (total + y)%float)
              (fun x => Z.abs_nonneg _)) with (l := l) (bound := 0) (st := 0)
    as [same _]; try (simpl; lia).
  - intros bound total x range small fits. split; [apply add_ofZ|]; lia.
  - change 0%float with (ofZ 0). rewrite same, fold_left_sumOf. reflexivity.
Qed.

(** ** How large the ledger is *)

Lemma upsert_light (uid : Id) (f : Tally.t -> Tally.t) (m : BalanceMap) (c : Z) :
  (forall key x, tallyWeight (key, f x) <= tallyWeight (key, x) + c) ->
  sumOf tallyWeight (upsert uid f m) <= sumOf tallyWeight m + c.
Proof.
  intros grows. induction m as [|[k x] m IH]; simpl.
  - specialize (grows uid Tally.zero). unfold tallyWeight in *. simpl in *. lia.
  - destruct (k =? uid)%string; simpl; [specialize (grows k x)|]; lia.
Qed.

Section LedgerLight.
Variable user : User.t.

Lemma creditSplit_light (bound : Z) (st : Ledger.t) (s : Split.t) :
  light bound st -> light (bound + Z.abs (Split.amount s)) (creditSplit user st s).
Proof.
  unfold light, creditSplit. intros inside.
  destruct (_ || _); cbn [Ledger.balanceByUser]; [lia|].
  etransitivity; [apply upsert_light with (c := Z.abs (Split.amount s))|lia].
  intros key x. unfold tallyWeight, Tally.addOwed. simpl. lia.
Qed.

Lemma expenseStep_light (bound : Z) (st : Ledger.t) (e : Expense.t) :
  light bound st -> light (bound + splitWeight e) (expenseStep user st e).
Proof.
  intros inside. pose proof (splitWeight_nonneg e) as heavy.
  unfold expenseStep. destruct (_ =? _)%string.
  - apply (fold_light light (fun s => Z.abs (Split.amount s)) (creditSplit user)
                      creditSplit_light), inside.
  - unfold light in *.
    destruct (findSplit _ e) as [mine|] eqn:found; [|lia].
    pose proof (share_light user e mine found) as small.
    destruct (negb _); cbn [Ledger.balanceByUser]; [|lia].
    etransitivity; [apply upsert_light with (c := Z.abs (Split.amount mine))|lia].
    intros key x. unfold tallyWeight, Tally.addOwing. simpl. lia.
Qed.

Lemma settlementStep_light (bound : Z) (st : Ledger.t) (s : Settlement.t) :
  light bound st -> light (bound + Z.abs (Settlement.amount s)) (settlementStep user st s).
Proof.
  unfold light, settlementStep. intros inside.
  destruct (_ =? _)%string; cbn [Ledger.balanceByUser];
    (etransitivity; [apply upsert_light with (c := Z.abs (Settlement.amount s))|lia]);
    intros key x; unfold tallyWeight, Tally.addOwing, Tally.addOwed; simpl; lia.
Qed.

(** The tallies of the ledger hold no more than the amounts of the record
    set. *)
Lemma ledger_light (db : Db.t) : light (weight db) (ledger db user).
Proof.
  pose proof (sumOf_filter_le splitWeight
                (fun e => noGroup (Expense.groupId e)
                   && ((Expense.paidByUserId e =? User._id user)%string
                       || hasSplit (User._id user) e))
                (Db.expenses db) splitWeight_nonneg) as lightE.
  pose proof (sumOf_filter_le (fun s => Z.abs (Settlement.amount s))
                (fun s => noGroup (Settlement.groupId s)
                   && ((Settlement.paidByUserId s =? User._id user)%string
                       || (Settlement.receivedByUserId s =? User._id user)%string))
                (Db.settlements db) (fun s => Z.abs_nonneg _)) as lightS.
  pose proof (fold_light light splitWeight (expenseStep user) expenseStep_light
                         (involvedExpenses db user) 0 Ledger.init) as afterE.
  pose proof (fold_light light (fun s => Z.abs (Settlement.amount s)) (settlementStep user)
                         settlementStep_light (involvedSettlements db user)
                         (0 + sumOf splitWeight (involvedExpenses db user))
                         (expenseLedger db user)) as afterS.
  unfold light, weight, ledger, expenseLedger, involvedExpenses, involvedSettlements in *.
  etransitivity; [apply afterS, afterE; simpl; lia|]. lia.
Qed.
End LedgerLight.

Lemma sumOwed_sumOf (m : BalanceMap) : sumOwed m = sumOf (fun entry => Tally.owed (snd entry)) m.
Proof. reflexivity. Qed.

Lemma sumOwing_sumOf (m : BalanceMap) :
  sumOwing m = sumOf (fun entry => Tally.owing (snd entry)) m.
Proof. reflexivity. Qed.

Lemma sumAmounts_sumOf (l : list OweEntry.t) : sumAmounts l = sumOf OweEntry.amount l.
Proof. reflexivity. Qed.

Lemma sumOwed_exact (m : BalanceMap) :
  sumOf tallyWeight m <= maxSafe -> Double.sumOwed (ofBalanceMap m) = ofZ (sumOwed m).
Proof.
  intros room. unfold Double.sumOwed, ofBalanceMap. rewrite map_map. cbn [snd ofTally Double.Tally.owed].
  rewrite sumOwed_sumOf. apply sum_exact.
  etransitivity; [apply sumOf_le|exact room]. intros entry. unfold tallyWeight. lia.
Qed.

Lemma sumOwing_exact (m : BalanceMap) :
  sumOf tallyWeight m <= maxSafe -> Double.sumOwing (ofBalanceMap m) = ofZ (sumOwing m).
Proof.
  intros room. unfold Double.sumOwing, ofBalanceMap. rewrite map_map. cbn [snd ofTally Double.Tally.owing].
  rewrite sumOwing_sumOf. apply sum_exact.
  etransitivity; [apply sumOf_le|exact room]. intros entry. unfold tallyWeight. lia.
Qed.

Lemma sumAmounts_exact (l : list OweEntry.t) :
  sumOf (fun entry => Z.abs (OweEntry.amount entry)) l <= maxSafe ->
  Double.sumAmounts (map ofOweEntry l) = ofZ (sumAmounts l).
Proof.
  intros room. unfold Double.sumAmounts. rewrite map_map. cbn [ofOweEntry Double.OweEntry.amount].
  rewrite sumAmounts_sumOf. now apply sum_exact.
Qed.

Lemma entries_light (db : Db.t) (keep : Id * Tally.t -> bool) (m : BalanceMap) :
  sumOf (fun entry => Z.abs (OweEntry.amount entry)) (map (entryOf db) (filter keep m))
  <= sumOf tallyWeight m.
Proof.
  rewrite sumOf_map.
  etransitivity; [apply sumOf_filter_le; intros entry; lia|].
  apply sumOf_le. intros [uid x].
  unfold entryOf, oweEntry, tallyWeight, Tally.net. cbn [OweEntry.amount fst snd]. lia.
Qed.

(** ** Doubles of whole numbers are told apart *)

Lemma shl_inj (p q : positive) (k : nat) : shl p k = shl q k -> p = q.
Proof.
  intros same. apply (f_equal Zpos) in same. rewrite !shl_value in same.
  apply Z.mul_reg_r in same; [now injection same|].
  apply Z.pow_nonzero; lia.
Qed.

Lemma canon_inj (a b : Z) :
  - maxSafe <= a <= maxSafe -> - maxSafe <= b <= maxSafe -> canon a = canon b -> a = b.
Proof.
  intros safeA safeB.
  assert (forall p q, mant p = mant q -> expo p = expo q -> p = q) as told.
  { intros p q mants expos. unfold mant, expo in *.
    assert (Pos.size p = Pos.size q) as sizes by lia.
    rewrite sizes in mants. now apply shl_inj in mants. }
  destruct a as [|p|p], b as [|q|q];
    rewrite ?canon_pos, ?canon_neg by lia;
    try reflexivity;
    try (change (canon 0) with (S754_zero false); discriminate);
    try discriminate;
    intros [= mants expos]; f_equal; now apply told.
Qed.

Lemma ofZ_inj (a b : Z) :
  - maxSafe <= a <= maxSafe -> - maxSafe <= b <= maxSafe -> ofZ a = ofZ b -> a = b.
Proof.
  intros safeA safeB same. apply (f_equal Prim2SF) in same.
  rewrite !Prim2SF_ofZ in same by assumption. now apply canon_inj.
Qed.

(** ** Doubles above zero *)

Lemma positive_form (k : float) :
  (0 <? k)%float = true ->
  Prim2SF k = S754_infinity false \/ exists m e, Prim2SF k = S754_finite false m e.
Proof.
  rewrite FloatAxioms.ltb_spec. change (Prim2SF 0) with (S754_zero false).
  destruct (Prim2SF k) as [s | s | | s m e]; cbn; try discriminate;
    destruct s; try discriminate; eauto.
Qed.

Lemma positive_nonzero (k : float) : (0 <? k)%float = true -> (k =? 0)%float = false.
Proof.
  intros above. rewrite FloatAxioms.eqb_spec. change (Prim2SF 0) with (S754_zero false).
  destruct (positive_form k above) as [-> | [m [e ->]]]; reflexivity.
Qed.

Lemma abs_positive (k : float) : (0 <? k)%float = true -> abs k = k.
Proof.
  intros above. apply Prim2SF_inj. rewrite abs_spec.
  destruct (positive_form k above) as [-> | [m [e ->]]]; reflexivity.
Qed.

(** [0 - (0 - k)] is [k]: the net of a fresh tally whose [owing] went down
    by [k]. *)
Lemma owing_taken (k : float) : (0 <? k)%float = true -> (0 - (0 - k))%float = k.
Proof.
  intros above. apply Prim2SF_inj. rewrite !sub_spec.
  change (Prim2SF 0) with (S754_zero false).
  destruct (positive_form k above) as [-> | [m [e ->]]]; reflexivity.
Qed.

(** [(0 - k) - 0] is below zero and its absolute value is [k]: the net of a
    fresh tally whose [owed] went down by [k]. *)
Lemma owed_taken (k : float) :
  (0 <? k)%float = true ->
  ((0 - k - 0) =? 0)%float = false
  /\ (0 <? (0 - k - 0))%float = false
  /\ abs (0 - k - 0) = k.
Proof.
  intros above.
  assert (Prim2SF (0 - k - 0)
          = match Prim2SF k with
            | S754_finite _ m e => S754_finite true m e
            | _ => S754_infinity true
            end) as form.
  { rewrite !sub_spec. change (Prim2SF 0) with (S754_zero false).
    destruct (positive_form k above) as [-> | [m [e ->]]]; reflexivity. }
  repeat split.
  - rewrite FloatAxioms.eqb_spec, form. change (Prim2SF 0) with (S754_zero false).
    destruct (positive_form k above) as [-> | [m [e ->]]]; reflexivity.
  - rewrite FloatAxioms.ltb_spec, form. change (Prim2SF 0) with (S754_zero false).
    destruct (positive_form k above) as [-> | [m [e ->]]]; reflexivity.
  - apply Prim2SF_inj. rewrite abs_spec, form.
    destruct (positive_form k above) as [-> | [m [e ->]]]; reflexivity.
Qed.

(** ** The ledger on doubles, whatever the amounts *)

Lemma lookup_upsert_double (uid : Id) (f : Double.Tally.t -> Double.Tally.t)
      (m : Double.BalanceMap) :
  Double.lookup uid m = None ->
  Double.lookup uid (Double.upsert uid f m) = Some (f Double.Tally.zero).
Proof.
  induction m as [|[k x] m IH]; simpl.
  - now rewrite String.eqb_refl.
  - destruct (k =? uid)%string eqn:key; [discriminate|]. simpl. now rewrite key.
Qed.

Lemma lookup_In_double (uid : Id) (x : Double.Tally.t) (m : Double.BalanceMap) :
  Double.lookup uid m = Some x -> In (uid, x) m.
Proof.
  induction m as [|[k y] m IH]; simpl; [discriminate|].
  destruct (String.eqb_spec k uid) as [-> | other].
  - intros [= ->]. now left.
  - intros found. right. now apply IH.
Qed.

Lemma ledger_addSettlement_double (db : Double.Db.t) (user : User.t)
      (s : Double.Settlement.t) :
  Double.Settlement.groupId s = None ->
  Double.Settlement.paidByUserId s = User._id user
  \/ Double.Settlement.receivedByUserId s = User._id user ->
  Double.ledger (Double.addSettlement db s) user
  = Double.settlementStep user (Double.ledger db user) s.
Proof.
  intros nogroup party.
  unfold Double.ledger, Double.expenseLedger, Double.involvedSettlements,
    Double.involvedExpenses, Double.addSettlement.
  cbn [Double.Db.expenses Double.Db.settlements].
  rewrite filter_app, fold_left_app. cbn [filter].
  rewrite nogroup. cbn [noGroup andb].
  replace (_ || _) with true; [reflexivity|].
  symmetry. apply orb_true_iff.
  destruct party as [-> | ->]; rewrite String.eqb_refl; auto.
Qed.

Section ListsDouble.
Variable db : Double.Db.t.

Lemma listStep_keeps (m : Double.BalanceMap) (entry : Double.OweEntry.t) :
  forall lists,
    (In entry (fst lists) -> In entry (fst (fold_left (Double.listStep db) m lists)))
    /\ (In entry (snd lists) -> In entry (snd (fold_left (Double.listStep db) m lists))).
Proof.
  induction m as [|[uid x] m IH]; intros lists; [now split|].
  cbn [fold_left]. destruct (IH (Double.listStep db lists (uid, x))) as [owe owed].
  unfold Double.listStep in *.
  destruct (_ =? 0)%float; [now split|].
  destruct (0 <? _)%float; cbn [fst snd] in *; split; intros inl;
    first [apply owe | apply owed]; try apply in_or_app; auto.
Qed.

Lemma listed_owed (m : Double.BalanceMap) (uid : Id) (x : Double.Tally.t) :
  In (uid, x) m -> (0 <? Double.net x)%float = true ->
  forall lists,
    In (Double.oweEntry db uid (Double.net x))
       (snd (fold_left (Double.listStep db) m lists)).
Proof.
  intros inm above. pose proof (positive_nonzero _ above) as nonzero.
  induction m as [|[k y] m IH]; intros lists; [contradiction|].
  cbn [fold_left]. destruct inm as [[= -> ->] | inm]; [|now apply IH].
  apply listStep_keeps. unfold Double.listStep. fold (Double.net x).
  rewrite nonzero, above. cbn [snd]. apply in_or_app. right. now left.
Qed.

Lemma listed_owing (m : Double.BalanceMap) (uid : Id) (x : Double.Tally.t) :
  In (uid, x) m ->
  (Double.net x =? 0)%float = false -> (0 <? Double.net x)%float = false ->
  forall lists,
    In (Double.oweEntry db uid (Double.net x))
       (fst (fold_left (Double.listStep db) m lists)).
Proof.
  intros inm nonzero below.
  induction m as [|[k y] m IH]; intros lists; [contradiction|].
  cbn [fold_left]. destruct inm as [[= -> ->] | inm]; [|now apply IH].
  apply listStep_keeps. unfold Double.listStep. fold (Double.net x).
  rewrite nonzero, below. cbn [fst]. apply in_or_app. right. now left.
Qed.
End ListsDouble.

Lemma weight_addSettlement (db : Db.t) (s : Settlement.t) :
  weight (addSettlement db s) = weight db + Z.abs (Settlement.amount s).
Proof. unfold weight, addSettlement. simpl. rewrite sumOf_app. simpl. lia. Qed.

Lemma weight_nonneg (db : Db.t) : 0 <= weight db.
Proof.
  unfold weight.
  pose proof (sumOf_nonneg splitWeight (Db.expenses db) splitWeight_nonneg).
  pose proof (sumOf_nonneg (fun s => Z.abs (Settlement.amount s)) (Db.settlements db)
                           (fun s => Z.abs_nonneg _)).
  lia.
Qed.

(** What [getUserBalances] returns on doubles, field by field, on whole
    amounts. *)
Lemma totals_exact (db : Db.t) (user : User.t) :
  safe db ->
  Double.Balances.youOwe (Double.getUserBalances (ofDb db) user)
  = ofZ (Balances.youOwe (getUserBalances db user))
  /\ Double.Balances.youAreOwed (Double.getUserBalances (ofDb db) user)
     = ofZ (Balances.youAreOwed (getUserBalances db user))
  /\ Double.Balances.totalBalance (Double.getUserBalances (ofDb db) user)
     = ofZ (Balances.totalBalance (getUserBalances db user))
  /\ Z.abs (Balances.youOwe (getUserBalances db user))
     + Z.abs (Balances.youAreOwed (getUserBalances db user)) <= weight db.
Proof.
  intros room. rewrite getUserBalances_exact by exact room.
  destruct (ledger_exact user db room) as [_ [totals _]].
  repeat split; exact totals.
Qed.

(** * Sums and differences of amounts, on doubles *)

(** ** Totals and details *)

(** C9, on whole amounts. When the amounts of the record set are whole
    numbers whose absolute values add up to at most 2^53 - 1, in the result
    of [getUserBalances] [youAreOwed] is the sum of the per-counterparty
    [owed] tallies, [youOwe] is the sum of the [owing] tallies, and
    [totalBalance] is the sum of the amounts in the [youAreOwedBy] list
    minus the sum of the amounts in the [youOwe] list. *)
Theorem totals_match_details (db : Db.t) (user : User.t) :
  safe db ->
  Double.Balances.youAreOwed (Double.getUserBalances (ofDb db) user)
  = Double.sumOwed (Double.Ledger.balanceByUser (Double.ledger (ofDb db) user))
  /\ Double.Balances.youOwe (Double.getUserBalances (ofDb db) user)
     = Double.sumOwing (Double.Ledger.balanceByUser (Double.ledger (ofDb db) user))
  /\ Double.Balances.totalBalance (Double.getUserBalances (ofDb db) user)
     = (Double.sumAmounts
          (Double.OweDetails.youAreOwedBy
             (Double.Balances.oweDetails (Double.getUserBalances (ofDb db) user)))
        - Double.sumAmounts
            (Double.OweDetails.youOwe
               (Double.Balances.oweDetails (Double.getUserBalances (ofDb db) user))))%float.
Proof.
  intros room.
  destruct (ledger_exact user db room) as [same [totals _]].
  pose proof (ledger_light user db) as small. unfold light in small. unfold safe in room.
  destruct (totals_match_details_Z db user) as [owed [owing total]].
  pose proof (entries_light db owesUser (Ledger.balanceByUser (ledger db user))) as lightOwed.
  pose proof (entries_light db userOwes (Ledger.balanceByUser (ledger db user))) as lightOwing.
  rewrite <- (sumOf_perm _ (youAreOwedBy_list db user)) in lightOwed.
  rewrite <- (sumOf_perm _ (youOwe_list db user)) in lightOwing.
  pose proof (sumOf_abs OweEntry.amount
                (OweDetails.youAreOwedBy (Balances.oweDetails (getUserBalances db user)))).
  pose proof (sumOf_abs OweEntry.amount
                (OweDetails.youOwe (Balances.oweDetails (getUserBalances db user)))).
  rewrite getUserBalances_exact, same by exact room.
  cbn [ofBalances ofLedger Double.Balances.youAreOwed Double.Balances.youOwe
       Double.Balances.totalBalance Double.Balances.oweDetails Double.OweDetails.youOwe
       Double.OweDetails.youAreOwedBy Double.Ledger.balanceByUser].
  rewrite sumOwed_exact, sumOwing_exact, !sumAmounts_exact by lia.
  rewrite owed, owing. split; [reflexivity|]. split; [reflexivity|].
  rewrite sub_ofZ; rewrite ?sumAmounts_sumOf; [now rewrite total, !sumAmounts_sumOf | lia | lia |].
  rewrite sumAmounts_sumOf in total. rewrite <- total.
  unfold getUserBalances in *. cbn [Balances.totalBalance] in *. simpl in totals. lia.
Qed.

(** C9 on [eveningInCents]: Bob's tally is 1010 owed and 2500 owing, Carl's
    is 4050 owed; [youAreOwed] is 5060, [youOwe] is 2500 and [totalBalance]
    is 2560, which is Carl's 4050 less Bob's 1490. *)
Lemma totals_match_details_witness :
  (Double.Balances.youAreOwed
     (Double.getUserBalances (ofDb Sample.eveningInCents) Sample.alice)
   = Double.sumOwed
       (Double.Ledger.balanceByUser (Double.ledger (ofDb Sample.eveningInCents) Sample.alice))
   /\ Double.Balances.youOwe
        (Double.getUserBalances (ofDb Sample.eveningInCents) Sample.alice)
      = Double.sumOwing
          (Double.Ledger.balanceByUser
             (Double.ledger (ofDb Sample.eveningInCents) Sample.alice))
   /\ Double.Balances.totalBalance
        (Double.getUserBalances (ofDb Sample.eveningInCents) Sample.alice)
      = (Double.sumAmounts
           (Double.OweDetails.youAreOwedBy
              (Double.Balances.oweDetails
                 (Double.getUserBalances (ofDb Sample.eveningInCents) Sample.alice)))
         - Double.sumAmounts
             (Double.OweDetails.youOwe
                (Double.Balances.oweDetails
                   (Double.getUserBalances (ofDb Sample.eveningInCents) Sample.alice))))%float)
  /\ Double.getUserBalances (ofDb Sample.eveningInCents) Sample.alice
     = Double.Balances.mk
         2500 5060 2560
         (Double.OweDetails.mk [Double.OweEntry.mk "bob" "bob" None 1490]
                               [Double.OweEntry.mk "carl" "carl" None 4050]).
Proof.
  split; [|vm_compute; reflexivity].
  apply (totals_match_details Sample.eveningInCents Sample.alice).
  unfold safe. vm_compute. discriminate.
Defined.

(** C9, as stated, fails on amounts with cents. Alice pays 10.10 for Bob and
    20.20 for Carl, then 30.30 for Carl: [youAreOwed] is
    (10.1 + 20.2) + 30.3 = 60.599999999999994, while the tallies are 10.1
    and 20.2 + 30.3 = 50.5 and sum to 60.6; so do the amounts of the
    [youAreOwedBy] list, while [totalBalance] is 60.599999999999994. *)
Lemma totals_match_details_counterexample :
  (Double.Balances.youAreOwed (Double.getUserBalances Sample.twoMeals Sample.alice)
   =? Double.sumOwed
        (Double.Ledger.balanceByUser (Double.ledger Sample.twoMeals Sample.alice)))%float
  = false
  /\ (Double.Balances.totalBalance (Double.getUserBalances Sample.twoMeals Sample.alice)
      =? Double.sumAmounts
           (Double.OweDetails.youAreOwedBy
              (Double.Balances.oweDetails
                 (Double.getUserBalances Sample.twoMeals Sample.alice)))
         - Double.sumAmounts
             (Double.OweDetails.youOwe
                (Double.Balances.oweDetails
                   (Double.getUserBalances Sample.twoMeals Sample.alice))))%float
     = false
  /\ Double.Balances.youAreOwed (Double.getUserBalances Sample.twoMeals Sample.alice)
     = 60.599999999999994%float
  /\ Double.Ledger.balanceByUser (Double.ledger Sample.twoMeals Sample.alice)
     = [("bob", Double.Tally.mk 10.1 0); ("carl", Double.Tally.mk 50.5 0)]
  /\ Double.sumOwed (Double.Ledger.balanceByUser (Double.ledger Sample.twoMeals Sample.alice))
     = 60.6%float
  /\ Double.Balances.totalBalance (Double.getUserBalances Sample.twoMeals Sample.alice)
     = 60.599999999999994%float
  /\ map Double.OweEntry.amount
         (Double.OweDetails.youAreOwedBy
            (Double.Balances.oweDetails
               (Double.getUserBalances Sample.twoMeals Sample.alice)))
     = [50.5; 10.1]%float
  /\ Double.OweDetails.youOwe
       (Double.Balances.oweDetails (Double.getUserBalances Sample.twoMeals Sample.alice))
     = [].
Proof. repeat split; vm_compute; reflexivity. Qed.

(** ** Year and month totals *)

Lemma setTotal_light (month a : Z) (m : MonthlyTotals) :
  sumOf (fun entry => Z.abs (snd entry))
        (setTotal month (match getTotal month m with
                         | Some total => total
                         | None => 0
                         end + a) m)
  <= sumOf (fun entry => Z.abs (snd entry)) m + Z.abs a.
Proof.
  induction m as [|[k v] m IH]; simpl; [lia|].
  destruct (k =? month); simpl; lia.
Qed.

Lemma addToMonth_light (user : User.t) (bound : Z) (m : MonthlyTotals) (e : Expense.t) :
  sumOf (fun entry => Z.abs (snd entry)) m <= bound ->
  sumOf (fun entry => Z.abs (snd entry)) (addToMonth user m e) <= bound + splitWeight e.
Proof.
  intros inside. pose proof (splitWeight_nonneg e) as heavy. unfold addToMonth.
  destruct (findSplit _ e) as [mine|] eqn:found; [|lia].
  pose proof (share_light user e mine found) as small.
  etransitivity; [apply setTotal_light|lia].
Qed.

(** The month totals hold no more than the amounts of the record set. *)
Lemma months_light (db : Db.t) (user : User.t) (now : Z) :
  sumOf (fun entry => Z.abs (MonthEntry.total entry)) (getMonthlySpending db user now)
  <= weight db.
Proof.
  pose proof (userExpenses_light db user now) as few.
  unfold getMonthlySpending.
  rewrite (sumOf_perm _ (sort_perm _ _)), sumOf_map. cbn [MonthEntry.total].
  pose proof (fold_light (fun bound m => sumOf (fun entry : Z * Z => Z.abs (snd entry)) m <= bound)
                         splitWeight (addToMonth user) (addToMonth_light user)
                         (userExpenses db user now) 0 (initialTotals now)) as after.
  cbv beta in after. etransitivity; [apply after|lia].
  pose proof (initialTotals_zero now) as zero.
  induction zero as [|[k v] m here _ IH]; simpl in *; lia.
Qed.

(** C10, on whole amounts. When the amounts of the record set are whole
    numbers whose absolute values add up to at most 2^53 - 1, for the same
    record set and the same current time the number returned by
    [getTotalSpent] is the sum of the [total] fields of the entries returned
    by [getMonthlySpending]. *)
Theorem year_total_is_sum_of_months (db : Db.t) (user : User.t) (now : Z) :
  safe db ->
  Double.getTotalSpent (ofDb db) user now
  = Double.sumTotals (Double.getMonthlySpending (ofDb db) user now).
Proof.
  intros room. pose proof (months_light db user now) as small. unfold safe in room.
  rewrite getTotalSpent_exact, getMonthlySpending_exact by exact room.
  unfold Double.sumTotals. rewrite map_map. cbn [ofMonthEntry Double.MonthEntry.total].
  rewrite sum_exact by lia. now rewrite year_total_is_sum_of_months_Z.
Qed.

(** C10 on [twoMonths] in the middle of June 2026: shares of 20 in January
    and 30 in March, 50 in the year. *)
Lemma year_total_is_sum_of_months_witness :
  Double.getTotalSpent (ofDb Sample.twoMonths) Sample.alice Sample.midJune2026 = 50%float
  /\ Double.getTotalSpent (ofDb Sample.twoMonths) Sample.alice Sample.midJune2026
     = Double.sumTotals
         (Double.getMonthlySpending (ofDb Sample.twoMonths) Sample.alice Sample.midJune2026).
Proof.
  split; [vm_compute; reflexivity|].
  apply (year_total_is_sum_of_months Sample.twoMonths Sample.alice Sample.midJune2026).
  unfold safe. vm_compute. discriminate.
Defined.

(** C10, as stated, fails on amounts with cents. With shares of 10.10 in
    January, and of 20.20 and 30.30 in February, [getTotalSpent] is
    (10.1 + 20.2) + 30.3 = 60.599999999999994, while the months are 10.1 and
    20.2 + 30.3 = 50.5, ten times 0, and sum to 60.6. *)
Lemma year_total_is_sum_of_months_counterexample :
  (Double.getTotalSpent Sample.threeShares Sample.alice Sample.midJune2026
   =? Double.sumTotals
        (Double.getMonthlySpending Sample.threeShares Sample.alice Sample.midJune2026))%float
  = false
  /\ Double.getTotalSpent Sample.threeShares Sample.alice Sample.midJune2026
     = 60.599999999999994%float
  /\ map Double.MonthEntry.total
         (Double.getMonthlySpending Sample.threeShares Sample.alice Sample.midJune2026)
     = [10.1; 50.5; 0; 0; 0; 0; 0; 0; 0; 0; 0; 0]%float
  /\ Double.sumTotals
       (Double.getMonthlySpending Sample.threeShares Sample.alice Sample.midJune2026)
     = 60.6%float.
Proof. repeat split; vm_compute; reflexivity. Qed.

(** ** Settlements *)

Lemma safe_before (db : Db.t) (s : Settlement.t) : safe (addSettlement db s) -> safe db.
Proof. unfold safe. rewrite weight_addSettlement. lia. Qed.

Lemma weight_without (users : list User.t) (expenses : list Expense.t)
      (groups : list Group.t) (before after : list Settlement.t) (s : Settlement.t) :
  weight (Db.mk users expenses (before ++ s :: after) groups)
  = weight (Db.mk users expenses (before ++ after) groups) + Z.abs (Settlement.amount s).
Proof. unfold weight. simpl. rewrite !sumOf_app. simpl. lia. Qed.

(** C4, on whole amounts. When the amounts of the record set, the new
    settlement included, are whole numbers whose absolute values add up to
    at most 2^53 - 1, adding one non-group settlement of amount [k] paid by
    the subject to a counterparty [B], at any place of the settlements table
    and all other records unchanged, lowers the [youOwe] total of
    [getUserBalances] for the subject by exactly [k]: the new total is the
    old one less [k], and the old one less the new one is [k]. *)
Theorem settlement_lowers_youOwe
        (users : list User.t) (expenses : list Expense.t) (groups : list Group.t)
        (before after : list Settlement.t) (A : User.t) (B : Id) (k date : Z) :
  safe (Db.mk users expenses
              (before ++ Settlement.mk k date (User._id A) B None :: after) groups) ->
  Double.Balances.youOwe
    (Double.getUserBalances
       (ofDb (Db.mk users expenses
                    (before ++ Settlement.mk k date (User._id A) B None :: after) groups)) A)
  = (Double.Balances.youOwe
       (Double.getUserBalances (ofDb (Db.mk users expenses (before ++ after) groups)) A)
     - ofZ k)%float
  /\ (Double.Balances.youOwe
        (Double.getUserBalances (ofDb (Db.mk users expenses (before ++ after) groups)) A)
      - Double.Balances.youOwe
          (Double.getUserBalances
             (ofDb (Db.mk users expenses
                          (before ++ Settlement.mk k date (User._id A) B None :: after)
                          groups)) A))%float
     = ofZ k.
Proof.
  intros room.
  pose proof (weight_without users expenses groups before after
                             (Settlement.mk k date (User._id A) B None)) as more.
  cbn [Settlement.amount] in more.
  assert (safe (Db.mk users expenses (before ++ after) groups)) as roomBefore
    by (unfold safe in *; lia).
  destruct (totals_exact _ A room) as [-> [_ [_ smallAfter]]].
  destruct (totals_exact _ A roomBefore) as [-> [_ [_ smallBefore]]].
  pose proof (settlement_lowers_youOwe_Z users expenses groups before after A B k date)
    as lowered.
  pose proof (weight_nonneg (Db.mk users expenses (before ++ after) groups)).
  unfold safe in *. rewrite !sub_ofZ by lia. split; f_equal; lia.
Qed.

(** C4 on [january], in which Alice owes Bob 20, between a settlement of 3
    she has paid him and one of 2 he has paid her: a settlement of 5 that
    she pays him takes her [youOwe] from 17 to 12. *)
Lemma settlement_lowers_youOwe_witness :
  (Double.Balances.youOwe
     (Double.getUserBalances
        (ofDb (Db.mk [Sample.alice; Sample.bob] [Sample.january]
                     ([Settlement.mk 3 1768089600000 "alice" "bob" None]
                      ++ Settlement.mk 5 1768176000000 (User._id Sample.alice) "bob" None
                      :: [Settlement.mk 2 1768262400000 "bob" "alice" None])
                     [])) Sample.alice)
   = (Double.Balances.youOwe
        (Double.getUserBalances
           (ofDb (Db.mk [Sample.alice; Sample.bob] [Sample.january]
                        ([Settlement.mk 3 1768089600000 "alice" "bob" None]
                         ++ [Settlement.mk 2 1768262400000 "bob" "alice" None])
                        []))
           Sample.alice)
      - ofZ 5)%float
   /\ (Double.Balances.youOwe
         (Double.getUserBalances
            (ofDb (Db.mk [Sample.alice; Sample.bob] [Sample.january]
                         ([Settlement.mk 3 1768089600000 "alice" "bob" None]
                          ++ [Settlement.mk 2 1768262400000 "bob" "alice" None])
                         []))
            Sample.alice)
       - Double.Balances.youOwe
           (Double.getUserBalances
              (ofDb (Db.mk [Sample.alice; Sample.bob] [Sample.january]
                           ([Settlement.mk 3 1768089600000 "alice" "bob" None]
                            ++ Settlement.mk 5 1768176000000 (User._id Sample.alice) "bob" None
                            :: [Settlement.mk 2 1768262400000 "bob" "alice" None])
                           [])) Sample.alice))%float
      = ofZ 5)
  /\ Double.Balances.youOwe
       (Double.getUserBalances
          (ofDb (Db.mk [Sample.alice; Sample.bob] [Sample.january]
                       ([Settlement.mk 3 1768089600000 "alice" "bob" None]
                        ++ [Settlement.mk 2 1768262400000 "bob" "alice" None])
                       []))
          Sample.alice)
     = 17%float
  /\ Double.Balances.youOwe
       (Double.getUserBalances
          (ofDb (Db.mk [Sample.alice; Sample.bob] [Sample.january]
                       ([Settlement.mk 3 1768089600000 "alice" "bob" None]
                        ++ Settlement.mk 5 1768176000000 (User._id Sample.alice) "bob" None
                        :: [Settlement.mk 2 1768262400000 "bob" "alice" None])
                       [])) Sample.alice)
     = 12%float.
Proof.
  split; [|split; vm_compute; reflexivity].
  apply (settlement_lowers_youOwe
           [Sample.alice; Sample.bob] [Sample.january] []
           [Settlement.mk 3 1768089600000 "alice" "bob" None]
           [Settlement.mk 2 1768262400000 "bob" "alice" None]
           Sample.alice "bob" 5 1768176000000).
  unfold safe. vm_compute. discriminate.
Defined.

(** C4, as stated, fails on amounts with cents. Alice owes Bob 100.10; once
    she has paid him 0.30 her [youOwe] is 99.8, which is
    0.29999999999999716 less and not 0.3 less. And when she owes him 0.01
    and has paid him 0.03, a settlement of 0.02 put before that one in the
    table makes her [youOwe] (0.01 - 0.02) - 0.03 = -0.04, while the total
    without it less 0.02 is (0.01 - 0.03) - 0.02 = -0.039999999999999994. *)
Lemma settlement_lowers_youOwe_counterexample :
  ((Double.Balances.youOwe (Double.getUserBalances (Sample.inDebt 100.1 []) Sample.alice)
    - Double.Balances.youOwe
        (Double.getUserBalances (Sample.inDebt 100.1 ([] ++ [Sample.repay 0.3])) Sample.alice)
    =? 0.3)%float
   = false
   /\ Double.Balances.youOwe (Double.getUserBalances (Sample.inDebt 100.1 []) Sample.alice)
      = 100.1%float
   /\ Double.Balances.youOwe
        (Double.getUserBalances (Sample.inDebt 100.1 ([] ++ [Sample.repay 0.3])) Sample.alice)
      = 99.8%float
   /\ (100.1 - 99.8)%float = 0.29999999999999716%float)
  /\ ((Double.Balances.youOwe
         (Double.getUserBalances
            (Sample.inDebt 0.01 ([] ++ Sample.repay 0.02 :: [Sample.repay 0.03])) Sample.alice)
       =? Double.Balances.youOwe
            (Double.getUserBalances (Sample.inDebt 0.01 ([] ++ [Sample.repay 0.03]))
                                    Sample.alice)
          - 0.02)%float
      = false
      /\ Double.Balances.youOwe
           (Double.getUserBalances
              (Sample.inDebt 0.01 ([] ++ Sample.repay 0.02 :: [Sample.repay 0.03]))
              Sample.alice)
         = (-0.04)%float
      /\ Double.Balances.youOwe
           (Double.getUserBalances (Sample.inDebt 0.01 ([] ++ [Sample.repay 0.03]))
                                   Sample.alice)
         = (-0.019999999999999997)%float
      /\ (-0.019999999999999997 - 0.02)%float = (-0.039999999999999994)%float).
Proof. repeat split; vm_compute; reflexivity. Qed.

(** ** The group balance *)






Section StatedBalance.
Variable db : Db.t.
Variable user : User.t.
Hypothesis parties :
  Forall (fun s => Settlement.paidByUserId s <> Settlement.receivedByUserId s)
         (Db.settlements db).



End StatedBalance.




(** ** A settlement where there is no balance *)

Section NewBalance.
Variable db : Double.Db.t.
Variable A : User.t.
Variable B : Id.
Variable k : float.
Variable date : Z.
Hypothesis distinct : User._id A <> B.
Hypothesis above : (0 <? k)%float = true.
Hypothesis absent : Double.lookup B (Double.Ledger.balanceByUser (Double.ledger db A)) = None.

Lemma paid_creates_credit :
  In (Double.OweEntry.mk B
        (match Double.Db.get db B with Some c => User.name c | None => "Unknown" end)
        (match Double.Db.get db B with Some c => User.imageUrl c | None => None end)
        k)
     (Double.OweDetails.youAreOwedBy
        (Double.Balances.oweDetails
           (Double.getUserBalances
              (Double.addSettlement db (Double.Settlement.mk k date (User._id A) B None)) A))).
Proof.
  set (paid := Double.Settlement.mk k date (User._id A) B None).
  unfold Double.getUserBalances. cbn [Double.Balances.oweDetails Double.OweDetails.youAreOwedBy].
  apply (proj2 (@sort_In _ _ _ _)).
  rewrite ledger_addSettlement_double by (cbn; auto).
  unfold Double.settlementStep. cbn [paid Double.Settlement.paidByUserId
    Double.Settlement.receivedByUserId Double.Settlement.amount].
  rewrite String.eqb_refl. cbn [Double.Ledger.balanceByUser].
  pose proof (listed_owed (Double.addSettlement db paid) _ B _
                (lookup_In_double _ _ _
                   (lookup_upsert_double B
                      (fun x => Double.Tally.mk (Double.Tally.owed x)
                                                (Double.Tally.owing x - k)%float)
                      _ absent))) as listed.
  unfold Double.net in listed.
  cbn [Double.Tally.owed Double.Tally.owing Double.Tally.zero] in listed.
  rewrite owing_taken in listed by exact above.
  specialize (listed above ([], [])).
  unfold Double.oweEntry in listed. rewrite abs_positive in listed by exact above.
  exact listed.
Qed.

Lemma received_creates_debt :
  In (Double.OweEntry.mk B
        (match Double.Db.get db B with Some c => User.name c | None => "Unknown" end)
        (match Double.Db.get db B with Some c => User.imageUrl c | None => None end)
        k)
     (Double.OweDetails.youOwe
        (Double.Balances.oweDetails
           (Double.getUserBalances
              (Double.addSettlement db (Double.Settlement.mk k date B (User._id A) None)) A))).
Proof.
  set (received := Double.Settlement.mk k date B (User._id A) None).
  destruct (owed_taken k above) as [nonzero [below size]].
  unfold Double.getUserBalances. cbn [Double.Balances.oweDetails Double.OweDetails.youOwe].
  apply (proj2 (@sort_In _ _ _ _)).
  rewrite ledger_addSettlement_double by (cbn; auto).
  unfold Double.settlementStep. cbn [received Double.Settlement.paidByUserId
    Double.Settlement.receivedByUserId Double.Settlement.amount].
  destruct (String.eqb_spec B (User._id A)) as [same|_]; [now contradiction distinct|].
  cbn [Double.Ledger.balanceByUser].
  pose proof (listed_owing (Double.addSettlement db received) _ B _
                (lookup_In_double _ _ _
                   (lookup_upsert_double B
                      (fun x => Double.Tally.mk (Double.Tally.owed x - k)%float
                                                (Double.Tally.owing x))
                      _ absent))) as listed.
  unfold Double.net in listed.
  cbn [Double.Tally.owed Double.Tally.owing Double.Tally.zero] in listed.
  specialize (listed nonzero below ([], [])).
  unfold Double.oweEntry in listed. rewrite size in listed.
  exact listed.
Qed.
End NewBalance.

(** C2, as the code has it. A settlement can create a balance. When the
    counterparty [B] has no tally toward the subject (no 1-to-1 expense and
    no earlier settlement between them), adding a non-group settlement of
    amount [k > 0] paid by the subject to [B] puts [B] in the [youAreOwedBy]
    list with amount [k], and adding one paid by [B] to the subject puts [B]
    in the [youOwe] list with amount [k], whatever doubles the amounts are.
    When the amounts of the record set, the new settlement included, are
    whole numbers whose absolute values add up to at most 2^53 - 1, the
    first raises [totalBalance] by [k] and the second lowers it by [k]. *)
Theorem settlement_creates_balance (A : User.t) (B : Id) (date : Z) :
  User._id A <> B ->
  (forall (db : Double.Db.t) (k : float),
      (0 <? k)%float = true ->
      Double.lookup B (Double.Ledger.balanceByUser (Double.ledger db A)) = None ->
      (exists entry,
          In entry
             (Double.OweDetails.youAreOwedBy
                (Double.Balances.oweDetails
                   (Double.getUserBalances
                      (Double.addSettlement
                         db (Double.Settlement.mk k date (User._id A) B None)) A)))
          /\ Double.OweEntry.userId entry = B /\ Double.OweEntry.amount entry = k)
      /\ (exists entry,
             In entry
                (Double.OweDetails.youOwe
                   (Double.Balances.oweDetails
                      (Double.getUserBalances
                         (Double.addSettlement
                            db (Double.Settlement.mk k date B (User._id A) None)) A)))
             /\ Double.OweEntry.userId entry = B /\ Double.OweEntry.amount entry = k))
  /\ (forall (db : Db.t) (k : Z),
         safe (addSettlement db (Settlement.mk k date (User._id A) B None)) ->
         Double.Balances.totalBalance
           (Double.getUserBalances
              (ofDb (addSettlement db (Settlement.mk k date (User._id A) B None))) A)
         = (Double.Balances.totalBalance (Double.getUserBalances (ofDb db) A) + ofZ k)%float
         /\ Double.Balances.totalBalance
              (Double.getUserBalances
                 (ofDb (addSettlement db (Settlement.mk k date B (User._id A) None))) A)
            = (Double.Balances.totalBalance (Double.getUserBalances (ofDb db) A)
               - ofZ k)%float).
Proof.
  intros distinct. split.
  - intros db k above absent. split.
    + eexists. split; [apply (paid_creates_credit db A B k date above absent)|].
      split; reflexivity.
    + eexists. split; [apply (received_creates_debt db A B k date distinct above absent)|].
      split; reflexivity.
  - intros db k room.
    set (paid := Settlement.mk k date (User._id A) B None) in *.
    set (received := Settlement.mk k date B (User._id A) None).
    assert (safe (addSettlement db received)) as roomReceived
      by (unfold safe in *; now rewrite weight_addSettlement in *).
    pose proof (safe_before db paid room) as roomBefore.
    destruct (totals_exact _ A room) as [_ [_ [-> smallPaid]]].
    destruct (totals_exact _ A roomReceived) as [_ [_ [-> smallReceived]]].
    destruct (totals_exact _ A roomBefore) as [_ [_ [-> smallBefore]]].
    unfold safe in room, roomReceived, roomBefore.
    rewrite weight_addSettlement in *. cbn [paid received Settlement.amount] in *.
    pose proof (weight_nonneg db) as heavy.
    assert (ledger (addSettlement db paid) A = settlementStep A (ledger db A) paid) as stepPaid
      by (apply ledger_addSettlement; simpl; auto).
    assert (ledger (addSettlement db received) A = settlementStep A (ledger db A) received)
      as stepReceived by (apply ledger_addSettlement; simpl; auto).
    unfold settlementStep in stepPaid, stepReceived. simpl in stepPaid, stepReceived.
    rewrite String.eqb_refl in stepPaid.
    destruct (String.eqb_spec B (User._id A)) as [same|_]; [now contradiction distinct|].
    unfold getUserBalances in *. cbn [Balances.totalBalance Balances.youOwe Balances.youAreOwed] in *.
    rewrite stepPaid, stepReceived in *.
    cbn [Ledger.youOwe Ledger.youAreOwed] in *.
    rewrite add_ofZ, sub_ofZ by lia. split; f_equal; lia.
Qed.

(** C2, as the code has it. On [smallDebts], where Carl has no tally,
    Alice hands him 0.08 and he is listed as owing her 0.08. On
    [eveningInCents] with Dora, who has no tally, a settlement of 8 cents
    that Alice pays her raises [totalBalance] from 2560 to 2568. *)
Lemma settlement_creates_balance_witness :
  (exists entry,
      In entry
         (Double.OweDetails.youAreOwedBy
            (Double.Balances.oweDetails
               (Double.getUserBalances
                  (Double.addSettlement
                     Sample.smallDebts
                     (Double.Settlement.mk 0.08 1767312000000 (User._id Sample.alice) "carl"
                                           None))
                  Sample.alice)))
      /\ Double.OweEntry.userId entry = "carl" /\ Double.OweEntry.amount entry = 0.08%float)
  /\ Double.Balances.totalBalance
       (Double.getUserBalances
          (ofDb (addSettlement Sample.eveningInCents
                   (Settlement.mk 8 1767571200000 (User._id Sample.alice) "dora" None)))
          Sample.alice)
     = (Double.Balances.totalBalance
          (Double.getUserBalances (ofDb Sample.eveningInCents) Sample.alice)
        + ofZ 8)%float
  /\ Double.Balances.totalBalance
       (Double.getUserBalances (ofDb Sample.eveningInCents) Sample.alice)
     = 2560%float
  /\ Double.Balances.totalBalance
       (Double.getUserBalances
          (ofDb (addSettlement Sample.eveningInCents
                   (Settlement.mk 8 1767571200000 (User._id Sample.alice) "dora" None)))
          Sample.alice)
     = 2568%float.
Proof.
  assert (User._id Sample.alice <> "carl") as notCarl by discriminate.
  assert (User._id Sample.alice <> "dora") as notDora by discriminate.
  split; [|split; [|split; vm_compute; reflexivity]].
  - apply (proj1 (settlement_creates_balance Sample.alice "carl" 1767312000000 notCarl)
                 Sample.smallDebts 0.08%float);
      vm_compute; reflexivity.
  - apply (proj2 (settlement_creates_balance Sample.alice "dora" 1767571200000 notDora)
                 Sample.eveningInCents 8).
    unfold safe. vm_compute. discriminate.
Defined.

(** Why the total is stated on whole amounts: when Bob owes Alice 0.01 and
    she owes him 0.02, her [totalBalance] is -0.01; once she has handed Carl
    0.08 it is 0.01 - (0.02 - 0.08) = 0.06999999999999999, while
    -0.01 + 0.08 is 0.07. *)
Example settlement_total_in_cents :
  Double.Balances.totalBalance (Double.getUserBalances Sample.smallDebts Sample.alice)
  = (-0.01)%float
  /\ Double.Balances.totalBalance
       (Double.getUserBalances (Double.addSettlement Sample.smallDebts Sample.handout)
                               Sample.alice)
     = 0.06999999999999999%float
  /\ (-0.01 + 0.08)%float = 0.07%float
  /\ (0.06999999999999999 =? 0.07)%float = false.
Proof. repeat split; vm_compute; reflexivity. Qed.

(** ** Settling a balance, on doubles *)

Lemma lookup_ofBalanceMap (uid : Id) (m : BalanceMap) :
  Double.lookup uid (ofBalanceMap m) = option_map ofTally (lookup uid m).
Proof.
  induction m as [|[k x] m IH]; [reflexivity|]. simpl. now destruct (k =? uid)%string.
Qed.

Lemma userIds_ofOweEntry (l : list OweEntry.t) :
  map Double.OweEntry.userId (map ofOweEntry l) = map OweEntry.userId l.
Proof. rewrite map_map. reflexivity. Qed.

Lemma lookup_within (uid : Id) (x : Tally.t) (bound : Z) (st : Ledger.t) :
  within bound st -> lookup uid (Ledger.balanceByUser st) = Some x ->
  Z.abs (Tally.owed x) + Z.abs (Tally.owing x) <= bound.
Proof.
  intros [_ tallies] found. apply lookup_In in found.
  apply (proj1 (Forall_forall _ _) tallies (uid, x) found).
Qed.

(** X4. A settlement of exactly the net amount clears the counterparty, on
    whole amounts. When the amounts of the record set, the new settlement
    included, are whole numbers whose absolute values add up to at most
    2^53 - 1 and [B] owes the subject the net [n > 0], a non-group
    settlement of [n] paid by [B] to the subject takes [B] off both lists
    and lowers [youAreOwed] by [n]; when the subject owes [B] (the net [n]
    is negative), one of [- n] paid by the subject to [B] takes [B] off both
    lists and lowers [youOwe] by [- n]. *)
Theorem exact_settlement_clears
        (db : Db.t) (A : User.t) (B : Id) (x : Double.Tally.t) (n date : Z) :
  User._id A <> B ->
  Double.lookup B (Double.Ledger.balanceByUser (Double.ledger (ofDb db) A)) = Some x ->
  Double.net x = ofZ n ->
  (0 < n ->
   safe (addSettlement db (Settlement.mk n date B (User._id A) None)) ->
   let after := Double.getUserBalances
                  (ofDb (addSettlement db (Settlement.mk n date B (User._id A) None))) A in
   ~ In B (map Double.OweEntry.userId
               (Double.OweDetails.youOwe (Double.Balances.oweDetails after)
                ++ Double.OweDetails.youAreOwedBy (Double.Balances.oweDetails after)))
   /\ Double.Balances.youAreOwed after
      = (Double.Balances.youAreOwed (Double.getUserBalances (ofDb db) A) - ofZ n)%float
   /\ Double.Balances.youOwe after
      = Double.Balances.youOwe (Double.getUserBalances (ofDb db) A))
  /\ (n < 0 ->
      safe (addSettlement db (Settlement.mk (- n) date (User._id A) B None)) ->
      let after := Double.getUserBalances
                     (ofDb (addSettlement db (Settlement.mk (- n) date (User._id A) B None)))
                     A in
      ~ In B (map Double.OweEntry.userId
                  (Double.OweDetails.youOwe (Double.Balances.oweDetails after)
                   ++ Double.OweDetails.youAreOwedBy (Double.Balances.oweDetails after)))
      /\ Double.Balances.youOwe after
         = (Double.Balances.youOwe (Double.getUserBalances (ofDb db) A) - ofZ (- n))%float
      /\ Double.Balances.youAreOwed after
         = Double.Balances.youAreOwed (Double.getUserBalances (ofDb db) A)).
Proof.
  intros distinct found net.
  assert (forall s, safe (addSettlement db s) -> Z.abs (Settlement.amount s) = Z.abs n ->
                    exists z, lookup B (Ledger.balanceByUser (ledger db A)) = Some z
                              /\ Tally.net z = n) as whole.
  { intros s room size. pose proof (safe_before db s room) as roomBefore.
    destruct (ledger_exact A db roomBefore) as [same inside].
    rewrite same in found. cbn [ofLedger Double.Ledger.balanceByUser] in found.
    rewrite lookup_ofBalanceMap in found.
    destruct (lookup B (Ledger.balanceByUser (ledger db A))) as [z|] eqn:foundZ;
      [|discriminate].
    injection found as <-. exists z. split; [reflexivity|].
    pose proof (lookup_within B z _ _ inside foundZ) as small.
    unfold safe in room, roomBefore. rewrite weight_addSettlement in room.
    pose proof (weight_nonneg db) as heavy.
    unfold Double.net, ofTally in net. cbn [Double.Tally.owed Double.Tally.owing] in net.
    rewrite sub_ofZ in net by lia.
    apply ofZ_inj in net; [exact net | unfold Tally.net; lia | lia]. }
  split; intros sign room after; subst after.
  - destruct (whole _ room) as [z [foundZ netZ]]; [simpl; lia|].
    pose proof (safe_before db _ room) as roomBefore.
    destruct (exact_settlement_clears_Z db A B z date distinct foundZ) as [clears _].
    rewrite netZ in clears. destruct (clears sign) as [gone [lowered same]].
    destruct (totals_exact _ A room) as [owe [owed [_ smallAfter]]].
    destruct (totals_exact _ A roomBefore) as [oweBefore [owedBefore [_ smallBefore]]].
    rewrite owe, owed, oweBefore, owedBefore.
    rewrite getUserBalances_exact by exact room.
    cbn [ofBalances Double.Balances.oweDetails Double.OweDetails.youOwe
         Double.OweDetails.youAreOwedBy].
    rewrite <- map_app, userIds_ofOweEntry.
    unfold safe in room, roomBefore. rewrite weight_addSettlement in room, smallAfter.
    cbn [Settlement.amount] in room, smallAfter.
    pose proof (weight_nonneg db) as heavy.
    split; [exact gone|]. rewrite sub_ofZ by lia. split; f_equal; lia.
  - destruct (whole _ room) as [z [foundZ netZ]]; [simpl; lia|].
    pose proof (safe_before db _ room) as roomBefore.
    destruct (exact_settlement_clears_Z db A B z date distinct foundZ) as [_ clears].
    rewrite netZ in clears. destruct (clears sign) as [gone [lowered same]].
    destruct (totals_exact _ A room) as [owe [owed [_ smallAfter]]].
    destruct (totals_exact _ A roomBefore) as [oweBefore [owedBefore [_ smallBefore]]].
    rewrite owe, owed, oweBefore, owedBefore.
    rewrite getUserBalances_exact by exact room.
    cbn [ofBalances Double.Balances.oweDetails Double.OweDetails.youOwe
         Double.OweDetails.youAreOwedBy].
    rewrite <- map_app, userIds_ofOweEntry.
    unfold safe in room, roomBefore. rewrite weight_addSettlement in room, smallAfter.
    cbn [Settlement.amount] in room, smallAfter.
    pose proof (weight_nonneg db) as heavy.
    split; [exact gone|]. rewrite sub_ofZ by lia. split; f_equal; lia.
Qed.

(** On [oneExpense], where Bob owes Alice 100, and his settlement of 100. *)
Example exact_settlement_clears_witness :
  ~ In "bob"
       (map Double.OweEntry.userId
            (Double.OweDetails.youOwe
               (Double.Balances.oweDetails
                  (Double.getUserBalances (ofDb Sample.settled) Sample.alice))
             ++ Double.OweDetails.youAreOwedBy
                  (Double.Balances.oweDetails
                     (Double.getUserBalances (ofDb Sample.settled) Sample.alice))))
  /\ Double.Balances.youAreOwed (Double.getUserBalances (ofDb Sample.settled) Sample.alice)
     = (Double.Balances.youAreOwed
          (Double.getUserBalances (ofDb Sample.oneExpense) Sample.alice) - ofZ 100)%float
  /\ Double.Balances.youOwe (Double.getUserBalances (ofDb Sample.settled) Sample.alice)
     = Double.Balances.youOwe (Double.getUserBalances (ofDb Sample.oneExpense) Sample.alice).
Proof.
  apply (exact_settlement_clears Sample.oneExpense Sample.alice "bob"
                                 (Double.Tally.mk 100 0) 100 1767312000000).
  - discriminate.
  - vm_compute. reflexivity.
  - vm_compute. reflexivity.
  - reflexivity.
  - unfold safe. vm_compute. discriminate.
Defined.

(** ** The year total, on doubles *)

Lemma personalShare_exact (user : User.t) (e : Expense.t) :
  Double.personalShare user (ofExpense e) = ofZ (personalShare user e)
  /\ Z.abs (personalShare user e) <= splitWeight e.
Proof.
  pose proof (splitWeight_nonneg e) as heavy.
  unfold Double.personalShare, personalShare. rewrite findSplit_ofExpense.
  destruct (findSplit _ e) as [mine|] eqn:found; cbn [option_map].
  - split; [reflexivity | exact (share_light user e mine found)].
  - split; [reflexivity | lia].
Qed.

(** X5. The year total is the sum of the subject's shares, on whole amounts.
    When the amounts of the record set are whole numbers whose absolute
    values add up to at most 2^53 - 1, [getTotalSpent] returns the sum,
    over the expenses of the table dated on or after 1 January of the
    current year and in the order of the table, of the amount of the split
    found for the subject: whoever paid, in a group or not. *)
Theorem total_spent_is_sum_of_shares (db : Db.t) (user : User.t) (now : Z) :
  safe db ->
  Double.getTotalSpent (ofDb db) user now
  = Double.sum (map (Double.personalShare user)
                    (filter (fun e => JsDate.startOfYear now <=? Double.Expense.date e)
                            (Double.Db.expenses (ofDb db)))).
Proof.
  intros room. rewrite getTotalSpent_exact, total_spent_is_sum_of_shares_Z by exact room.
  unfold ofDb. cbn [Double.Db.expenses].
  rewrite (filter_map_comm ofExpense _
             (fun e => JsDate.startOfYear now <=? Expense.date e)) by reflexivity.
  rewrite map_map.
  rewrite (map_ext _ (fun e => ofZ (personalShare user e)))
    by (intros e; apply personalShare_exact).
  symmetry. apply sum_exact.
  unfold safe, weight in room.
  pose proof (sumOf_nonneg (fun s => Z.abs (Settlement.amount s)) (Db.settlements db)
                           (fun s => Z.abs_nonneg _)).
  pose proof (sumOf_filter_le splitWeight (fun e => JsDate.startOfYear now <=? Expense.date e)
                              (Db.expenses db) splitWeight_nonneg).
  pose proof (sumOf_le (fun e => Z.abs (personalShare user e)) splitWeight
                       (filter (fun e => JsDate.startOfYear now <=? Expense.date e)
                               (Db.expenses db))
                       (fun e => proj2 (personalShare_exact user e))).
  lia.
Qed.

(** In the middle of June 2026, on a table that holds the expense of last
    year, the shares of 20 and 30, and the treat in which Alice has no
    split: the year total is 50. *)
Example total_spent_is_sum_of_shares_witness :
  Double.getTotalSpent
    (ofDb (Db.mk [Sample.alice; Sample.bob]
                 [Sample.march; Sample.lastYear; Sample.treat; Sample.january] [] []))
    Sample.alice Sample.midJune2026
  = Double.sum
      (map (Double.personalShare Sample.alice)
           (filter (fun e => JsDate.startOfYear Sample.midJune2026 <=? Double.Expense.date e)
                   (Double.Db.expenses
                      (ofDb (Db.mk [Sample.alice; Sample.bob]
                                   [Sample.march; Sample.lastYear; Sample.treat;
                                    Sample.january] [] [])))))
  /\ Double.getTotalSpent
       (ofDb (Db.mk [Sample.alice; Sample.bob]
                    [Sample.march; Sample.lastYear; Sample.treat; Sample.january] [] []))
       Sample.alice Sample.midJune2026
     = 50%float.
Proof.
  split; [|vm_compute; reflexivity].
  apply (total_spent_is_sum_of_shares
           (Db.mk [Sample.alice; Sample.bob]
                  [Sample.march; Sample.lastYear; Sample.treat; Sample.january] [] [])
           Sample.alice Sample.midJune2026).
  unfold safe. vm_compute. discriminate.
Defined.

(** ** The handlers on doubles and in exact arithmetic *)

(** X27. On whole amounts, [getUserBalances] computes exactly. When the
    amounts of the record set are whole numbers whose absolute values add up
    to at most 2^53 - 1, the handler, run on doubles, returns the totals and
    the two lists it returns in exact arithmetic: no addition or subtraction
    rounds, and the lists are sorted alike. *)
Theorem balances_of_whole_amounts (db : Db.t) (user : User.t) :
  safe db ->
  Double.getUserBalances (ofDb db) user = ofBalances (getUserBalances db user).
Proof. apply getUserBalances_exact. Qed.

(** On [eveningInCents]. *)
Example balances_of_whole_amounts_witness :
  Double.getUserBalances (ofDb Sample.eveningInCents) Sample.alice
  = ofBalances (getUserBalances Sample.eveningInCents Sample.alice)
  /\ Double.getUserBalances (ofDb Sample.eveningInCents) Sample.alice
     = Double.Balances.mk
         2500 5060 2560
         (Double.OweDetails.mk [Double.OweEntry.mk "bob" "bob" None 1490]
                               [Double.OweEntry.mk "carl" "carl" None 4050]).
Proof.
  split; [|vm_compute; reflexivity].
  apply (balances_of_whole_amounts Sample.eveningInCents Sample.alice).
  unfold safe. vm_compute. discriminate.
Defined.

(** X28. On whole amounts, [getTotalSpent] and [getMonthlySpending] compute
    exactly: run on doubles they return the year total and the month
    entries they return in exact arithmetic. *)
Theorem spending_of_whole_amounts (db : Db.t) (user : User.t) (now : Z) :
  safe db ->
  Double.getTotalSpent (ofDb db) user now = ofZ (getTotalSpent db user now)
  /\ Double.getMonthlySpending (ofDb db) user now
     = map ofMonthEntry (getMonthlySpending db user now).
Proof.
  intros room. split; [now apply getTotalSpent_exact | now apply getMonthlySpending_exact].
Qed.

(** On [twoMonths] in the middle of June 2026. *)
Example spending_of_whole_amounts_witness :
  (Double.getTotalSpent (ofDb Sample.twoMonths) Sample.alice Sample.midJune2026
   = ofZ (getTotalSpent Sample.twoMonths Sample.alice Sample.midJune2026)
   /\ Double.getMonthlySpending (ofDb Sample.twoMonths) Sample.alice Sample.midJune2026
      = map ofMonthEntry
            (getMonthlySpending Sample.twoMonths Sample.alice Sample.midJune2026))
  /\ map Double.MonthEntry.total
         (Double.getMonthlySpending (ofDb Sample.twoMonths) Sample.alice Sample.midJune2026)
     = [20; 0; 30; 0; 0; 0; 0; 0; 0; 0; 0; 0]%float.
Proof.
  split; [|vm_compute; reflexivity].
  apply (spending_of_whole_amounts Sample.twoMonths Sample.alice Sample.midJune2026).
  unfold safe. vm_compute. discriminate.
Defined.

(** X29. On whole amounts, [getUserGroups] computes exactly: run on doubles
    it returns the groups and the balances it returns in exact
    arithmetic. *)
Theorem groups_of_whole_amounts (db : Db.t) (user : User.t) :
  safe db ->
  Double.getUserGroups (ofDb db) user = map ofEnhancedGroup (getUserGroups db user).
Proof. apply getUserGroups_exact. Qed.

(** On [backAndForthInCents], where Alice's balance in the group is 202. *)
Example groups_of_whole_amounts_witness :
  Double.getUserGroups (ofDb Sample.backAndForthInCents) Sample.alice
  = map ofEnhancedGroup (getUserGroups Sample.backAndForthInCents Sample.alice)
  /\ map Double.EnhancedGroup.balance
         (Double.getUserGroups (ofDb Sample.backAndForthInCents) Sample.alice)
     = [202%float].
Proof.
  split; [|vm_compute; reflexivity].
  apply (groups_of_whole_amounts Sample.backAndForthInCents Sample.alice).
  unfold safe. vm_compute. discriminate.
Defined.

(** ** Who is listed, on doubles *)

Lemma listed_by_net_at
      (db : Double.Db.t) (user : User.t) (uid : Id) (x : Double.Tally.t) :
  Double.lookup uid (Double.Ledger.balanceByUser (Double.ledger db user)) = Some x ->
  ((0 <? Double.net x)%float = true ->
   In (Double.oweEntry db uid (Double.net x))
      (Double.OweDetails.youAreOwedBy
         (Double.Balances.oweDetails (Double.getUserBalances db user))))
  /\ ((Double.net x =? 0)%float = false -> (0 <? Double.net x)%float = false ->
      In (Double.oweEntry db uid (Double.net x))
         (Double.OweDetails.youOwe
            (Double.Balances.oweDetails (Double.getUserBalances db user)))).
Proof.
  intros found. apply lookup_In_double in found.
  unfold Double.getUserBalances.
  cbn [Double.Balances.oweDetails Double.OweDetails.youOwe Double.OweDetails.youAreOwedBy].
  split.
  - intros above. apply (proj2 (@sort_In _ _ _ _)). now apply listed_owed.
  - intros nonzero below. apply (proj2 (@sort_In _ _ _ _)). now apply listed_owing.
Qed.

(** ** One counterparty, on doubles *)

Lemma lookup_upsert_same_double (uid : Id) (f : Double.Tally.t -> Double.Tally.t)
      (m : Double.BalanceMap) :
  Double.lookup uid (Double.upsert uid f m) = Some (f (Double.tallyOf uid m)).
Proof.
  unfold Double.tallyOf.
  induction m as [|[k x] m IH]; simpl.
  - now rewrite String.eqb_refl.
  - destruct (String.eqb_spec k uid) as [->|ne]; simpl.
    + now rewrite String.eqb_refl.
    + destruct (String.eqb_spec k uid); [contradiction|exact IH].
Qed.

Lemma lookup_upsert_other_double (uid k : Id) (f : Double.Tally.t -> Double.Tally.t)
      (m : Double.BalanceMap) :
  uid <> k -> Double.lookup k (Double.upsert uid f m) = Double.lookup k m.
Proof.
  intros ne.
  induction m as [|[k' x] m IH]; simpl.
  - destruct (String.eqb_spec uid k); [contradiction|reflexivity].
  - destruct (String.eqb_spec k' uid) as [->|other]; simpl.
    + destruct (String.eqb_spec uid k); [contradiction|reflexivity].
    + destruct (String.eqb_spec k' k); [reflexivity|exact IH].
Qed.

Lemma tallyOf_upsert_double (uid k : Id) (f : Double.Tally.t -> Double.Tally.t)
      (m : Double.BalanceMap) :
  Double.tallyOf uid (Double.upsert k f m)
  = if (k =? uid)%string then f (Double.tallyOf uid m) else Double.tallyOf uid m.
Proof.
  destruct (String.eqb_spec k uid) as [-> | other].
  - unfold Double.tallyOf at 1. now rewrite lookup_upsert_same_double.
  - unfold Double.tallyOf. now rewrite lookup_upsert_other_double.
Qed.

Section OneCounterpartyDouble.
Variable db : Double.Db.t.
Variable user : User.t.
Variable uid : Id.
Hypothesis other : uid <> User._id user.

Lemma creditSplit_owed_double st s :
  Double.Tally.owed (Double.tallyOf uid (Double.Ledger.balanceByUser (Double.creditSplit user st s)))
  = if (Double.Split.userId s =? uid)%string && negb (Double.Split.paid s)
    then (Double.Tally.owed (Double.tallyOf uid (Double.Ledger.balanceByUser st))
          + Double.Split.amount s)%float
    else Double.Tally.owed (Double.tallyOf uid (Double.Ledger.balanceByUser st)).
Proof.
  unfold Double.creditSplit.
  destruct (String.eqb_spec (Double.Split.userId s) (User._id user)) as [mine|theirs]; simpl.
  - destruct (String.eqb_spec (Double.Split.userId s) uid); [congruence | reflexivity].
  - destruct (Double.Split.paid s); simpl; [now rewrite andb_false_r|].
    rewrite tallyOf_upsert_double, andb_true_r. now destruct (_ =? _)%string.
Qed.

Lemma creditSplit_owing_double st s :
  Double.Tally.owing (Double.tallyOf uid (Double.Ledger.balanceByUser (Double.creditSplit user st s)))
  = Double.Tally.owing (Double.tallyOf uid (Double.Ledger.balanceByUser st)).
Proof.
  unfold Double.creditSplit. destruct (_ || _); [reflexivity|]. simpl.
  rewrite tallyOf_upsert_double. now destruct (_ =? _)%string.
Qed.

Lemma expenseStep_owed_double st e :
  Double.Tally.owed (Double.tallyOf uid (Double.Ledger.balanceByUser (Double.expenseStep user st e)))
  = if (Double.Expense.paidByUserId e =? User._id user)%string
    then fold_left (fun owed s => if (Double.Split.userId s =? uid)%string && negb (Double.Split.paid s)
                                  then (owed + Double.Split.amount s)%float else owed)
                   (Double.Expense.splits e) (Double.Tally.owed (Double.tallyOf uid (Double.Ledger.balanceByUser st)))
    else Double.Tally.owed (Double.tallyOf uid (Double.Ledger.balanceByUser st)).
Proof.
  unfold Double.expenseStep. destruct (_ =? _)%string.
  - apply (fold_left_read (fun st => Double.Tally.owed (Double.tallyOf uid (Double.Ledger.balanceByUser st)))).
    apply creditSplit_owed_double.
  - destruct (Double.findSplit _ e) as [mine|]; [|reflexivity].
    destruct (negb _); [|reflexivity]. simpl.
    rewrite tallyOf_upsert_double. now destruct (_ =? _)%string.
Qed.

Lemma expenseStep_owing_double st e :
  Double.Tally.owing (Double.tallyOf uid (Double.Ledger.balanceByUser (Double.expenseStep user st e)))
  = if (Double.Expense.paidByUserId e =? uid)%string
    then match Double.findSplit (User._id user) e with
         | Some mine => if Double.Split.paid mine
                        then Double.Tally.owing (Double.tallyOf uid (Double.Ledger.balanceByUser st))
                        else (Double.Tally.owing (Double.tallyOf uid (Double.Ledger.balanceByUser st))
                              + Double.Split.amount mine)%float
         | None => Double.Tally.owing (Double.tallyOf uid (Double.Ledger.balanceByUser st))
         end
    else Double.Tally.owing (Double.tallyOf uid (Double.Ledger.balanceByUser st)).
Proof.
  unfold Double.expenseStep.
  destruct (String.eqb_spec (Double.Expense.paidByUserId e) (User._id user)) as [mine|theirs].
  - destruct (String.eqb_spec (Double.Expense.paidByUserId e) uid); [congruence|].
    rewrite (fold_left_read (fun st => Double.Tally.owing (Double.tallyOf uid (Double.Ledger.balanceByUser st)))
                            (Double.creditSplit user) (fun owing _ => owing)).
    + now induction (Double.Expense.splits e).
    + apply creditSplit_owing_double.
  - destruct (Double.findSplit _ e) as [mine|]; [|now destruct (_ =? _)%string].
    destruct (Double.Split.paid mine); simpl; [now destruct (_ =? _)%string|].
    rewrite tallyOf_upsert_double. now destruct (_ =? _)%string.
Qed.

Lemma settlementStep_owed_double st s :
  Double.Tally.owed (Double.tallyOf uid (Double.Ledger.balanceByUser (Double.settlementStep user st s)))
  = if negb (Double.Settlement.paidByUserId s =? User._id user)%string
       && (Double.Settlement.paidByUserId s =? uid)%string
    then (Double.Tally.owed (Double.tallyOf uid (Double.Ledger.balanceByUser st))
          - Double.Settlement.amount s)%float
    else Double.Tally.owed (Double.tallyOf uid (Double.Ledger.balanceByUser st)).
Proof.
  unfold Double.settlementStep.
  destruct (Double.Settlement.paidByUserId s =? User._id user)%string; simpl;
    rewrite tallyOf_upsert_double; destruct (_ =? _)%string; reflexivity.
Qed.

Lemma settlementStep_owing_double st s :
  Double.Tally.owing (Double.tallyOf uid (Double.Ledger.balanceByUser (Double.settlementStep user st s)))
  = if (Double.Settlement.paidByUserId s =? User._id user)%string
       && (Double.Settlement.receivedByUserId s =? uid)%string
    then (Double.Tally.owing (Double.tallyOf uid (Double.Ledger.balanceByUser st))
          - Double.Settlement.amount s)%float
    else Double.Tally.owing (Double.tallyOf uid (Double.Ledger.balanceByUser st)).
Proof.
  unfold Double.settlementStep.
  destruct (Double.Settlement.paidByUserId s =? User._id user)%string; simpl;
    rewrite tallyOf_upsert_double; destruct (_ =? _)%string; reflexivity.
Qed.

(** The tally the Double.ledger holds for the counterparty is what the records
    say. *)
Lemma owed_of_records_double :
  Double.Tally.owed (Double.tallyOf uid (Double.Ledger.balanceByUser (Double.ledger db user))) = Double.owedBy db user uid.
Proof.
  unfold Double.ledger, Double.expenseLedger.
  rewrite (fold_left_read
             (fun st => Double.Tally.owed (Double.tallyOf uid (Double.Ledger.balanceByUser st)))
             (Double.settlementStep user)
             (fun owed s => if negb (Double.Settlement.paidByUserId s =? User._id user)%string
                               && (Double.Settlement.paidByUserId s =? uid)%string
                            then (owed - Double.Settlement.amount s)%float else owed)
             _ _ settlementStep_owed_double).
  rewrite (fold_left_read
             (fun st => Double.Tally.owed (Double.tallyOf uid (Double.Ledger.balanceByUser st)))
             (Double.expenseStep user)
             (fun owed e =>
                if (Double.Expense.paidByUserId e =? User._id user)%string
                then fold_left (fun owed s =>
                                  if (Double.Split.userId s =? uid)%string && negb (Double.Split.paid s)
                                  then (owed + Double.Split.amount s)%float else owed)
                               (Double.Expense.splits e) owed
                else owed)
             _ _ expenseStep_owed_double).
  unfold Double.owedBy, Double.involvedSettlements, Double.involvedExpenses.
  rewrite <- !fold_left_when. cbn [Double.Ledger.init Double.Ledger.balanceByUser Double.tallyOf Double.lookup Double.Tally.zero
                                   Double.Tally.owed].
  rewrite <- fold_left_flat_map, <- !fold_left_when.
  apply fold_left_same2; [|apply fold_left_same].
  2: { intros owed e. cbv beta.
    destruct (String.eqb_spec (Double.Expense.paidByUserId e) (User._id user)); simpl;
      rewrite ?andb_false_r, ?andb_true_r; destruct (noGroup _); try reflexivity;
      now destruct (Double.hasSplit (User._id user) e). }
  - intros owed s. cbv beta.
    destruct (String.eqb_spec (Double.Settlement.paidByUserId s) (User._id user)) as [mine|theirs],
             (String.eqb_spec (Double.Settlement.paidByUserId s) uid) as [same|differs];
      simpl; try congruence; rewrite ?andb_false_r, ?andb_true_r; try reflexivity;
      now destruct (noGroup _), (_ =? _)%string.
Qed.

Lemma owing_of_records_double :
  Double.Tally.owing (Double.tallyOf uid (Double.Ledger.balanceByUser (Double.ledger db user))) = Double.owingTo db user uid.
Proof.
  unfold Double.ledger, Double.expenseLedger.
  rewrite (fold_left_read
             (fun st => Double.Tally.owing (Double.tallyOf uid (Double.Ledger.balanceByUser st)))
             (Double.settlementStep user)
             (fun owing s => if (Double.Settlement.paidByUserId s =? User._id user)%string
                                && (Double.Settlement.receivedByUserId s =? uid)%string
                             then (owing - Double.Settlement.amount s)%float else owing)
             _ _ settlementStep_owing_double).
  rewrite (fold_left_read
             (fun st => Double.Tally.owing (Double.tallyOf uid (Double.Ledger.balanceByUser st)))
             (Double.expenseStep user)
             (fun owing e =>
                if (Double.Expense.paidByUserId e =? uid)%string
                then match Double.findSplit (User._id user) e with
                     | Some mine => if Double.Split.paid mine then owing
                                    else (owing + Double.Split.amount mine)%float
                     | None => owing
                     end
                else owing)
             _ _ expenseStep_owing_double).
  unfold Double.owingTo, Double.involvedSettlements, Double.involvedExpenses.
  rewrite <- !fold_left_when. cbn [Double.Ledger.init Double.Ledger.balanceByUser Double.tallyOf Double.lookup Double.Tally.zero
                                   Double.Tally.owing].
  apply fold_left_same2; [|apply fold_left_same].
  2: { intros owing e. cbv beta.
    destruct (String.eqb_spec (Double.Expense.paidByUserId e) uid) as [same|differs];
      rewrite ?andb_false_r, ?andb_true_r; [|now destruct (_ && _)].
    destruct (String.eqb_spec (Double.Expense.paidByUserId e) (User._id user)); [congruence|].
    simpl. unfold Double.hasSplit, Double.findSplit.
    destruct (noGroup _); simpl; [|reflexivity].
    destruct (find _ (Double.Expense.splits e)) as [mine|] eqn:found.
    + apply find_some in found as [ins eq].
      assert (existsb (fun s => (Double.Split.userId s =? User._id user)%string)
                      (Double.Expense.splits e) = true) as yes.
      { apply existsb_exists. eauto. }
      now rewrite yes.
    + now destruct (existsb _ _). }
  - intros owing s. cbv beta.
    destruct (String.eqb_spec (Double.Settlement.paidByUserId s) (User._id user)) as [mine|theirs];
      simpl; rewrite ?andb_false_r, ?andb_true_r;
      now destruct (noGroup _), (_ =? _)%string.
Qed.
End OneCounterpartyDouble.

(** X30. What [getUserBalances] lists for a counterparty, whatever doubles the
    amounts are, is what the records hold between the two. [owedBy] is the
    sum, taken in the order of the tables, of the counterparty's unpaid
    splits in the 1-to-1 expenses the subject paid, less the 1-to-1
    settlements the counterparty paid the subject; [owingTo] is the same
    with the roles exchanged. When [owedBy - owingTo] is above zero the
    counterparty is in [youAreOwedBy], when it is neither zero nor above
    zero in [youOwe], with the absolute value as amount, and under the name
    "Unknown" when the id has no user document. *)
Theorem listed_from_records (db : Double.Db.t) (user : User.t) (uid : Id) :
  uid <> User._id user ->
  ((0 <? Double.owedBy db user uid - Double.owingTo db user uid)%float = true ->
   In (Double.oweEntry db uid (Double.owedBy db user uid - Double.owingTo db user uid)%float)
      (Double.OweDetails.youAreOwedBy
         (Double.Balances.oweDetails (Double.getUserBalances db user))))
  /\ ((Double.owedBy db user uid - Double.owingTo db user uid =? 0)%float = false ->
      (0 <? Double.owedBy db user uid - Double.owingTo db user uid)%float = false ->
      In (Double.oweEntry db uid (Double.owedBy db user uid - Double.owingTo db user uid)%float)
         (Double.OweDetails.youOwe
            (Double.Balances.oweDetails (Double.getUserBalances db user))))
  /\ (Double.Db.get db uid = None ->
      Double.oweEntry db uid (Double.owedBy db user uid - Double.owingTo db user uid)%float
      = Double.OweEntry.mk
          uid "Unknown" None
          (abs (Double.owedBy db user uid - Double.owingTo db user uid))).
Proof.
  intros other.
  pose proof (owed_of_records_double db user uid other) as owed.
  pose proof (owing_of_records_double db user uid other) as owing.
  unfold Double.tallyOf in owed, owing.
  destruct (Double.lookup uid (Double.Ledger.balanceByUser (Double.ledger db user)))
    as [x|] eqn:found.
  - destruct (listed_by_net_at db user uid x found) as [above below].
    unfold Double.net in above, below. rewrite owed, owing in above, below.
    split; [exact above|]. split; [exact below|].
    intros missing. unfold Double.oweEntry. now rewrite missing.
  - cbn [Double.Tally.zero Double.Tally.owed Double.Tally.owing] in owed, owing.
    rewrite <- owed, <- owing.
    split; [intros above; vm_compute in above; discriminate|].
    split; [intros nonzero; vm_compute in nonzero; discriminate|].
    intros missing. unfold Double.oweEntry. now rewrite missing.
Qed.

(** On [unevenDebts] without Bob's document, once he has paid Alice 99.80:
    by the records he owes her 100.1 - 99.8 and she owes him 0.3, and he is
    listed in [youOwe] under "Unknown" with 2.8310687127941492e-15. *)
Example listed_from_records_witness :
  In (Double.OweEntry.mk "bob" "Unknown" None 2.8310687127941492e-15)
     (Double.OweDetails.youOwe
        (Double.Balances.oweDetails
           (Double.getUserBalances
              (Double.Db.mk [Sample.alice]
                            (Double.Db.expenses Sample.unevenDebts)
                            [Double.Settlement.mk 99.8 1767312000000 "bob" "alice" None] [])
              Sample.alice)))
  /\ Double.owedBy
       (Double.Db.mk [Sample.alice]
                     (Double.Db.expenses Sample.unevenDebts)
                     [Double.Settlement.mk 99.8 1767312000000 "bob" "alice" None] [])
       Sample.alice "bob"
     = 0.29999999999999716%float
  /\ Double.owingTo
       (Double.Db.mk [Sample.alice]
                     (Double.Db.expenses Sample.unevenDebts)
                     [Double.Settlement.mk 99.8 1767312000000 "bob" "alice" None] [])
       Sample.alice "bob"
     = 0.3%float.
Proof.
  split; [|split; vm_compute; reflexivity].
  assert ("bob" <> User._id Sample.alice) as other by discriminate.
  apply (proj1 (proj2 (listed_from_records
                         (Double.Db.mk [Sample.alice]
                                       (Double.Db.expenses Sample.unevenDebts)
                                       [Double.Settlement.mk 99.8 1767312000000 "bob" "alice"
                                                             None] [])
                         Sample.alice "bob" other)));
    vm_compute; reflexivity.
Defined.
